(** * The tabular cleaning pipeline of [clean.py]

    A shallow embedding of [initial_cleaning], [compute_missing_rates],
    [impute_column] and [handle_missing_values], together with the part of
    pandas they rely on, and the properties of the missing-value gate.

    Conventions of the model.
    - A float64 is [NaN], an infinity or a finite value, written as the
      rational it denotes.  Float arithmetic enters in two places, the
      midpoint taken by a median and the mean; what rounding and overflow
      do there is given by the class [Arithmetic], a parameter of the
      model.  A rate [k / n] is kept as the exact quotient.
    - A column is a [Series]: a float64 column ([SFloat], missing = NaN) or an
      object column ([SObject]) of Python objects: text, numbers, or a
      missing marker (None / NaN).  pandas' integer columns never hold a
      missing value and are represented by float columns without NaN.
    - Column labels are ASCII strings.
    - DataFrames and Series are objects in a heap and are handled through
      references, so that copies, in-place updates and aliasing are
      visible.  An object bound to a name, passed or returned gets a heap
      cell; the temporaries of a method chain are computed as values.
    - The number syntax of [pd.to_numeric] and the text of a finite
      number under [str] are parameters of the functions.
    - The report dictionaries are finite maps; the text of the message of
      [TooManyMissingError] is not part of the model, its payload is.

    The file has two parts: the model (data, pandas operations, the four
    functions, and value-level summaries of what they compute), then the
    lemmas relating the heap computations to the summaries and the
    properties themselves. *)

From Stdlib Require Import QArith Qreduction ZArith String Ascii List Bool Lia Lqa Sorted.
From stdpp Require Import base gmap strings list fin_maps pretty.

Local Open Scope Z_scope.
Local Open Scope nat_scope.
Local Open Scope list_scope.

(** ** Floats *)

Module Float.

(** [Inf true] is [-inf] and [Inf false] is [+inf]. *)
Inductive float : Type :=
| NaN
| Fin (q : Q)
| Inf (negative : bool).

Definition isnan (x : float) : bool :=
  match x with NaN => true | _ => false end.

Definition isinf (x : float) : bool :=
  match x with Inf _ => true | _ => false end.

(** IEEE comparisons: every comparison with NaN is false; [-inf] is below
    and [+inf] above every finite value. *)
Definition le (a b : float) : bool :=
  match a, b with
  | NaN, _ | _, NaN => false
  | Fin x, Fin y => Qle_bool x y
  | Inf true, _ => true
  | _, Inf false => true
  | _, _ => false
  end.

Definition gt (a b : float) : bool :=
  match a, b with
  | NaN, _ | _, NaN => false
  | _, _ => negb (le a b)
  end.

Definition ge (a b : float) : bool := le b a.

Definition eqb (a b : float) : bool :=
  match a, b with
  | Fin x, Fin y => Qeq_bool x y
  | Inf s, Inf t => Bool.eqb s t
  | _, _ => false
  end.

(** Float64 arithmetic, as far as the functions use it.  [round_number q]
    is the float64 nearest to the real number [q], [None] when [q] is too
    large in magnitude for a finite float64.  [mean_number xs] is
    [s.mean()] of a column [xs] that has a non-missing value and not both
    infinities: the order in which numpy adds the cells, and so the
    rounding and the overflow of the sum, is not fixed by [clean.py]. *)
Class Arithmetic : Type := {
  round_number : Q -> option Q;
  mean_number : list float -> float
}.

Section Operations.

Context {fp : Arithmetic}.

(** The float64 result of an operation whose exact result is [q]:
    overflow gives the infinity of the sign of [q]. *)
Definition rounded (q : Q) : float :=
  match round_number q with
  | Some r => Fin r
  | None => Inf (negb (Qle_bool 0 q))
  end.

(** [a + b] *)
Definition add (a b : float) : float :=
  match a, b with
  | NaN, _ | _, NaN => NaN
  | Fin x, Fin y => rounded (x + y)
  | Inf s, Fin _ => Inf s
  | Fin _, Inf s => Inf s
  | Inf s, Inf t => if Bool.eqb s t then Inf s else NaN
  end.

(** [a / 2] *)
Definition halve (a : float) : float :=
  match a with
  | Fin x => rounded (x / 2)
  | _ => a
  end.

(** The mean [(a + b) / 2] of two values. *)
Definition midpoint (a b : float) : float := halve (add a b).

End Operations.

(** [k / n] as computed by a mean of [n] values summing to [k]:
    NaN on an empty sample. *)
Definition ratio (k n : nat) : float :=
  match n with
  | O => NaN
  | S _ => Fin (Qred (Z.of_nat k # Pos.of_nat n))
  end.

Definition zero : float := Fin 0.
Definition half : float := Fin (1 # 2).

End Float.

Export Float (float, NaN, Fin, Inf, Arithmetic).

(** ** Python [str] methods used on labels and cells *)

Module PyStr.

Definition code (c : ascii) : nat := nat_of_ascii c.

(** [str.isspace] on ASCII: TAB, LF, VT, FF, CR, FS, GS, RS, US, space. *)
Definition is_space (c : ascii) : bool :=
  let n := code c in
  ((9 <=? n) && (n <=? 13)) || ((28 <=? n) && (n <=? 32)).

Definition lower_char (c : ascii) : ascii :=
  let n := code c in
  if (65 <=? n) && (n <=? 90) then ascii_of_nat (n + 32) else c.

Fixpoint lstrip (l : list ascii) : list ascii :=
  match l with
  | c :: l' => if is_space c then lstrip l' else l
  | [] => []
  end.

Definition rstrip (l : list ascii) : list ascii := rev (lstrip (rev l)).

Definition strip_chars (l : list ascii) : list ascii := rstrip (lstrip l).

Definition replace_char (a b : ascii) (l : list ascii) : list ascii :=
  List.map (fun c => if Ascii.eqb c a then b else c) l.

Definition remove_char (a : ascii) (l : list ascii) : list ascii :=
  List.filter (fun c => negb (Ascii.eqb c a)) l.

Definition on_chars (f : list ascii -> list ascii) (s : string) : string :=
  string_of_list_ascii (f (list_ascii_of_string s)).

(** [s.strip()] *)
Definition strip : string -> string := on_chars strip_chars.
(** [s.lower()] *)
Definition lower : string -> string := on_chars (List.map lower_char).
(** [s.replace(" ", "_")] *)
Definition replace_space_underscore : string -> string :=
  on_chars (replace_char " "%char "_"%char).
(** [s.replace(",", "")] *)
Definition remove_commas : string -> string :=
  on_chars (remove_char ","%char).

(** Lowercasing followed by space-to-underscore, on one character, and
    the three passes of label normalization on a list of characters. *)
Definition norm_char (c : ascii) : ascii :=
  let c' := lower_char c in if Ascii.eqb c' " "%char then "_"%char else c'.

Definition norm_chars (l : list ascii) : list ascii :=
  List.map norm_char (strip_chars l).

(** The first character, if any, is not a space. *)
Definition starts_clean (l : list ascii) : Prop :=
  match l with [] => True | c :: _ => is_space c = false end.

End PyStr.

(** ** Series *)

(** A Python object held in an object column: a missing marker, a text,
    a finite number or an infinite float. *)
Inductive obj : Type :=
| ONa
| OStr (s : string)
| ONum (q : Q)
| OInf (negative : bool).

Inductive Series : Type :=
| SFloat (xs : list float)
| SObject (xs : list obj).

Module Ser.

Definition obj_of_float (x : float) : obj :=
  match x with NaN => ONa | Fin q => ONum q | Inf s => OInf s end.

(** The cells of a column as Python objects. *)
Definition cells (s : Series) : list obj :=
  match s with
  | SFloat xs => List.map obj_of_float xs
  | SObject xs => xs
  end.

Definition len (s : Series) : nat :=
  match s with
  | SFloat xs => length xs
  | SObject xs => length xs
  end.

Definition obj_isna (o : obj) : bool :=
  match o with ONa => true | _ => false end.

Definition obj_is_str (o : obj) : bool :=
  match o with OStr _ => true | _ => false end.

(** Equality of cells as used by hashing-based operations
    ([duplicated], [nunique], [mode]): missing markers are equal to each
    other, numbers are compared by value. *)
Definition obj_eqb (a b : obj) : bool :=
  match a, b with
  | ONa, ONa => true
  | OStr s, OStr t => String.eqb s t
  | ONum p, ONum q => Qeq_bool p q
  | OInf s, OInf t => Bool.eqb s t
  | _, _ => false
  end.

(** [s.isna()] and [s.notna()] *)
Definition isna (s : Series) : list bool := List.map obj_isna (cells s).
Definition notna (s : Series) : list bool := List.map negb (isna s).

(** Reductions of a boolean column. *)
Definition bsum (bs : list bool) : nat := length (List.filter id bs).
Definition bmean (bs : list bool) : float := Float.ratio (bsum bs) (length bs).
Definition ball (bs : list bool) : bool := forallb id bs.

(** [s.dtype == object] and [pd.api.types.is_numeric_dtype(s)] *)
Definition is_object_dtype (s : Series) : bool :=
  match s with SObject _ => true | SFloat _ => false end.
Definition is_numeric_dtype (s : Series) : bool :=
  match s with SFloat _ => true | SObject _ => false end.

(** [str(s.dtype)] *)
Definition dtype_name (s : Series) : string :=
  match s with SFloat _ => "float64" | SObject _ => "object" end.

(** Non-missing values of a float column. *)
Definition fdropna (xs : list float) : list float :=
  List.filter (fun x => negb (Float.isnan x)) xs.

(** [s.dropna()] *)
Definition dropna (os : list obj) : list obj :=
  List.filter (fun o => negb (obj_isna o)) os.

Section Sorting.
Context {A : Type} (leb : A -> A -> bool).

Fixpoint insert_sorted (x : A) (l : list A) : list A :=
  match l with
  | [] => [x]
  | y :: l' => if leb x y then x :: l else y :: insert_sorted x l'
  end.

Definition sort (l : list A) : list A := fold_right insert_sorted [] l.
End Sorting.

(** The column holds [-inf] ([negative = true]) or [+inf]. *)
Definition has_inf (negative : bool) (xs : list float) : bool :=
  existsb (fun x => match x with
                    | Inf s => Bool.eqb s negative
                    | _ => false
                    end) xs.

Section Reductions.

Context {fp : Arithmetic}.

(** [s.median()] with the default [skipna=True]: the middle of the sorted
    non-missing values, the float64 mean of the two middle ones for an
    even count, NaN when there is none. *)
Definition fmedian (xs : list float) : float :=
  let v := sort Float.le (fdropna xs) in
  let n := length v in
  if n =? 0 then NaN
  else if Nat.odd n then nth (n / 2) v NaN
  else Float.midpoint (nth (n / 2 - 1) v NaN) (nth (n / 2) v NaN).

(** [s.mean()] with [skipna=True]: NaN when there is no non-missing
    value, and when [-inf] and [+inf] both occur, since their sum is NaN
    in whatever order the cells are added. *)
Definition fmean (xs : list float) : float :=
  match fdropna xs with
  | [] => NaN
  | _ => if has_inf true xs && has_inf false xs then NaN
         else Float.mean_number xs
  end.

End Reductions.

(** [s.fillna(fill)]; filling with NaN changes nothing. *)
Definition ffillna (fill : float) (xs : list float) : list float :=
  List.map (fun x => if Float.isnan x then fill else x) xs.

Definition ofillna (fill : obj) (os : list obj) : list obj :=
  List.map (fun o => if obj_isna o then fill else o) os.

Definition count (x : obj) (l : list obj) : nat :=
  length (List.filter (obj_eqb x) l).

(** Distinct values in order of first appearance. *)
Fixpoint unique (l : list obj) : list obj :=
  match l with
  | [] => []
  | x :: l' => x :: List.filter (fun y => negb (obj_eqb x y)) (unique l')
  end.

(** [s.nunique(dropna=True)] *)
Definition nunique (s : Series) : nat := length (unique (dropna (cells s))).

Definition max_count (vals : list obj) : nat :=
  fold_right Nat.max 0 (List.map (fun v => count v vals) vals).

Definition obj_leb (a b : obj) : bool :=
  match a, b with
  | OStr s, OStr t => String.leb s t
  | ONum p, ONum q => Qle_bool p q
  | ONum _, OInf s => negb s
  | OInf s, ONum _ => s
  | OInf s, OInf t => s || negb t
  | _, _ => true
  end.

(** [s.mode()] with [dropna=True]: the most frequent non-missing values,
    in order of first appearance, then sorted when the values are
    mutually comparable (all text or all numbers). *)
Definition mode (os : list obj) : list obj :=
  let vals := dropna os in
  let m := max_count vals in
  let ms := List.filter (fun v => count v vals =? m) (unique vals) in
  if forallb obj_is_str ms || forallb (fun o => negb (obj_is_str o)) ms
  then sort obj_leb ms
  else ms.

End Ser.

(** ** DataFrames *)

(** Columns in order, each with its label.  In a table the columns have
    the same length and distinct labels. *)
Abbreviation DataFrame := (list (string * Series)).

Module DF.

Definition columns (df : DataFrame) : list string := List.map fst df.

Definition nrows (df : DataFrame) : nat :=
  match df with
  | [] => 0
  | (_, s) :: _ => Ser.len s
  end.

Definition occurrences (c : string) (df : DataFrame) : nat :=
  length (List.filter (String.eqb c) (columns df)).

Fixpoint lookup (c : string) (df : DataFrame) : option Series :=
  match df with
  | [] => None
  | (c', s) :: df' => if String.eqb c c' then Some s else lookup c df'
  end.

(** [df[c] = s]: replaces the data of column [c], or appends a new
    column when the label is absent. *)
Fixpoint set (c : string) (s : Series) (df : DataFrame) : DataFrame :=
  match df with
  | [] => [(c, s)]
  | (c', s') :: df' =>
      if String.eqb c c' then (c', s) :: df' else (c', s') :: set c s df'
  end.

Definition mem (c : string) (cs : list string) : bool :=
  existsb (String.eqb c) cs.

(** [df.drop(columns=cs)] *)
Definition drop (cs : list string) (df : DataFrame) : DataFrame :=
  List.filter (fun p => negb (mem (fst p) cs)) df.

(** [df.columns = names] *)
Definition rename (names : list string) (df : DataFrame) : DataFrame :=
  List.map (fun p => (fst p, snd (snd p))) (combine names df).

(** Row [i] as a list of cells. *)
Definition row (df : DataFrame) (i : nat) : list obj :=
  List.map (fun p => nth i (Ser.cells (snd p)) ONa) df.

Definition rows (df : DataFrame) : list (list obj) :=
  List.map (row df) (seq 0 (nrows df)).

Fixpoint row_eqb (r1 r2 : list obj) : bool :=
  match r1, r2 with
  | [], [] => true
  | a :: r1', b :: r2' => Ser.obj_eqb a b && row_eqb r1' r2'
  | _, _ => false
  end.

(** [df.duplicated()]: marks every row equal to an earlier one. *)
Fixpoint duplicated_from (seen rs : list (list obj)) : list bool :=
  match rs with
  | [] => []
  | r :: rs' => existsb (row_eqb r) seen :: duplicated_from (seen ++ [r]) rs'
  end.

Definition duplicated (df : DataFrame) : list bool :=
  duplicated_from [] (rows df).

(** Boolean indexing of a list. *)
Fixpoint select {A} (mask : list bool) (xs : list A) : list A :=
  match mask, xs with
  | b :: mask', x :: xs' => if b then x :: select mask' xs' else select mask' xs'
  | _, _ => []
  end.

Definition select_series (mask : list bool) (s : Series) : Series :=
  match s with
  | SFloat xs => SFloat (select mask xs)
  | SObject xs => SObject (select mask xs)
  end.

(** [df.drop_duplicates().reset_index(drop=True)]: keeps the first
    occurrence of every row; a frame without columns or rows is returned
    as it is. *)
Definition drop_duplicates (df : DataFrame) : DataFrame :=
  let keep := List.map negb (duplicated df) in
  List.map (fun p => (fst p, select_series keep (snd p))) df.

End DF.

(** ** Python values, exceptions and the object heap *)

(** Values stored in the per-column report dictionaries. *)
Inductive pyval : Type :=
| VInt (n : Z)
| VFloat (x : float)
| VStr (s : string)
| VBool (b : bool).

(** [Dict[str, float]], in insertion order. *)
Abbreviation rates := (list (string * float)).

Inductive exn : Type :=
| TooManyMissingError (cols_too_many : rates)
| ValueError (msg : string)
| AttributeError (msg : string)
| KeyError (key : string)
| IndexError (msg : string)
| TypeError (msg : string).

Inductive object : Type :=
| OSeries (s : Series)
| OFrame (df : DataFrame).

Abbreviation ref := nat.
Abbreviation heap := (list object).

Inductive result (A : Type) : Type :=
| Ok (a : A)
| Raise (e : exn).
Arguments Ok {A} a.
Arguments Raise {A} e.

(** Computations that read and update the heap and may raise. *)
Definition M (A : Type) : Type := heap -> result A * heap.

Definition ret {A} (a : A) : M A := fun h => (Ok a, h).

Definition raise {A} (e : exn) : M A := fun h => (Raise e, h).

Definition bind {A B} (m : M A) (k : A -> M B) : M B :=
  fun h =>
    match m h with
    | (Ok a, h') => k a h'
    | (Raise e, h') => (Raise e, h')
    end.

Declare Scope py_scope.
Delimit Scope py_scope with py.
Notation "x <- m ;; k" := (bind m (fun x => k))
  (at level 100, m at next level, right associativity) : py_scope.
Notation "m ;; k" := (bind m (fun _ => k))
  (at level 100, right associativity) : py_scope.
Local Open Scope py_scope.

(** [for x in l: acc = body x acc] *)
Fixpoint for_each {A S} (l : list A) (body : A -> S -> M S) (acc : S) : M S :=
  match l with
  | [] => ret acc
  | x :: l' => acc' <- body x acc ;; for_each l' body acc'
  end.

(** [[x for x in l if test x]] *)
Fixpoint filter_m {A} (test : A -> M bool) (l : list A) : M (list A) :=
  match l with
  | [] => ret []
  | x :: l' =>
      b <- test x ;;
      rest <- filter_m test l' ;;
      ret (if b then x :: rest else rest)
  end.

Module Heap.

Definition alloc (o : object) : M ref :=
  fun h => (Ok (length h), h ++ [o]).

Definition frame (r : ref) : M DataFrame :=
  fun h =>
    match h !! r with
    | Some (OFrame df) => (Ok df, h)
    | _ => (Raise (TypeError "DataFrame expected"), h)
    end.

Definition series (r : ref) : M Series :=
  fun h =>
    match h !! r with
    | Some (OSeries s) => (Ok s, h)
    | _ => (Raise (TypeError "Series expected"), h)
    end.

(** In-place update of the object at [r]. *)
Definition store (r : ref) (o : object) : M unit :=
  fun h => (Ok tt, <[r := o]> h).

End Heap.

(** ** pandas operations on heap objects *)

Module Pd.

(** [df.copy()] *)
Definition frame_copy (df : ref) : M ref :=
  d <- Heap.frame df ;; Heap.alloc (OFrame d).

(** [s.copy()] *)
Definition series_copy (s : ref) : M ref :=
  v <- Heap.series s ;; Heap.alloc (OSeries v).

(** [len(df)] *)
Definition len (df : ref) : M nat :=
  d <- Heap.frame df ;; ret (DF.nrows d).

(** [df.columns] *)
Definition columns (df : ref) : M (list string) :=
  d <- Heap.frame df ;; ret (DF.columns d).

(** [df.columns = names] *)
Definition set_columns (df : ref) (names : list string) : M unit :=
  d <- Heap.frame df ;;
  if length names =? length d
  then Heap.store df (OFrame (DF.rename names d))
  else raise (ValueError "Length mismatch").

(** [df[c]] as a new Series object.  With a duplicated label pandas
    yields a sub-frame instead; every use made of it in [clean.py] (the
    truth test of [df[c].isna().all()] and of [p > threshold]) then fails
    with ValueError before the frame is updated, and the model raises
    that error at the access. *)
Definition getitem (df : ref) (c : string) : M ref :=
  d <- Heap.frame df ;;
  match DF.lookup c d with
  | None => raise (KeyError c)
  | Some s =>
      if DF.occurrences c d =? 1
      then Heap.alloc (OSeries s)
      else raise (ValueError "The truth value of a Series is ambiguous")
  end.

(** [df[c] = s] *)
Definition setitem (df : ref) (c : string) (s : ref) : M unit :=
  d <- Heap.frame df ;;
  v <- Heap.series s ;;
  Heap.store df (OFrame (DF.set c v d)).

(** [df.drop(columns=cs, inplace=True)] *)
Definition drop (df : ref) (cs : list string) : M unit :=
  d <- Heap.frame df ;;
  match List.find (fun c => negb (DF.mem c (DF.columns d))) cs with
  | Some c => raise (KeyError c)
  | None => Heap.store df (OFrame (DF.drop cs d))
  end.

(** [df.drop_duplicates().reset_index(drop=True)] *)
Definition drop_duplicates (df : ref) : M ref :=
  d <- Heap.frame df ;; Heap.alloc (OFrame (DF.drop_duplicates d)).

(** [df[c]] inside an expression, read through [f] without binding
    the column to a name. *)
Definition col_query {A} (df : ref) (c : string) (f : Series -> A) : M A :=
  d <- Heap.frame df ;;
  match DF.lookup c d with
  | None => raise (KeyError c)
  | Some s =>
      if DF.occurrences c d =? 1
      then ret (f s)
      else raise (ValueError "The truth value of a Series is ambiguous")
  end.

(** A method call [f(s)] on a Series that is read, not updated. *)
Definition query {A} (f : Series -> A) (s : ref) : M A :=
  v <- Heap.series s ;; ret (f v).

End Pd.

(** ** The functions of [clean.py] *)

Abbreviation info := (gmap string pyval).
Abbreviation report := (gmap string (gmap string pyval)).

Module clean.

Section Functions.

(** Number syntax of [pd.to_numeric] on one stripped string (NaN when it
    does not parse, as [errors="coerce"] has it), the text of a finite
    number under [str], and the float64 arithmetic. *)
Variable parse_number : string -> float.
Variable repr_number : Q -> string.
Context {fp : Arithmetic}.

(** [str(c).strip().lower().replace(" ", "_")] *)
Definition normalize_label (c : string) : string :=
  PyStr.replace_space_underscore (PyStr.lower (PyStr.strip c)).

(** The [.str] accessor exists on an object column that holds text,
    possibly mixed with other objects, or only missing values; it raises
    AttributeError otherwise. *)
Definition str_accessor_ok (os : list obj) : bool :=
  existsb Ser.obj_is_str os || forallb Ser.obj_isna os.

(** [.str.replace(",", "").str.strip()] on one cell: a cell that is not
    text becomes missing. *)
Definition str_clean (o : obj) : obj :=
  match o with
  | OStr s => OStr (PyStr.strip (PyStr.remove_commas s))
  | _ => ONa
  end.

(** [pd.to_numeric(..., errors="coerce")] on one cell. *)
Definition to_numeric_coerce (o : obj) : float :=
  match o with
  | OStr s => parse_number s
  | ONum q => Fin q
  | OInf s => Inf s
  | ONa => NaN
  end.

(** [pd.to_numeric(df[col].str.replace(",", "").str.strip(),
    errors="coerce")] as a new Series. *)
Definition convert (df : ref) (col : string) : M ref :=
  v <- Pd.col_query df col id ;;
  if str_accessor_ok (Ser.cells v)
  then Heap.alloc
         (OSeries (SFloat (List.map (fun o => to_numeric_coerce (str_clean o))
                                    (Ser.cells v))))
  else raise (AttributeError "Can only use .str accessor with string values").

Definition is_nil {A} (l : list A) : bool :=
  match l with [] => true | _ => false end.

Definition initial_cleaning (df : ref) : M ref :=
  df <- Pd.frame_copy df ;;
  cols <- Pd.columns df ;;
  Pd.set_columns df (List.map normalize_label cols) ;;
  cols <- Pd.columns df ;;
  cols_all_na <-
    filter_m (fun c => Pd.col_query df c (fun s => Ser.ball (Ser.isna s))) cols ;;
  (if negb (is_nil cols_all_na) then Pd.drop df cols_all_na else ret tt) ;;
  cols <- Pd.columns df ;;
  for_each cols (fun col _ =>
    is_object <- Pd.col_query df col Ser.is_object_dtype ;;
    if is_object : bool then
      converted <- convert df col ;;
      non_na_ratio <- Pd.query (fun s => Ser.bmean (Ser.notna s)) converted ;;
      if Float.ge non_na_ratio Float.half
      then Pd.setitem df col converted
      else ret tt
    else ret tt) tt ;;
  df <- Pd.drop_duplicates df ;;
  ret df.

Definition compute_missing_rates (df : ref) : M rates :=
  cols <- Pd.columns df ;;
  for_each cols (fun col acc =>
    p <- Pd.col_query df col (fun s => Ser.bmean (Ser.isna s)) ;;
    ret (acc ++ [(col, p)])) [].

(** [str(fill)] *)
Definition str_of_obj (o : obj) : string :=
  match o with
  | OStr s => s
  | ONum q => repr_number q
  | OInf s => if s then "-inf" else "inf"
  | ONa => "nan"
  end.

(** [.astype(str)] *)
Definition astype_str (os : list obj) : list obj :=
  List.map (fun o => OStr (str_of_obj o)) os.

Definition n_missing (s : Series) : pyval :=
  VInt (Z.of_nat (Ser.bsum (Ser.isna s))).

Definition impute_column (series : ref) (strategy : string) : M (ref * info) :=
  v0 <- Heap.series series ;;
  let info : info :=
    <["n_missing_before" := n_missing v0]>
      (<["strategy" := VStr strategy]>
         (<["dtype" := VStr (Ser.dtype_name v0)]> ∅)) in
  s <- Pd.series_copy series ;;
  v <- Heap.series s ;;
  match v with
  | SFloat xs =>
      fill <-
        (if String.eqb strategy "median" then ret (Ser.fmedian xs)
         else if String.eqb strategy "mean" then ret (Ser.fmean xs)
         else if String.eqb strategy "constant" then ret (Fin 0)
         else raise (ValueError ("Unknown numeric strategy: " +:+ strategy))) ;;
      s <- Heap.alloc (OSeries (SFloat (Ser.ffillna fill xs))) ;;
      after <- Pd.query n_missing s ;;
      ret (s, <["n_missing_after" := after]> (<["fill_value" := VFloat fill]> info))
  | SObject os =>
      fill <-
        (if String.eqb strategy "mode" then
           if is_nil (Ser.dropna os) then ret (OStr "missing")
           else match Ser.mode os with
                | m :: _ => ret m
                | [] => raise (IndexError "single positional indexer is out-of-bounds")
                end
         else if String.eqb strategy "constant" then ret (OStr "missing")
         else raise (ValueError ("Unknown categorical strategy: " +:+ strategy))) ;;
      s <- Heap.alloc (OSeries (SObject (astype_str (Ser.ofillna fill os)))) ;;
      after <- Pd.query n_missing s ;;
      ret (s, <["n_missing_after" := after]>
                (<["fill_value" := VStr (str_of_obj fill)]> info))
  end.

Definition no_missing_info : info :=
  <["strategy" := VStr "none"]>
    (<["n_missing_after" := VInt 0]> (<["n_missing_before" := VInt 0]> ∅)).

Definition handle_missing_values
    (df : ref) (threshold : float)
    (numeric_strategy categorical_strategy : string)
    (allow_drop_constant : bool) : M (ref * report) :=
  df <- Pd.frame_copy df ;;
  n_rows <- Pd.len df ;;
  missing_rates <- compute_missing_rates df ;;
  let cols_exceed :=
    List.filter (fun cp => Float.gt (snd cp) threshold) missing_rates in
  if negb (is_nil cols_exceed) then raise (TooManyMissingError cols_exceed)
  else
    imputation_info <-
      for_each missing_rates (fun cp (imputation_info : report) =>
        let col := fst cp in
        let rate := snd cp in
        if Float.eqb rate Float.zero then
          ret (<[col := no_missing_info]> imputation_info)
        else if Float.le rate threshold then
          series <- Pd.getitem df col ;;
          numeric <- Pd.query Ser.is_numeric_dtype series ;;
          r <- (if numeric : bool
                then impute_column series numeric_strategy
                else impute_column series categorical_strategy) ;;
          Pd.setitem df col (fst r) ;;
          ret (<[col := snd r]> imputation_info)
        else
          before <- Pd.col_query df col n_missing ;;
          ret (<[col := <["note" := VStr "exceeds_threshold"]>
                          (<["n_missing_before" := before]> ∅)]> imputation_info))
        ∅ ;;
    imputation_info <-
      (if allow_drop_constant then
         cols <- Pd.columns df ;;
         constant_cols <-
           filter_m (fun c => Pd.col_query df c (fun s => Ser.nunique s <=? 1)) cols ;;
         for_each constant_cols (fun c (imputation_info : report) =>
           Pd.drop df [c] ;;
           let entry := default ∅ (imputation_info !! c) in
           ret (<[c := <["dropped_constant" := VBool true]> entry]> imputation_info))
           imputation_info
       else ret imputation_info) ;;
    ret (df, imputation_info).

End Functions.

End clean.

(** ** Instances of the number syntax used to run the functions *)

Module Syntax.

Definition is_digit (c : ascii) : bool :=
  let n := nat_of_ascii c in (48 <=? n) && (n <=? 57).

Fixpoint digits_value (acc : Z) (l : list ascii) : option Z :=
  match l with
  | [] => Some acc
  | c :: l' =>
      if is_digit c
      then digits_value (10 * acc + Z.of_nat (nat_of_ascii c - 48))%Z l'
      else None
  end.

Definition integer_literal (s : string) : option Z :=
  match list_ascii_of_string s with
  | [] => None
  | c :: l =>
      if Ascii.eqb c "-"%char
      then match l with
           | [] => None
           | _ => option_map Z.opp (digits_value 0 l)
           end
      else digits_value 0 (c :: l)
  end.

(** Decimal integer literals, a fragment of what [pd.to_numeric]
    accepts. *)
Definition parse_integer (s : string) : float :=
  match integer_literal s with
  | Some z => Fin (inject_Z z)
  | None => NaN
  end.

(** Numerator and denominator in decimal. *)
Definition repr_fraction (q : Q) : string :=
  if (Qden q =? 1)%positive then pretty.pretty (Qnum q)
  else pretty.pretty (Qnum q) +:+ "/" +:+ pretty.pretty (Zpos (Qden q)).

Definition qsum (l : list Q) : Q := fold_right Qplus 0%Q l.

Fixpoint finite_values (xs : list float) : list Q :=
  match xs with
  | [] => []
  | Fin q :: xs' => q :: finite_values xs'
  | _ :: xs' => finite_values xs'
  end.

(** The mean without rounding of a column that has a value and not
    both infinities: the infinity that occurs, if one does. *)
Definition exact_mean (xs : list float) : float :=
  if Ser.has_inf true xs then Inf true
  else if Ser.has_inf false xs then Inf false
  else let v := finite_values xs in
       Fin (Qred (qsum v / inject_Z (Z.of_nat (length v)))).

(** Arithmetic without rounding or overflow: what float64 computes as
    long as every intermediate result is a float64, as it is with the
    small integers of the examples. *)
Definition exact_arithmetic : Arithmetic :=
  {| Float.round_number := fun q => Some (Qred q);
     Float.mean_number := exact_mean |}.

End Syntax.


(** ** Value-level summaries of the functions

    What each function computes, as a function of the values held by the
    objects it is given.  The lemmas below relate the heap computations to
    these summaries. *)

(** The rate of one column: [s.isna().mean()]. *)
Definition missing_rate (s : Series) : float := Ser.bmean (Ser.isna s).

Definition rates_of (df : DataFrame) : rates :=
  List.map (fun cs => (fst cs, missing_rate (snd cs))) df.

Section Summaries.

Variable repr_number : Q -> string.
Context {fp : Arithmetic}.

Definition base_info (v : Series) (strategy : string) : info :=
  <["n_missing_before" := clean.n_missing v]>
    (<["strategy" := VStr strategy]>
       (<["dtype" := VStr (Ser.dtype_name v)]> ∅)).

Definition numeric_fill (strategy : string) (xs : list float) : result float :=
  if String.eqb strategy "median" then Ok (Ser.fmedian xs)
  else if String.eqb strategy "mean" then Ok (Ser.fmean xs)
  else if String.eqb strategy "constant" then Ok (Fin 0)
  else Raise (ValueError ("Unknown numeric strategy: " +:+ strategy)).

Definition categorical_fill (strategy : string) (os : list obj) : result obj :=
  if String.eqb strategy "mode" then
    if clean.is_nil (Ser.dropna os) then Ok (OStr "missing")
    else match Ser.mode os with
         | m :: _ => Ok m
         | [] => Raise (IndexError "single positional indexer is out-of-bounds")
         end
  else if String.eqb strategy "constant" then Ok (OStr "missing")
  else Raise (ValueError ("Unknown categorical strategy: " +:+ strategy)).

Definition impute_value (v : Series) (strategy : string) : result (Series * info) :=
  match v with
  | SFloat xs =>
      match numeric_fill strategy xs with
      | Ok fill =>
          let v' := SFloat (Ser.ffillna fill xs) in
          Ok (v', <["n_missing_after" := clean.n_missing v']>
                    (<["fill_value" := VFloat fill]> (base_info v strategy)))
      | Raise e => Raise e
      end
  | SObject os =>
      match categorical_fill strategy os with
      | Ok fill =>
          let v' := SObject (clean.astype_str repr_number (Ser.ofillna fill os)) in
          Ok (v', <["n_missing_after" := clean.n_missing v']>
                    (<["fill_value" := VStr (clean.str_of_obj repr_number fill)]>
                       (base_info v strategy)))
      | Raise e => Raise e
      end
  end.

Section Gate.

Variable threshold : float.
Variables numeric_strategy categorical_strategy : string.

Definition note_info (s : Series) : info :=
  <["note" := VStr "exceeds_threshold"]>
    (<["n_missing_before" := clean.n_missing s]> ∅).

(** What one iteration does to a column and what it records. *)
Definition column_step (s : Series) : result (Series * info) :=
  let rate := missing_rate s in
  if Float.eqb rate Float.zero then Ok (s, clean.no_missing_info)
  else if Float.le rate threshold then
    impute_value s
      (if Ser.is_numeric_dtype s then numeric_strategy else categorical_strategy)
  else Ok (s, note_info s).

Fixpoint impute_loop (todo : DataFrame) (acc : report)
  : result (DataFrame * report) :=
  match todo with
  | [] => Ok ([], acc)
  | (c, s) :: todo' =>
      match column_step s with
      | Raise e => Raise e
      | Ok (s', i) =>
          match impute_loop todo' (<[c := i]> acc) with
          | Raise e => Raise e
          | Ok (done, rep) => Ok ((c, s') :: done, rep)
          end
      end
  end.

(** The body of the loop over [missing_rates.items()], for the working
    frame [d]. *)
Definition gate_body (d : ref) (cp : string * float) (imputation_info : report)
  : M report :=
  let col := fst cp in
  let rate := snd cp in
  if Float.eqb rate Float.zero then
    ret (<[col := clean.no_missing_info]> imputation_info)
  else if Float.le rate threshold then
    series <- Pd.getitem d col ;;
    numeric <- Pd.query Ser.is_numeric_dtype series ;;
    r <- (if numeric : bool
          then clean.impute_column repr_number series numeric_strategy
          else clean.impute_column repr_number series categorical_strategy) ;;
    Pd.setitem d col (fst r) ;;
    ret (<[col := snd r]> imputation_info)
  else
    before <- Pd.col_query d col clean.n_missing ;;
    ret (<[col := <["note" := VStr "exceeds_threshold"]>
                    (<["n_missing_before" := before]> ∅)]> imputation_info).

End Gate.

End Summaries.

Definition is_constant (s : Series) : bool := Ser.nunique s <=? 1.

Definition constant_cols (df : DataFrame) : list string :=
  DF.columns (List.filter (fun cs => is_constant (snd cs)) df).

(** [imputation_info[c] = imputation_info.get(c, {})] followed by
    [imputation_info[c].update({"dropped_constant": True})]. *)
Definition mark_dropped (rep : report) (c : string) : report :=
  <[c := <["dropped_constant" := VBool true]> (default ∅ (rep !! c))]> rep.

Definition prune_body (d : ref) (c : string) (imputation_info : report) : M report :=
  Pd.drop d [c] ;;
  let entry := default ∅ (imputation_info !! c) in
  ret (<[c := <["dropped_constant" := VBool true]> entry]> imputation_info).

Definition exceeding (threshold : float) (df : DataFrame) : rates :=
  List.filter (fun cp => Float.gt (snd cp) threshold) (rates_of df).

Definition prune (allow_drop_constant : bool) (p : DataFrame * report)
  : DataFrame * report :=
  if allow_drop_constant
  then (DF.drop (constant_cols (fst p)) (fst p),
        fold_left mark_dropped (constant_cols (fst p)) (snd p))
  else p.

(** The strategy names [impute_column] accepts for a column of each type. *)
Definition recognized (v : Series) (strategy : string) : Prop :=
  match v with
  | SFloat _ => strategy = "median" \/ strategy = "mean" \/ strategy = "constant"
  | SObject _ => strategy = "mode" \/ strategy = "constant"
  end.

(** [m] is a median of the sample [l]: at least half of the values are at
    most [m] and at least half are at least [m]. *)
Definition is_median (m : float) (l : list float) : Prop :=
  length l <= 2 * length (List.filter (fun x => Float.le x m) l) /\
  length l <= 2 * length (List.filter (fun x => Float.le m x) l).


(** *** [initial_cleaning] *)

Section Cleaning.

Variable parse_number : string -> float.

(** The cells [pd.to_numeric] yields for an object column. *)
Definition to_numeric_cells (os : list obj) : list float :=
  List.map (fun o => clean.to_numeric_coerce parse_number (clean.str_clean o)) os.

(** [converted.notna().mean()] *)
Definition numeric_ratio (os : list obj) : float :=
  Ser.bmean (Ser.notna (SFloat (to_numeric_cells os))).

Definition all_na (s : Series) : bool := Ser.ball (Ser.isna s).

Definition relabel (df : DataFrame) : DataFrame :=
  List.map (fun cs => (clean.normalize_label (fst cs), snd cs)) df.

Definition unique_labels (df : DataFrame) : bool :=
  forallb (fun c => DF.occurrences c df =? 1) (DF.columns df).

Definition drop_all_na (df : DataFrame) : DataFrame :=
  List.filter (fun cs => negb (all_na (snd cs))) df.

(** One iteration of the coercion loop. *)
Definition coerce_column (s : Series) : result Series :=
  match s with
  | SFloat _ => Ok s
  | SObject os =>
      if clean.str_accessor_ok os then
        if Float.ge (numeric_ratio os) Float.half
        then Ok (SFloat (to_numeric_cells os))
        else Ok s
      else Raise (AttributeError "Can only use .str accessor with string values")
  end.

Fixpoint coerce_columns (df : DataFrame) : result DataFrame :=
  match df with
  | [] => Ok []
  | (c, s) :: df' =>
      match coerce_column s with
      | Raise e => Raise e
      | Ok s' =>
          match coerce_columns df' with
          | Raise e => Raise e
          | Ok d => Ok ((c, s') :: d)
          end
      end
  end.

Definition cleaned (df : DataFrame) : result DataFrame :=
  let d1 := relabel df in
  if unique_labels d1 then
    match coerce_columns (drop_all_na d1) with
    | Ok d3 => Ok (DF.drop_duplicates d3)
    | Raise e => Raise e
    end
  else Raise (ValueError "The truth value of a Series is ambiguous").

(** The body of the coercion loop, for the working frame [d]. *)
Definition coerce_body (d : ref) (col : string) (_ : unit) : M unit :=
  is_object <- Pd.col_query d col Ser.is_object_dtype ;;
  if is_object : bool then
    converted <- clean.convert parse_number d col ;;
    non_na_ratio <- Pd.query (fun s => Ser.bmean (Ser.notna s)) converted ;;
    if Float.ge non_na_ratio Float.half
    then Pd.setitem d col converted
    else ret tt
  else ret tt.

(** Running [initial_cleaning] again on its own result returns an equal
    table. *)
Definition idempotent_at (h : heap) (r : ref) : Prop :=
  forall r1 h1 t1,
    clean.initial_cleaning parse_number r h = (Ok r1, h1) ->
    h1 !! r1 = Some (OFrame t1) ->
    exists r2 h2,
      clean.initial_cleaning parse_number r1 h1 = (Ok r2, h2) /\
      h2 !! r2 = Some (OFrame t1).

End Cleaning.

(** Every column has [n] cells. *)
Definition height (n : nat) (df : DataFrame) : Prop :=
  Forall (fun cs => Ser.len (snd cs) = n) df.

(** Rows of a table given by the cells of its columns, and the rows that
    [drop_duplicates] keeps. *)
Definition cells_of (df : DataFrame) : list (list obj) :=
  List.map (fun p => Ser.cells (snd p)) df.

Definition rows_of (n : nat) (cols : list (list obj)) : list (list obj) :=
  List.map (fun i => List.map (fun c => nth i c ONa) cols) (seq 0 n).

Fixpoint dedup_from (seen rs : list (list obj)) : list (list obj) :=
  match rs with
  | [] => []
  | r :: rs' =>
      if existsb (DF.row_eqb r) seen
      then dedup_from (seen ++ [r]) rs'
      else r :: dedup_from (seen ++ [r]) rs'
  end.

(** ** Relations between a column and its imputed version *)

(** The cell [o'] stands where [o] stood: a value is kept, a number of an
    object column possibly as its text; a missing cell may have become
    anything. *)
Definition cell_kept (repr_number : Q -> string) (o o' : obj) : Prop :=
  match o with
  | OStr t => o' = OStr t
  | ONum q => o' = ONum q \/ o' = OStr (repr_number q)
  | OInf s => o' = OInf s \/ o' = OStr (if s then "-inf" else "inf")
  | ONa => True
  end.

(** [s'] has the type and the length of [s], and its values wherever [s]
    has one. *)
Definition observed_kept (repr_number : Q -> string) (s s' : Series) : Prop :=
  match s, s' with
  | SFloat xs, SFloat xs' =>
      Forall2 (fun x x' => Float.isnan x = false -> x' = x) xs xs'
  | SObject os, SObject os' => Forall2 (cell_kept repr_number) os os'
  | _, _ => False
  end.

(** ** Tables and columns used as examples *)

Module Examples.

(** One missing cell out of five: rate 0.2. *)
Definition sparse_table : DataFrame :=
  [("a", SFloat [Fin 1; NaN; Fin 3; Fin 4; Fin 5])].

(** The column [1, NaN, 3, NaN, 5]: rate 0.4, median 3. *)
Definition median_column : list float := [Fin 1; NaN; Fin 3; NaN; Fin 5].

Definition median_table : DataFrame := [("a", SFloat median_column)].

(** The column ["x", "x", None]. *)
Definition mode_column : list obj := [OStr "x"; OStr "x"; ONa].

(** A column to impute next to a constant column. *)
Definition constant_table : DataFrame :=
  [("a", SFloat median_column);
   ("b", SObject [OStr "x"; OStr "x"; OStr "x"; OStr "x"; OStr "x"])].

(** Rows [1, "a"], [1, "a"], [2, "b"]. *)
Definition duplicate_rows : DataFrame :=
  [("0", SFloat [Fin 1; Fin 1; Fin 2]);
   ("1", SObject [OStr "a"; OStr "a"; OStr "b"])].

(** A text column of which one third parses as a number, and one half
    once the duplicate row is gone. *)
Definition mostly_text : DataFrame :=
  [("c", SObject [OStr "a"; OStr "a"; OStr "1"])].

(** Two columns and no row. *)
Definition no_rows : DataFrame := [("a", SFloat []); ("b", SObject [])].

(** Two labels that differ only by case and surrounding blanks. *)
Definition colliding_labels : DataFrame :=
  [("Price", SFloat [Fin 1]); (" price ", SFloat [Fin 2])].


(** Fifteen rows, one of them without its number: rate 1/15, below the
    threshold 0.07 of the driver. *)
Definition fifteen_rows : DataFrame :=
  [("n", SFloat [Fin 1; Fin 2; Fin 3; Fin 4; Fin 5; Fin 6; Fin 7; NaN;
                 Fin 9; Fin 10; Fin 11; Fin 12; Fin 13; Fin 14; Fin 15]);
   ("t", SObject [OStr "a"; OStr "b"; OStr "c"; OStr "d"; OStr "e";
                  OStr "f"; OStr "g"; OStr "h"; OStr "i"; OStr "j";
                  OStr "k"; OStr "l"; OStr "m"; OStr "n"; OStr "o"])].

(** The same table with 8, the midpoint of 7 and 9, in place of the
    missing number. *)
Definition fifteen_filled : DataFrame :=
  [("n", SFloat [Fin 1; Fin 2; Fin 3; Fin 4; Fin 5; Fin 6; Fin 7; Fin 8;
                 Fin 9; Fin 10; Fin 11; Fin 12; Fin 13; Fin 14; Fin 15]);
   ("t", SObject [OStr "a"; OStr "b"; OStr "c"; OStr "d"; OStr "e";
                  OStr "f"; OStr "g"; OStr "h"; OStr "i"; OStr "j";
                  OStr "k"; OStr "l"; OStr "m"; OStr "n"; OStr "o"])].

End Examples.

(** The labels of a concrete table are distinct. *)
Ltac distinct_labels := apply (bool_decide_unpack _); vm_compute; reflexivity.

(** ** Running computations *)

Section Run.

Context {A B : Type}.

Lemma bind_ok (m : M A) (k : A -> M B) h a h' :
  m h = (Ok a, h') -> bind m k h = k a h'.
Proof. intros E. unfold bind. now rewrite E. Qed.

Lemma bind_raise (m : M A) (k : A -> M B) h e h' :
  m h = (Raise e, h') -> bind m k h = (Raise e, h').
Proof. intros E. unfold bind. now rewrite E. Qed.

Lemma bind_ret (a : A) (k : A -> M B) h : bind (ret a) k h = k a h.
Proof. reflexivity. Qed.

End Run.

Lemma frame_at h r df :
  h !! r = Some (OFrame df) -> Heap.frame r h = (Ok df, h).
Proof. intros E. unfold Heap.frame. now rewrite E. Qed.

Lemma series_at h r v :
  h !! r = Some (OSeries v) -> Heap.series r h = (Ok v, h).
Proof. intros E. unfold Heap.series. now rewrite E. Qed.

(** The working frame sits right after the caller's heap [h]; objects
    allocated later follow it. *)
Lemma lookup_work (h g : heap) (o : object) :
  (h ++ o :: g) !! length h = Some o.
Proof. now rewrite list_lookup_middle. Qed.

Lemma store_work (h g : heap) (o o' : object) :
  Heap.store (length h) o' (h ++ o :: g) = (Ok tt, h ++ o' :: g).
Proof.
  unfold Heap.store. f_equal.
  rewrite insert_app_r_alt by lia.
  now rewrite Nat.sub_diag.
Qed.

Lemma alloc_work (h g : heap) (o x : object) :
  Heap.alloc x (h ++ o :: g) = (Ok (length (h ++ o :: g)), h ++ o :: (g ++ [x])).
Proof. unfold Heap.alloc. now rewrite <- app_assoc. Qed.

Lemma lookup_fresh (h : heap) (x : object) : (h ++ [x]) !! length h = Some x.
Proof. apply lookup_work. Qed.

(** ** Labels and lookups in frames with distinct labels *)

Lemma occurrences_notin c (df : DataFrame) :
  c ∉ DF.columns df -> DF.occurrences c df = 0.
Proof.
  unfold DF.occurrences. induction df as [|[c' s] df IH]; simpl; intros Hn; [done|].
  apply not_elem_of_cons in Hn as [Hne Hn].
  destruct (String.eqb_spec c c'); [done|]. now apply IH.
Qed.

Lemma lookup_notin c (df : DataFrame) :
  c ∉ DF.columns df -> DF.lookup c df = None.
Proof.
  induction df as [|[c' s] df IH]; simpl; intros Hn; [done|].
  apply not_elem_of_cons in Hn as [Hne Hn].
  destruct (String.eqb_spec c c'); [done|]. now apply IH.
Qed.

Lemma lookup_middle c s (pre post : DataFrame) :
  c ∉ DF.columns pre -> DF.lookup c (pre ++ (c, s) :: post) = Some s.
Proof.
  induction pre as [|[c' s'] pre IH]; simpl; intros Hn.
  - now rewrite String.eqb_refl.
  - apply not_elem_of_cons in Hn as [Hne Hn].
    destruct (String.eqb_spec c c'); [done|]. now apply IH.
Qed.

Lemma occurrences_app c (a b : DataFrame) :
  DF.occurrences c (a ++ b) = DF.occurrences c a + DF.occurrences c b.
Proof.
  unfold DF.occurrences, DF.columns.
  now rewrite List.map_app, List.filter_app, List.length_app.
Qed.

Lemma occurrences_middle c s (pre post : DataFrame) :
  c ∉ DF.columns pre -> c ∉ DF.columns post ->
  DF.occurrences c (pre ++ (c, s) :: post) = 1.
Proof.
  intros Hpre Hpost.
  rewrite occurrences_app, (occurrences_notin c pre Hpre).
  change ((c, s) :: post) with ([(c, s)] ++ post).
  rewrite occurrences_app, (occurrences_notin c post Hpost).
  unfold DF.occurrences. simpl. now rewrite String.eqb_refl.
Qed.

Lemma set_middle c s s' (pre post : DataFrame) :
  c ∉ DF.columns pre ->
  DF.set c s' (pre ++ (c, s) :: post) = pre ++ (c, s') :: post.
Proof.
  induction pre as [|[c' t] pre IH]; simpl; intros Hn.
  - now rewrite String.eqb_refl.
  - apply not_elem_of_cons in Hn as [Hne Hn].
    destruct (String.eqb_spec c c'); [done|]. now rewrite IH.
Qed.

Lemma columns_app (a b : DataFrame) :
  DF.columns (a ++ b) = DF.columns a ++ DF.columns b.
Proof. unfold DF.columns. apply map_app. Qed.

Lemma NoDup_middle c s (pre post : DataFrame) :
  NoDup (DF.columns (pre ++ (c, s) :: post)) ->
  (c ∉ DF.columns pre) /\ (c ∉ DF.columns post).
Proof.
  rewrite columns_app. simpl. intros H.
  apply NoDup_app in H as (_ & Hdisj & Hpost).
  apply NoDup_cons in Hpost as [Hc _].
  split; [|done]. intros Hin. apply (Hdisj c Hin). now left.
Qed.

(** Reading a column of the working frame inside an expression. *)
Lemma col_query_work {A} (f : Series -> A) h g c s (pre post : DataFrame) :
  NoDup (DF.columns (pre ++ (c, s) :: post)) ->
  Pd.col_query (length h) c f (h ++ OFrame (pre ++ (c, s) :: post) :: g)
  = (Ok (f s), h ++ OFrame (pre ++ (c, s) :: post) :: g).
Proof.
  intros Hnd. destruct (NoDup_middle _ _ _ _ Hnd) as [Hpre Hpost].
  unfold Pd.col_query.
  rewrite (bind_ok _ _ _ _ _ (frame_at _ _ _ (lookup_work h g _))).
  rewrite lookup_middle by done.
  now rewrite occurrences_middle by done.
Qed.

Lemma col_query_at {A} (f : Series -> A) (h : heap) r c s (pre post : DataFrame) :
  h !! r = Some (OFrame (pre ++ (c, s) :: post)) ->
  NoDup (DF.columns (pre ++ (c, s) :: post)) ->
  Pd.col_query r c f h = (Ok (f s), h).
Proof.
  intros Hr Hnd. destruct (NoDup_middle _ _ _ _ Hnd) as [Hpre Hpost].
  unfold Pd.col_query.
  rewrite (bind_ok _ _ _ _ _ (frame_at _ _ _ Hr)).
  rewrite lookup_middle by done.
  now rewrite occurrences_middle by done.
Qed.

(** ** Missing rates *)


Lemma compute_missing_rates_loop (h : heap) r (pre todo : DataFrame) (acc : rates) :
  h !! r = Some (OFrame (pre ++ todo)) ->
  NoDup (DF.columns (pre ++ todo)) ->
  for_each (DF.columns todo)
    (fun col acc =>
       bind (Pd.col_query r col (fun s => Ser.bmean (Ser.isna s)))
            (fun p => ret (acc ++ [(col, p)]))) acc h
  = (Ok (acc ++ rates_of todo), h).
Proof.
  revert pre acc. induction todo as [|[c s] todo IH]; intros pre acc Hr Hnd; simpl.
  - now rewrite app_nil_r.
  - rewrite (bind_ok _ _ _ _ _
       (bind_ok _ _ _ _ _ (col_query_at _ h r c s pre todo Hr Hnd))).
    unfold ret at 1.
    replace (pre ++ (c, s) :: todo) with ((pre ++ [(c, s)]) ++ todo) in Hr, Hnd
      by now rewrite <- app_assoc.
    rewrite (IH _ _ Hr Hnd). now rewrite <- app_assoc.
Qed.

(** [compute_missing_rates] reads the frame and leaves the heap as it is. *)
Lemma compute_missing_rates_run (h : heap) r (df : DataFrame) :
  h !! r = Some (OFrame df) ->
  NoDup (DF.columns df) ->
  clean.compute_missing_rates r h = (Ok (rates_of df), h).
Proof.
  intros Hr Hnd. unfold clean.compute_missing_rates, Pd.columns.
  rewrite (bind_ok _ _ _ _ _ (bind_ok _ _ _ _ _ (frame_at _ _ _ Hr))).
  unfold ret at 1.
  apply (compute_missing_rates_loop h r [] df []); done.
Qed.

(** ** One column: [impute_column] as a function of the column's value *)

Section ImputeColumn.

Variable repr_number : Q -> string.
Context {fp : Arithmetic}.

Local Abbreviation impute_value := (impute_value repr_number).

(** [impute_column] copies its argument, allocates the filled column and
    updates no existing object. *)
Lemma impute_column_run (h : heap) r v strategy :
  h !! r = Some (OSeries v) ->
  clean.impute_column repr_number r strategy h =
  match impute_value v strategy with
  | Ok (v', i) => (Ok (S (length h), i), h ++ [OSeries v; OSeries v'])
  | Raise e => (Raise e, h ++ [OSeries v])
  end.
Proof.
  intros Hr. unfold clean.impute_column.
  rewrite (bind_ok _ _ _ _ _ (series_at _ _ _ Hr)).
  assert (Hcopy : Pd.series_copy r h = (Ok (length h), h ++ [OSeries v])).
  { unfold Pd.series_copy. now rewrite (bind_ok _ _ _ _ _ (series_at _ _ _ Hr)). }
  rewrite (bind_ok _ _ _ _ _ Hcopy).
  rewrite (bind_ok _ _ _ _ _ (series_at _ _ _ (lookup_fresh h _))).
  assert (Hq : forall w, Pd.query clean.n_missing (S (length h))
                 (h ++ [OSeries v; OSeries w])
               = (Ok (clean.n_missing w), h ++ [OSeries v; OSeries w])).
  { intros w. unfold Pd.query.
    erewrite bind_ok; [reflexivity|]. apply series_at.
    replace (S (length h)) with (length (h ++ [OSeries v]))
      by (rewrite List.length_app; simpl; lia).
    replace (h ++ [OSeries v; OSeries w]) with ((h ++ [OSeries v]) ++ [OSeries w])
      by now rewrite <- app_assoc.
    apply lookup_fresh. }
  assert (Ha : forall w, Heap.alloc (OSeries w) (h ++ [OSeries v])
               = (Ok (S (length h)), h ++ [OSeries v; OSeries w])).
  { intros w. unfold Heap.alloc. rewrite List.length_app, <- app_assoc. simpl.
    do 2 f_equal. lia. }
  destruct v as [xs|os]; simpl; unfold numeric_fill, categorical_fill.
  - destruct (String.eqb strategy "median");
      [|destruct (String.eqb strategy "mean");
        [|destruct (String.eqb strategy "constant")]];
      try (rewrite bind_ret, (bind_ok _ _ _ _ _ (Ha _)),
             (bind_ok _ _ _ _ _ (Hq _)); reflexivity).
    reflexivity.
  - destruct (String.eqb strategy "mode").
    + destruct (clean.is_nil (Ser.dropna os)).
      * rewrite bind_ret, (bind_ok _ _ _ _ _ (Ha _)),
          (bind_ok _ _ _ _ _ (Hq _)); reflexivity.
      * destruct (Ser.mode os); [reflexivity|].
        rewrite bind_ret, (bind_ok _ _ _ _ _ (Ha _)),
          (bind_ok _ _ _ _ _ (Hq _)); reflexivity.
    + destruct (String.eqb strategy "constant"); [|reflexivity].
      rewrite bind_ret, (bind_ok _ _ _ _ _ (Ha _)),
        (bind_ok _ _ _ _ _ (Hq _)); reflexivity.
Qed.

End ImputeColumn.

(** ** The imputation loop of [handle_missing_values] *)

Lemma getitem_work h g c s (pre post : DataFrame) :
  NoDup (DF.columns (pre ++ (c, s) :: post)) ->
  Pd.getitem (length h) c (h ++ OFrame (pre ++ (c, s) :: post) :: g)
  = (Ok (length (h ++ OFrame (pre ++ (c, s) :: post) :: g)),
     h ++ OFrame (pre ++ (c, s) :: post) :: (g ++ [OSeries s])).
Proof.
  intros Hnd. destruct (NoDup_middle _ _ _ _ Hnd) as [Hpre Hpost].
  unfold Pd.getitem.
  rewrite (bind_ok _ _ _ _ _ (frame_at _ _ _ (lookup_work h g _))).
  rewrite lookup_middle by done.
  rewrite occurrences_middle by done. simpl.
  apply alloc_work.
Qed.

Lemma setitem_work h g r c s v (pre post : DataFrame) :
  c ∉ DF.columns pre ->
  (h ++ OFrame (pre ++ (c, s) :: post) :: g) !! r = Some (OSeries v) ->
  Pd.setitem (length h) c r (h ++ OFrame (pre ++ (c, s) :: post) :: g)
  = (Ok tt, h ++ OFrame (pre ++ (c, v) :: post) :: g).
Proof.
  intros Hpre Hr. unfold Pd.setitem.
  rewrite (bind_ok _ _ _ _ _ (frame_at _ _ _ (lookup_work h g _))).
  rewrite (bind_ok _ _ _ _ _ (series_at _ _ _ Hr)).
  rewrite store_work. now rewrite set_middle.
Qed.

Section GateLoop.

Variable repr_number : Q -> string.
Context {fp : Arithmetic}.
Variable threshold : float.
Variables numeric_strategy categorical_strategy : string.

Local Abbreviation column_step :=
  (column_step repr_number threshold numeric_strategy categorical_strategy).
Local Abbreviation impute_loop :=
  (impute_loop repr_number threshold numeric_strategy categorical_strategy).
Local Abbreviation gate_body :=
  (gate_body repr_number threshold numeric_strategy categorical_strategy).

Lemma gate_body_run h g c s (pre post : DataFrame) (acc : report) :
  NoDup (DF.columns (pre ++ (c, s) :: post)) ->
  match column_step s with
  | Ok (s', i) =>
      exists g',
        gate_body (length h) (c, missing_rate s) acc
          (h ++ OFrame (pre ++ (c, s) :: post) :: g)
        = (Ok (<[c := i]> acc), h ++ OFrame (pre ++ (c, s') :: post) :: g')
  | Raise e =>
      exists g',
        gate_body (length h) (c, missing_rate s) acc
          (h ++ OFrame (pre ++ (c, s) :: post) :: g)
        = (Raise e, h ++ OFrame (pre ++ (c, s) :: post) :: g')
  end.
Proof.
  intros Hnd. destruct (NoDup_middle _ _ _ _ Hnd) as [Hpre Hpost].
  unfold column_step, gate_body. cbn [fst snd].
  destruct (Float.eqb (missing_rate s) Float.zero); [now exists g|].
  destruct (Float.le (missing_rate s) threshold).
  - set (F := pre ++ (c, s) :: post).
    set (H0 := h ++ OFrame F :: g).
    set (H1 := h ++ OFrame F :: (g ++ [OSeries s])).
    assert (E1 : H1 = H0 ++ [OSeries s]).
    { unfold H1, H0. now rewrite <- app_assoc. }
    assert (L1 : H1 !! length H0 = Some (OSeries s)).
    { rewrite E1. apply lookup_fresh. }
    rewrite (bind_ok _ _ _ _ _ (getitem_work h g c s pre post Hnd)).
    fold F H0 H1.
    assert (Q : Pd.query Ser.is_numeric_dtype (length H0) H1
                = (Ok (Ser.is_numeric_dtype s), H1)).
    { unfold Pd.query. now rewrite (bind_ok _ _ _ _ _ (series_at _ _ _ L1)). }
    rewrite (bind_ok _ _ _ _ _ Q).
    set (strategy := if Ser.is_numeric_dtype s
                     then numeric_strategy else categorical_strategy).
    assert (I : (if Ser.is_numeric_dtype s
                 then clean.impute_column repr_number (length H0) numeric_strategy
                 else clean.impute_column repr_number (length H0) categorical_strategy) H1
                = clean.impute_column repr_number (length H0) strategy H1).
    { unfold strategy. now destruct (Ser.is_numeric_dtype s). }
    pose proof (impute_column_run repr_number H1 (length H0) s strategy L1) as R.
    rewrite <- I in R. clear I.
    destruct (impute_value repr_number s strategy) as [[s' i]|e].
    + rewrite (bind_ok _ _ _ _ _ R). cbn [fst snd].
      exists (g ++ [OSeries s; OSeries s; OSeries s']).
      assert (E2 : H1 ++ [OSeries s; OSeries s'] =
                   h ++ OFrame F :: (g ++ [OSeries s; OSeries s; OSeries s'])).
      { unfold H1. rewrite <- app_assoc. simpl. now rewrite <- app_assoc. }
      rewrite E2.
      assert (L2 : (h ++ OFrame F :: (g ++ [OSeries s; OSeries s; OSeries s']))
                     !! S (length H1) = Some (OSeries s')).
      { rewrite <- E2.
        replace (H1 ++ [OSeries s; OSeries s'])
          with ((H1 ++ [OSeries s]) ++ [OSeries s']) by now rewrite <- app_assoc.
        replace (S (length H1)) with (length (H1 ++ [OSeries s]))
          by (rewrite List.length_app; simpl; lia).
        apply lookup_fresh. }
      unfold F in *.
      now rewrite (bind_ok _ _ _ _ _ (setitem_work h _ _ c s s' pre post Hpre L2)).
    + rewrite (bind_raise _ _ _ _ _ R).
      exists (g ++ [OSeries s; OSeries s]).
      unfold H1. rewrite <- app_assoc. simpl. now rewrite <- app_assoc.
  - exists g.
    now rewrite (bind_ok _ _ _ _ _ (col_query_work clean.n_missing h g c s pre post Hnd)).
Qed.

Lemma impute_loop_columns todo acc done rep :
  impute_loop todo acc = Ok (done, rep) -> DF.columns done = DF.columns todo.
Proof.
  revert acc done rep. induction todo as [|[c s] todo IH]; simpl; intros acc done rep E.
  - now inversion E.
  - destruct (column_step s) as [[s' i]|]; [|done].
    destruct (impute_loop todo _) as [[d r]|] eqn:E'; [|done].
    inversion E; subst. simpl. f_equal. eapply IH, E'.
Qed.

Lemma gate_loop_run h (todo pre : DataFrame) (acc : report) g :
  NoDup (DF.columns (pre ++ todo)) ->
  match impute_loop todo acc with
  | Ok (done, rep) =>
      exists g',
        for_each (rates_of todo) (gate_body (length h)) acc
          (h ++ OFrame (pre ++ todo) :: g)
        = (Ok rep, h ++ OFrame (pre ++ done) :: g')
  | Raise e =>
      exists cur g',
        for_each (rates_of todo) (gate_body (length h)) acc
          (h ++ OFrame (pre ++ todo) :: g)
        = (Raise e, h ++ OFrame cur :: g')
  end.
Proof.
  revert pre acc g. induction todo as [|[c s] todo IH]; intros pre acc g Hnd; simpl.
  - now exists g.
  - pose proof (gate_body_run h g c s pre todo acc Hnd) as B.
    destruct (column_step s) as [[s' i]|e].
    + destruct B as [g1 B]. rewrite (bind_ok _ _ _ _ _ B).
      assert (Hnd' : NoDup (DF.columns ((pre ++ [(c, s')]) ++ todo))).
      { revert Hnd. rewrite !columns_app. simpl. now rewrite <- app_assoc. }
      specialize (IH (pre ++ [(c, s')]) (<[c := i]> acc) g1 Hnd').
      rewrite <- app_assoc in IH. simpl in IH.
      destruct (impute_loop todo _) as [[done rep]|e].
      * destruct IH as [g' IH]. exists g'. rewrite IH.
        now rewrite <- app_assoc.
      * exact IH.
    + destruct B as [g1 B]. rewrite (bind_raise _ _ _ _ _ B). eauto.
Qed.

End GateLoop.

(** ** Constant-column pruning *)

Lemma mem_true_iff c (cs : list string) : DF.mem c cs = true <-> c ∈ cs.
Proof.
  unfold DF.mem. rewrite existsb_exists. split.
  - intros (x & Hin & E). apply String.eqb_eq in E. subst. now apply list_elem_of_In.
  - intros Hin. exists c. split; [now apply list_elem_of_In|apply String.eqb_refl].
Qed.

Lemma mem_false_iff c (cs : list string) : DF.mem c cs = false <-> c ∉ cs.
Proof.
  rewrite <- mem_true_iff. destruct (DF.mem c cs); naive_solver.
Qed.

Lemma drop_drop (a b : list string) (df : DataFrame) :
  DF.drop b (DF.drop a df) = DF.drop (a ++ b) df.
Proof.
  unfold DF.drop. induction df as [|[c s] df IH]; simpl; [done|].
  assert (E : DF.mem c (a ++ b) = DF.mem c a || DF.mem c b).
  { unfold DF.mem. apply existsb_app. }
  rewrite E. destruct (DF.mem c a); simpl.
  - apply IH.
  - destruct (DF.mem c b); simpl; now rewrite IH.
Qed.

Lemma columns_drop_elem c (cs : list string) (df : DataFrame) :
  c ∈ DF.columns (DF.drop cs df) <-> c ∈ DF.columns df /\ c ∉ cs.
Proof.
  unfold DF.drop, DF.columns. induction df as [|[c' s] df IH]; simpl.
  - split; [intros H; inversion H|intros [H _]; inversion H].
  - destruct (DF.mem c' cs) eqn:E; simpl.
    + rewrite IH, elem_of_cons. apply mem_true_iff in E.
      split; [tauto|]. intros [[->|H] Hn]; [done|tauto].
    + rewrite !elem_of_cons, IH. apply mem_false_iff in E.
      split; [intros [->|[H Hn]]; tauto|tauto].
Qed.

Lemma prune_loop_run h g (cc dropped : list string) (df : DataFrame) (rep : report) :
  NoDup cc ->
  (forall c, c ∈ cc -> c ∈ DF.columns df /\ c ∉ dropped) ->
  for_each cc (prune_body (length h)) rep
    (h ++ OFrame (DF.drop dropped df) :: g)
  = (Ok (fold_left mark_dropped cc rep),
     h ++ OFrame (DF.drop (dropped ++ cc) df) :: g).
Proof.
  revert dropped rep. induction cc as [|c cc IH]; intros dropped rep Hnd Hin; simpl.
  - now rewrite app_nil_r.
  - apply NoDup_cons in Hnd as [Hc Hnd].
    assert (Hd : Pd.drop (length h) [c] (h ++ OFrame (DF.drop dropped df) :: g)
                 = (Ok tt, h ++ OFrame (DF.drop (dropped ++ [c]) df) :: g)).
    { unfold Pd.drop.
      rewrite (bind_ok _ _ _ _ _ (frame_at _ _ _ (lookup_work h g _))).
      simpl.
      assert (M : DF.mem c (DF.columns (DF.drop dropped df)) = true).
      { apply mem_true_iff, columns_drop_elem. apply Hin. now left. }
      rewrite M. simpl. rewrite store_work. now rewrite drop_drop. }
    assert (Hb : prune_body (length h) c rep
                   (h ++ OFrame (DF.drop dropped df) :: g)
                 = (Ok (mark_dropped rep c),
                    h ++ OFrame (DF.drop (dropped ++ [c]) df) :: g)).
    { unfold prune_body. now rewrite (bind_ok _ _ _ _ _ Hd). }
    rewrite (bind_ok _ _ _ _ _ Hb).
    rewrite IH; [| done |].
    + now rewrite <- app_assoc.
    + intros c' Hc'. split; [apply Hin; now right|].
      rewrite elem_of_app, list_elem_of_singleton.
      intros [Hd'| ->]; [|done].
      apply (Hin c'); [now right|done].
Qed.

Lemma scan_run (f : Series -> bool) h g (pre todo : DataFrame) :
  NoDup (DF.columns (pre ++ todo)) ->
  filter_m (fun c => Pd.col_query (length h) c f)
    (DF.columns todo) (h ++ OFrame (pre ++ todo) :: g)
  = (Ok (DF.columns (List.filter (fun cs => f (snd cs)) todo)),
     h ++ OFrame (pre ++ todo) :: g).
Proof.
  revert pre. induction todo as [|[c s] todo IH]; intros pre Hnd; simpl; [done|].
  rewrite (bind_ok _ _ _ _ _ (col_query_work _ h g c s pre todo Hnd)).
  replace (pre ++ (c, s) :: todo) with ((pre ++ [(c, s)]) ++ todo) in *
    by now rewrite <- app_assoc.
  rewrite (bind_ok _ _ _ _ _ (IH _ Hnd)).
  unfold ret. simpl. now destruct (f s).
Qed.

Lemma constant_scan_run h g (pre todo : DataFrame) :
  NoDup (DF.columns (pre ++ todo)) ->
  filter_m (fun c => Pd.col_query (length h) c (fun s => Ser.nunique s <=? 1))
    (DF.columns todo) (h ++ OFrame (pre ++ todo) :: g)
  = (Ok (constant_cols todo), h ++ OFrame (pre ++ todo) :: g).
Proof. apply (scan_run (fun s => Ser.nunique s <=? 1)). Qed.

Lemma constant_cols_sub (df : DataFrame) c :
  c ∈ constant_cols df -> c ∈ DF.columns df.
Proof.
  unfold constant_cols, DF.columns. rewrite !list_elem_of_In, !in_map_iff.
  intros (x & E & Hin). exists x. split; [done|].
  now apply List.filter_In in Hin.
Qed.

Lemma NoDup_constant_cols (df : DataFrame) :
  NoDup (DF.columns df) -> NoDup (constant_cols df).
Proof.
  unfold constant_cols, DF.columns.
  induction df as [|[c s] df IH]; simpl; intros Hnd; [constructor|].
  apply NoDup_cons in Hnd as [Hc Hnd].
  destruct (is_constant s); simpl; [|now apply IH].
  apply NoDup_cons. split; [|now apply IH].
  intros Hin. apply Hc. now apply (constant_cols_sub df c).
Qed.

(** ** [handle_missing_values] as a function of the frame's value *)

Lemma drop_nil (df : DataFrame) : DF.drop [] df = df.
Proof.
  induction df as [|p df IH]; [done|].
  change (DF.drop [] (p :: df)) with (p :: DF.drop [] df). now rewrite IH.
Qed.

Section HandleMissingValues.

Variable repr_number : Q -> string.
Context {fp : Arithmetic}.

Lemma handle_missing_values_run (h : heap) r (df : DataFrame)
    threshold numeric_strategy categorical_strategy allow_drop_constant :
  h !! r = Some (OFrame df) ->
  NoDup (DF.columns df) ->
  match exceeding threshold df with
  | _ :: _ =>
      clean.handle_missing_values repr_number r threshold
        numeric_strategy categorical_strategy allow_drop_constant h
      = (Raise (TooManyMissingError (exceeding threshold df)), h ++ [OFrame df])
  | [] =>
      match impute_loop repr_number threshold numeric_strategy
              categorical_strategy df ∅ with
      | Ok p =>
          exists g,
            clean.handle_missing_values repr_number r threshold
              numeric_strategy categorical_strategy allow_drop_constant h
            = (Ok (length h, snd (prune allow_drop_constant p)),
               h ++ OFrame (fst (prune allow_drop_constant p)) :: g)
      | Raise e =>
          exists cur g,
            clean.handle_missing_values repr_number r threshold
              numeric_strategy categorical_strategy allow_drop_constant h
            = (Raise e, h ++ OFrame cur :: g)
      end
  end.
Proof.
  intros Hr Hnd. unfold clean.handle_missing_values.
  assert (Hcopy : Pd.frame_copy r h = (Ok (length h), h ++ [OFrame df])).
  { unfold Pd.frame_copy. now rewrite (bind_ok _ _ _ _ _ (frame_at _ _ _ Hr)). }
  rewrite (bind_ok _ _ _ _ _ Hcopy).
  assert (Hlen : Pd.len (length h) (h ++ [OFrame df])
                 = (Ok (DF.nrows df), h ++ [OFrame df])).
  { unfold Pd.len.
    now rewrite (bind_ok _ _ _ _ _ (frame_at _ _ _ (lookup_fresh h _))). }
  rewrite (bind_ok _ _ _ _ _ Hlen).
  rewrite (bind_ok _ _ _ _ _
             (compute_missing_rates_run _ _ df (lookup_fresh h _) Hnd)).
  fold (exceeding threshold df).
  destruct (exceeding threshold df) as [|x xs]; simpl; [|reflexivity].
  pose proof (gate_loop_run repr_number threshold numeric_strategy
                categorical_strategy h df [] ∅ [] Hnd) as L.
  simpl in L.
  pose proof (impute_loop_columns repr_number threshold numeric_strategy
                categorical_strategy df ∅) as Hcols.
  destruct (impute_loop repr_number threshold numeric_strategy
              categorical_strategy df ∅) as [[imp rep]|e].
  - destruct L as [g L]. unfold gate_body in L.
    rewrite (bind_ok _ _ _ _ _ L).
    specialize (Hcols imp rep eq_refl).
    assert (Hnd' : NoDup (DF.columns imp)) by now rewrite Hcols.
    destruct allow_drop_constant; simpl.
    + exists g.
      assert (Hc : Pd.columns (length h) (h ++ OFrame imp :: g)
                   = (Ok (DF.columns imp), h ++ OFrame imp :: g)).
      { unfold Pd.columns.
        now rewrite (bind_ok _ _ _ _ _ (frame_at _ _ _ (lookup_work h g _))). }
      pose proof (constant_scan_run h g [] imp Hnd') as Hs. simpl in Hs.
      pose proof (prune_loop_run h g (constant_cols imp) [] imp rep
                    (NoDup_constant_cols imp Hnd')) as Hp.
      rewrite drop_nil in Hp. simpl in Hp. unfold prune_body in Hp.
      erewrite bind_ok; [reflexivity|].
      rewrite (bind_ok _ _ _ _ _ Hc), (bind_ok _ _ _ _ _ Hs).
      apply Hp.
      intros c Hc'. split; [now apply constant_cols_sub|]. intros Hx; inversion Hx.
    + exists g. reflexivity.
  - destruct L as (cur & g & L). unfold gate_body in L.
    rewrite (bind_raise _ _ _ _ _ L). eauto.
Qed.

End HandleMissingValues.

(** ** Facts about the loop and the pruning, column by column *)

Lemma elem_of_columns c (df : DataFrame) :
  c ∈ DF.columns df <-> exists s, (c, s) ∈ df.
Proof.
  unfold DF.columns. rewrite list_elem_of_In, in_map_iff. split.
  - intros ([c' s] & E & Hin). simpl in E. subst. exists s. now apply list_elem_of_In.
  - intros (s & Hin). exists (c, s). split; [done|now apply list_elem_of_In].
Qed.

Lemma NoDup_columns_functional (df : DataFrame) c s1 s2 :
  NoDup (DF.columns df) -> (c, s1) ∈ df -> (c, s2) ∈ df -> s1 = s2.
Proof.
  induction df as [|[c' s'] df IH]; simpl; intros Hnd H1 H2; [inversion H1|].
  apply NoDup_cons in Hnd as [Hc Hnd].
  apply elem_of_cons in H1 as [E1|H1]; apply elem_of_cons in H2 as [E2|H2].
  - congruence.
  - inversion E1; subst. exfalso. apply Hc, elem_of_columns. eauto.
  - inversion E2; subst. exfalso. apply Hc, elem_of_columns. eauto.
  - now apply IH.
Qed.

Section LoopFacts.

Variable repr_number : Q -> string.
Context {fp : Arithmetic}.
Variable threshold : float.
Variables numeric_strategy categorical_strategy : string.

Local Abbreviation step :=
  (column_step repr_number threshold numeric_strategy categorical_strategy).
Local Abbreviation loop :=
  (impute_loop repr_number threshold numeric_strategy categorical_strategy).

Lemma impute_loop_outside todo acc imp rep c :
  loop todo acc = Ok (imp, rep) -> c ∉ DF.columns todo -> rep !! c = acc !! c.
Proof.
  revert acc imp rep. induction todo as [|[c' s] todo IH]; simpl; intros acc imp rep E Hn.
  - now inversion E.
  - apply not_elem_of_cons in Hn as [Hne Hn].
    destruct (step s) as [[s' i]|]; [|done].
    destruct (loop todo _) as [[d r]|] eqn:E'; [|done].
    inversion E; subst. rewrite (IH _ _ _ E' Hn). now apply lookup_insert_ne.
Qed.

(** Every column of the input has gone through [column_step]; the loop
    records its entry and puts its new value in place. *)
Lemma impute_loop_elem todo acc imp rep c s :
  loop todo acc = Ok (imp, rep) ->
  NoDup (DF.columns todo) ->
  (c, s) ∈ todo ->
  exists s' i, step s = Ok (s', i) /\ (c, s') ∈ imp /\ rep !! c = Some i.
Proof.
  revert acc imp rep. induction todo as [|[c' t] todo IH]; simpl;
    intros acc imp rep E Hnd Hin; [inversion Hin|].
  apply NoDup_cons in Hnd as [Hc Hnd].
  destruct (step t) as [[t' i]|] eqn:Et; [|done].
  destruct (loop todo _) as [[d r]|] eqn:E'; [|done].
  inversion E; subst.
  apply elem_of_cons in Hin as [Eq|Hin].
  - inversion Eq; subst. exists t', i. split; [done|]. split; [now left|].
    rewrite (impute_loop_outside _ _ _ _ _ E' Hc). apply lookup_insert_eq.
  - destruct (IH _ _ _ E' Hnd Hin) as (s' & i' & Hs & Hm & Hl).
    exists s', i'. split; [done|]. split; [now right|done].
Qed.

Lemma impute_loop_elem_inv todo acc imp rep c s' :
  loop todo acc = Ok (imp, rep) ->
  (c, s') ∈ imp ->
  exists s i, (c, s) ∈ todo /\ step s = Ok (s', i).
Proof.
  revert acc imp rep. induction todo as [|[c' t] todo IH]; simpl;
    intros acc imp rep E Hin.
  - inversion E; subst. inversion Hin.
  - destruct (step t) as [[t' i]|] eqn:Et; [|done].
    destruct (loop todo _) as [[d r]|] eqn:E'; [|done].
    inversion E; subst.
    apply elem_of_cons in Hin as [Eq|Hin].
    + inversion Eq; subst. exists t, i. split; [now left|done].
    + destruct (IH _ _ _ E' Hin) as (s & i' & Hm & Hs).
      exists s, i'. split; [now right|done].
Qed.

(** The loop fails only where [impute_column] does. *)
Lemma impute_loop_raise todo acc e :
  loop todo acc = Raise e ->
  exists c s strategy,
    (c, s) ∈ todo /\ impute_value repr_number s strategy = Raise e.
Proof.
  revert acc. induction todo as [|[c t] todo IH]; simpl; intros acc E; [done|].
  destruct (step t) as [[t' i]|e'] eqn:Et.
  - destruct (loop todo _) as [[d r]|e'] eqn:E'; [done|].
    inversion E; subst.
    destruct (IH _ E') as (c' & s & st & Hin & Hs).
    exists c', s, st. split; [now right|done].
  - inversion E; subst. unfold column_step in Et.
    destruct (Float.eqb _ _); [done|].
    destruct (Float.le _ _); [|done].
    eexists c, t, _. split; [now left|exact Et].
Qed.

End LoopFacts.

Lemma mark_dropped_other (cc : list string) (rep : report) c :
  c ∉ cc -> fold_left mark_dropped cc rep !! c = rep !! c.
Proof.
  revert rep. induction cc as [|c' cc IH]; simpl; intros rep Hn; [done|].
  apply not_elem_of_cons in Hn as [Hne Hn].
  rewrite (IH _ Hn). unfold mark_dropped. now apply lookup_insert_ne.
Qed.

Lemma mark_dropped_lookup (cc : list string) (rep : report) c :
  NoDup cc -> c ∈ cc ->
  fold_left mark_dropped cc rep !! c
  = Some (<["dropped_constant" := VBool true]> (default ∅ (rep !! c))).
Proof.
  revert rep. induction cc as [|c' cc IH]; simpl; intros rep Hnd Hin; [inversion Hin|].
  apply NoDup_cons in Hnd as [Hc Hnd].
  apply elem_of_cons in Hin as [->|Hin].
  - rewrite (mark_dropped_other _ _ _ Hc). unfold mark_dropped. apply lookup_insert_eq.
  - rewrite (IH _ Hnd Hin). unfold mark_dropped.
    rewrite lookup_insert_ne; [done|]. intros ->. done.
Qed.

Lemma elem_of_drop c s (cc : list string) (df : DataFrame) :
  (c, s) ∈ DF.drop cc df <-> (c, s) ∈ df /\ c ∉ cc.
Proof.
  unfold DF.drop. rewrite <- mem_false_iff, <- negb_true_iff.
  rewrite !list_elem_of_In, List.filter_In. simpl. tauto.
Qed.

Lemma elem_of_constant_cols (df : DataFrame) c s :
  NoDup (DF.columns df) -> (c, s) ∈ df ->
  c ∈ constant_cols df <-> is_constant s = true.
Proof.
  intros Hnd Hin. unfold constant_cols. rewrite elem_of_columns. split.
  - intros (s' & Hin'). apply list_elem_of_In, List.filter_In in Hin' as [Hin' Hc].
    apply list_elem_of_In in Hin'.
    now rewrite (NoDup_columns_functional df c s s' Hnd Hin Hin').
  - intros Hc. exists s. apply list_elem_of_In, List.filter_In.
    split; [now apply list_elem_of_In|done].
Qed.

(** ** The most frequent value *)

Lemma obj_eqb_refl a : Ser.obj_eqb a a = true.
Proof.
  destruct a as [|s|q|[]]; simpl;
    [done|apply String.eqb_refl|apply Qeq_bool_refl|done|done].
Qed.

Lemma obj_eqb_sym a b : Ser.obj_eqb a b = Ser.obj_eqb b a.
Proof.
  destruct a as [|s|q|[]], b as [|s'|q'|[]]; simpl; try done;
    [apply String.eqb_sym|apply Qeq_bool_comm].
Qed.

Lemma obj_eqb_trans a b c :
  Ser.obj_eqb a b = true -> Ser.obj_eqb b c = true -> Ser.obj_eqb a c = true.
Proof.
  destruct a as [|s|q|[]], b as [|s'|q'|[]], c as [|s''|q''|[]];
    simpl; try done.
  - rewrite !String.eqb_eq. congruence.
  - apply Qeq_bool_trans.
Qed.

Lemma obj_eqb_congr a b c :
  Ser.obj_eqb a b = true -> Ser.obj_eqb a c = Ser.obj_eqb b c.
Proof.
  intros E. destruct (Ser.obj_eqb b c) eqn:Ebc.
  - eapply obj_eqb_trans; eauto.
  - destruct (Ser.obj_eqb a c) eqn:Eac; [|done].
    rewrite <- Ebc. symmetry. eapply obj_eqb_trans; [|exact Eac].
    now rewrite obj_eqb_sym.
Qed.

Lemma count_congr a b (l : list obj) :
  Ser.obj_eqb a b = true -> Ser.count a l = Ser.count b l.
Proof.
  intros E. unfold Ser.count. f_equal.
  apply List.filter_ext. intros c. now apply obj_eqb_congr.
Qed.

Lemma count_le_max_count (vals l : list obj) v :
  In v l ->
  Ser.count v vals <= fold_right Nat.max 0 (List.map (fun v => Ser.count v vals) l).
Proof.
  induction l as [|x l IH]; simpl; intros Hin; [done|].
  destruct Hin as [->|Hin]; [lia|]. specialize (IH Hin). lia.
Qed.

Lemma max_count_attained (vals l : list obj) :
  l <> [] ->
  exists v, In v l /\
    Ser.count v vals = fold_right Nat.max 0 (List.map (fun v => Ser.count v vals) l).
Proof.
  induction l as [|x l IH]; [done|]. intros _. simpl.
  destruct l as [|y l].
  - exists x. split; [now left|]. simpl. lia.
  - destruct IH as (v & Hin & Hv); [done|].
    destruct (Nat.max_spec (Ser.count x vals)
                (fold_right Nat.max 0 (List.map (fun v => Ser.count v vals) (y :: l))))
      as [[_ E]|[_ E]]; rewrite E.
    + exists v. split; [now right|done].
    + exists x. split; [now left|done].
Qed.

Lemma unique_sub (l : list obj) v : In v (Ser.unique l) -> In v l.
Proof.
  revert v. induction l as [|x l IH]; simpl; intros v Hin; [done|].
  destruct Hin as [->|Hin]; [now left|].
  apply List.filter_In in Hin as [Hin _]. right. now apply IH.
Qed.

Lemma unique_covers (l : list obj) v :
  In v l -> exists u, In u (Ser.unique l) /\ Ser.obj_eqb u v = true.
Proof.
  induction l as [|x l IH]; simpl; intros Hin; [done|].
  destruct (Ser.obj_eqb x v) eqn:E.
  - exists x. split; [now left|done].
  - destruct Hin as [->|Hin]; [now rewrite obj_eqb_refl in E|].
    destruct (IH Hin) as (u & Hu & Euv).
    exists u. split; [|done]. right. apply List.filter_In. split; [done|].
    apply negb_true_iff.
    now rewrite (obj_eqb_sym x u), (obj_eqb_congr u v x Euv), (obj_eqb_sym v x).
Qed.

Lemma insert_sorted_In {A} (leb : A -> A -> bool) x y (l : list A) :
  In y (Ser.insert_sorted leb x l) <-> y = x \/ In y l.
Proof.
  induction l as [|z l IH]; simpl; [intuition congruence|].
  destruct (leb x z); simpl; [intuition congruence|]. rewrite IH. intuition congruence.
Qed.

Lemma sort_In {A} (leb : A -> A -> bool) y (l : list A) :
  In y (Ser.sort leb l) <-> In y l.
Proof.
  induction l as [|x l IH]; simpl; [done|].
  rewrite insert_sorted_In, IH. intuition congruence.
Qed.

Lemma dropna_In (os : list obj) v :
  In v (Ser.dropna os) <-> In v os /\ Ser.obj_isna v = false.
Proof. unfold Ser.dropna. rewrite List.filter_In, negb_true_iff. tauto. Qed.

Lemma count_dropna (os : list obj) v :
  Ser.obj_isna v = false -> Ser.count v (Ser.dropna os) = Ser.count v os.
Proof.
  intros Hv. unfold Ser.count, Ser.dropna.
  induction os as [|o os IH]; simpl; [done|].
  destruct o; simpl.
  - destruct v; simpl in *; done.
  - destruct (Ser.obj_eqb v (OStr s)); simpl; now rewrite IH.
  - destruct (Ser.obj_eqb v (ONum q)); simpl; now rewrite IH.
  - destruct (Ser.obj_eqb v (OInf negative)); simpl; now rewrite IH.
Qed.

(** Every value returned by [mode] is a non-missing value of the column
    that no other value outnumbers; there is one whenever the column has a
    non-missing value. *)
Lemma mode_spec (os : list obj) m :
  In m (Ser.mode os) ->
  In m os /\ Ser.obj_isna m = false /\
  forall v, Ser.obj_isna v = false -> Ser.count v os <= Ser.count m os.
Proof.
  unfold Ser.mode. set (vals := Ser.dropna os).
  set (ms := List.filter _ (Ser.unique vals)).
  intros Hin.
  assert (Hms : In m ms).
  { destruct (_ || _) in Hin; [now apply sort_In in Hin|done]. }
  apply List.filter_In in Hms as [Hu Hc]. apply Nat.eqb_eq in Hc.
  apply unique_sub, dropna_In in Hu as [Hm Hna].
  split; [done|]. split; [done|].
  intros v Hv. rewrite <- (count_dropna os m Hna), <- (count_dropna os v Hv).
  fold vals. rewrite Hc.
  unfold Ser.count at 1.
  destruct (List.filter (Ser.obj_eqb v) vals) as [|x l] eqn:Ef; [simpl; lia|].
  assert (Hx : In x (List.filter (Ser.obj_eqb v) vals)) by (rewrite Ef; now left).
  apply List.filter_In in Hx as [Hx Ex].
  rewrite <- Ef. fold (Ser.count v vals). rewrite (count_congr v x vals Ex).
  now apply count_le_max_count.
Qed.

Lemma mode_nonempty (os : list obj) :
  Ser.dropna os <> [] -> Ser.mode os <> [].
Proof.
  intros Hne. unfold Ser.mode. set (vals := Ser.dropna os) in *.
  destruct (max_count_attained vals vals Hne) as (v & Hv & Hc).
  destruct (unique_covers vals v Hv) as (u & Hu & Eu).
  assert (Hms : In u (List.filter (fun v => Ser.count v vals =? Ser.max_count vals)
                        (Ser.unique vals))).
  { apply List.filter_In. split; [done|]. apply Nat.eqb_eq.
    now rewrite (count_congr u v vals Eu). }
  destruct (_ || _).
  - intros E. apply (sort_In Ser.obj_leb) in Hms. now rewrite E in Hms.
  - intros E. now rewrite E in Hms.
Qed.

(** ** Rates, NaN and all-missing columns *)

Lemma bsum_le_length (bs : list bool) : Ser.bsum bs <= length bs.
Proof. unfold Ser.bsum. apply List.filter_length_le. Qed.

Lemma ratio_unit_interval k n :
  n <> 0 -> k <= n ->
  exists q, Float.ratio k n = Fin q /\ (0 <= q)%Q /\ (q <= 1)%Q.
Proof.
  intros Hn Hk. destruct n as [|n]; [done|].
  eexists. split; [reflexivity|].
  rewrite !Qred_correct. unfold Qle. cbn [Qnum Qden].
  rewrite <- Pos.of_nat_succ, Zpos_P_of_succ_nat. lia.
Qed.

Lemma ratio_zero n : n <> 0 -> Float.ratio 0 n = Fin 0.
Proof.
  intros Hn. destruct n as [|n]; [done|]. reflexivity.
Qed.

Lemma ratio_self n : n <> 0 -> Float.ratio n n = Fin 1.
Proof.
  intros Hn. destruct n as [|n]; [done|]. unfold Float.ratio. f_equal.
  change 1%Q with (Qred 1). apply Qred_complete. unfold Qeq. cbn [Qnum Qden].
  rewrite <- Pos.of_nat_succ, Zpos_P_of_succ_nat. lia.
Qed.

Lemma isna_length (s : Series) : length (Ser.isna s) = Ser.len s.
Proof.
  unfold Ser.isna, Ser.cells. destruct s; simpl; now rewrite !length_map.
Qed.

(** On a frame with at least one row the rate is a fraction in [0,1], and
    it is 0.0 for a column without missing cells. *)
Lemma missing_rate_unit_interval (s : Series) :
  Ser.len s <> 0 ->
  (exists q, missing_rate s = Fin q /\ (0 <= q)%Q /\ (q <= 1)%Q) /\
  (Ser.bsum (Ser.isna s) = 0 -> missing_rate s = Fin 0).
Proof.
  intros Hn. unfold missing_rate, Ser.bmean. rewrite isna_length. split.
  - apply ratio_unit_interval; [done|]. rewrite <- isna_length. apply bsum_le_length.
  - intros ->. now apply ratio_zero.
Qed.

Lemma ffillna_nan (xs : list float) : Ser.ffillna NaN xs = xs.
Proof.
  unfold Ser.ffillna. induction xs as [|x xs IH]; simpl; [done|].
  rewrite IH. now destruct x.
Qed.

Lemma all_nan_dropna (xs : list float) :
  Forall (fun x => x = NaN) xs -> Ser.fdropna xs = [].
Proof. induction 1 as [|x xs -> _ IH]; simpl; done. Qed.

Lemma all_nan_missing (xs : list float) :
  Forall (fun x => x = NaN) xs -> Ser.bsum (Ser.isna (SFloat xs)) = length xs.
Proof.
  unfold Ser.bsum, Ser.isna. simpl.
  induction 1 as [|x xs -> _ IH]; simpl; [done|]. now rewrite IH.
Qed.

Lemma all_nan_fill {fp : Arithmetic} (xs : list float) strategy :
  Forall (fun x => x = NaN) xs ->
  strategy = "median" \/ strategy = "mean" ->
  numeric_fill strategy xs = Ok NaN.
Proof.
  intros Hall [-> | ->]; unfold numeric_fill, Ser.fmedian, Ser.fmean; simpl;
    now rewrite (all_nan_dropna xs Hall).
Qed.

(** ** Invalid strategies *)

Section Strategies.

Variable repr_number : Q -> string.
Context {fp : Arithmetic}.

Lemma eqb_neq_iff (a b : string) : String.eqb a b = false <-> a <> b.
Proof. apply String.eqb_neq. Qed.

Lemma numeric_fill_raise strategy xs :
  (exists e, numeric_fill strategy xs = Raise e) <->
  ~ (strategy = "median" \/ strategy = "mean" \/ strategy = "constant").
Proof.
  unfold numeric_fill.
  destruct (String.eqb_spec strategy "median"); [split; [intros [? ?]; done|tauto]|].
  destruct (String.eqb_spec strategy "mean"); [split; [intros [? ?]; done|tauto]|].
  destruct (String.eqb_spec strategy "constant"); [split; [intros [? ?]; done|tauto]|].
  split; [tauto|eauto].
Qed.

Lemma categorical_fill_raise strategy os :
  (exists e, categorical_fill strategy os = Raise e) <->
  ~ (strategy = "mode" \/ strategy = "constant").
Proof.
  unfold categorical_fill.
  destruct (String.eqb_spec strategy "mode") as [Em|Em].
  - split; [|tauto]. intros [x He].
    destruct (Ser.dropna os) as [|o l] eqn:Ed; [done|]. simpl in He.
    assert (Hne : Ser.mode os <> []) by (apply mode_nonempty; now rewrite Ed).
    now destruct (Ser.mode os).
  - destruct (String.eqb_spec strategy "constant");
      [split; [intros [? ?]; done|tauto]|].
    split; [tauto|eauto].
Qed.

Lemma impute_value_raise v strategy :
  (exists e, impute_value repr_number v strategy = Raise e)
  <-> ~ recognized v strategy.
Proof.
  destruct v as [xs|os]; simpl.
  - rewrite <- (numeric_fill_raise strategy xs).
    destruct (numeric_fill strategy xs) as [f|x]; split; intros [y He];
      try done; eauto.
  - rewrite <- (categorical_fill_raise strategy os).
    destruct (categorical_fill strategy os) as [f|x]; split; intros [y He];
      try done; eauto.
Qed.

Lemma impute_value_raise_kind v strategy e :
  impute_value repr_number v strategy = Raise e ->
  exists msg, e = ValueError msg.
Proof.
  intros He.
  assert (Hn : ~ recognized v strategy) by (apply impute_value_raise; eauto).
  destruct v as [xs|os]; simpl in *.
  - unfold numeric_fill in He.
    destruct (String.eqb_spec strategy "median"); [tauto|].
    destruct (String.eqb_spec strategy "mean"); [tauto|].
    destruct (String.eqb_spec strategy "constant"); [tauto|].
    inversion He. eauto.
  - unfold categorical_fill in He.
    destruct (String.eqb_spec strategy "mode"); [tauto|].
    destruct (String.eqb_spec strategy "constant"); [tauto|].
    inversion He. eauto.
Qed.

End Strategies.

(** ** The missing-value gate *)

Section Claims.

Variable repr_number : Q -> string.
Context {fp : Arithmetic}.

(** C1. When some column's missing rate is strictly above the threshold,
    [handle_missing_values] raises TooManyMissingError; the payload is
    the missing-rate dictionary restricted to the columns whose rate
    exceeds the threshold, each with the rate [compute_missing_rates]
    gives it; nothing has been imputed when the exception is raised (the
    only new object is an unmodified copy of the table), and the caller's
    table is unchanged. *)
Theorem handle_missing_values_rejects
    (h : heap) r (df : DataFrame) threshold
    numeric_strategy categorical_strategy allow_drop_constant :
  h !! r = Some (OFrame df) ->
  NoDup (DF.columns df) ->
  (exists c s, (c, s) ∈ df /\ Float.gt (missing_rate s) threshold = true) ->
  exists missing_rates payload,
    clean.compute_missing_rates r h = (Ok missing_rates, h) /\
    clean.handle_missing_values repr_number r threshold numeric_strategy
      categorical_strategy allow_drop_constant h
    = (Raise (TooManyMissingError payload), h ++ [OFrame df]) /\
    (forall c p, (c, p) ∈ payload <->
                 (c, p) ∈ missing_rates /\ Float.gt p threshold = true) /\
    (forall c p, (c, p) ∈ missing_rates <->
                 exists s, (c, s) ∈ df /\ p = missing_rate s) /\
    (h ++ [OFrame df]) !! r = Some (OFrame df).
Proof.
  intros Hr Hnd (c & s & Hin & Hgt).
  exists (rates_of df), (exceeding threshold df).
  split; [now apply compute_missing_rates_run|].
  assert (Hrates : forall c p, (c, p) ∈ rates_of df <->
                               exists s, (c, s) ∈ df /\ p = missing_rate s).
  { intros c' p. unfold rates_of. rewrite list_elem_of_In, in_map_iff. split.
    - intros ([c'' s'] & E & Hin'). simpl in E. inversion E; subst.
      exists s'. split; [now apply list_elem_of_In|done].
    - intros (s' & Hin' & ->). exists (c', s'). split; [done|].
      now apply list_elem_of_In. }
  assert (Hpay : forall c p, (c, p) ∈ exceeding threshold df <->
                   (c, p) ∈ rates_of df /\ Float.gt p threshold = true).
  { intros c' p. unfold exceeding.
    rewrite !list_elem_of_In, List.filter_In. simpl. tauto. }
  split; [|split; [exact Hpay|split; [exact Hrates|]]].
  - pose proof (handle_missing_values_run repr_number h r df threshold
                  numeric_strategy categorical_strategy allow_drop_constant
                  Hr Hnd) as R.
    assert (Hx : (c, missing_rate s) ∈ exceeding threshold df).
    { apply Hpay. split; [|done]. apply Hrates. eauto. }
    destruct (exceeding threshold df) as [|x xs]; [inversion Hx|exact R].
  - rewrite lookup_app_l; [done|]. now apply lookup_lt_Some in Hr.
Qed.

(** C3, at the input where it fails: a float column that is entirely
    missing passes the gate when the threshold is 1, the median fill is
    NaN, and the returned table still holds the missing cell although
    the column was not dropped. *)
Theorem handle_missing_values_leaves_all_missing_column :
  exists rep h',
    clean.handle_missing_values repr_number 0 (Fin 1) "median" "mode" false
      [OFrame [("a", SFloat [NaN])]]
    = (Ok (1, rep), h') /\
    Float.le (missing_rate (SFloat [NaN])) (Fin 1) = true /\
    h' !! 1 = Some (OFrame [("a", SFloat [NaN])]) /\
    Ser.bsum (Ser.isna (SFloat [NaN])) = 1 /\
    (exists i, rep !! "a" = Some i /\ i !! "n_missing_after" = Some (VInt 1)).
Proof.
  assert (Hnd : NoDup (DF.columns [("a", SFloat [NaN])])).
  { simpl. apply NoDup_singleton. }
  pose proof (handle_missing_values_run repr_number
                [OFrame [("a", SFloat [NaN])]] 0 [("a", SFloat [NaN])]
                (Fin 1) "median" "mode" false eq_refl Hnd) as R.
  change (exceeding (Fin 1) [("a", SFloat [NaN])]) with (@nil (string * float)) in R.
  set (i0 := <["n_missing_after" := VInt 1]>
               (<["fill_value" := VFloat NaN]>
                  (base_info (SFloat [NaN]) "median")) : info).
  change (impute_loop repr_number (Fin 1) "median" "mode" [("a", SFloat [NaN])] ∅)
    with (Ok ([("a", SFloat [NaN])], <["a" := i0]> (∅ : report))) in R.
  destruct R as [g R]. simpl in R.
  eexists _, _. split; [exact R|].
  split; [reflexivity|]. split; [reflexivity|]. split; [reflexivity|].
  exists i0. split; [apply lookup_insert_eq|apply lookup_insert_eq].
Qed.

(** C4, at the input where it fails: on a table without rows the rate of
    a column is NaN, which is neither 0.0 nor a value of [0,1]. *)
Theorem compute_missing_rates_zero_rows :
  clean.compute_missing_rates 0 [OFrame [("a", SFloat [])]]
  = (Ok [("a", NaN)], [OFrame [("a", SFloat [])]]) /\
  Ser.bsum (Ser.isna (SFloat [])) = 0 /\
  Float.eqb NaN (Fin 0) = false /\
  Float.le (Fin 0) NaN = false /\
  Float.le NaN (Fin 1) = false.
Proof. repeat split. Qed.

(** C8. [impute_column] raises exactly when the strategy name is not one
    it recognizes for the column's type (median, mean, constant for a
    numeric column; mode, constant for a categorical one); what it raises
    is the ValueError for an unknown strategy; the input column is not
    modified, and in the failing case the only new object is the copy of
    the input. *)
Theorem impute_column_invalid_strategy (h : heap) r (v : Series) strategy :
  h !! r = Some (OSeries v) ->
  ((exists e, fst (clean.impute_column repr_number r strategy h) = Raise e)
   <-> ~ recognized v strategy) /\
  (forall e, fst (clean.impute_column repr_number r strategy h) = Raise e ->
             e = ValueError
                   ((if Ser.is_numeric_dtype v
                     then "Unknown numeric strategy: "
                     else "Unknown categorical strategy: ") +:+ strategy) /\
             snd (clean.impute_column repr_number r strategy h)
             = h ++ [OSeries v]) /\
  snd (clean.impute_column repr_number r strategy h) !! r = Some (OSeries v).
Proof.
  intros Hr. rewrite (impute_column_run repr_number h r v strategy Hr).
  pose proof (impute_value_raise repr_number v strategy) as Hiff.
  assert (Hlt : r < length h) by now apply lookup_lt_Some in Hr.
  destruct (impute_value repr_number v strategy) as [[v' i]|e] eqn:E; simpl.
  - split; [|split].
    + rewrite <- Hiff. split; intros [x Hx]; done.
    + intros x Hx. done.
    + now rewrite lookup_app_l.
  - split; [|split].
    + rewrite <- Hiff. split; eauto.
    + intros x Hx. inversion Hx; subst. split; [|done].
      assert (Hn : ~ recognized v strategy) by (apply Hiff; eauto).
      destruct v as [xs|os]; simpl in *.
      * unfold numeric_fill in E.
        destruct (String.eqb_spec strategy "median"); [tauto|].
        destruct (String.eqb_spec strategy "mean"); [tauto|].
        destruct (String.eqb_spec strategy "constant"); [tauto|].
        now inversion E.
      * unfold categorical_fill in E.
        destruct (String.eqb_spec strategy "mode"); [tauto|].
        destruct (String.eqb_spec strategy "constant"); [tauto|].
        now inversion E.
    + now rewrite lookup_app_l.
Qed.

(** C10. For a numeric column whose values are all missing,
    [impute_column] with "median" or "mean" computes the fill value NaN,
    returns a column in which every cell is still missing, and records
    [n_missing_after] equal to [n_missing_before]; the case is reached
    through [handle_missing_values] with a threshold of at least 1, which
    then returns the column as it was. *)
Theorem impute_column_all_missing (h : heap) r (xs : list float) strategy :
  h !! r = Some (OSeries (SFloat xs)) ->
  Forall (fun x => x = NaN) xs ->
  strategy = "median" \/ strategy = "mean" ->
  (exists r' i h',
     clean.impute_column repr_number r strategy h = (Ok (r', i), h') /\
     i !! "fill_value" = Some (VFloat NaN) /\
     h' !! r' = Some (OSeries (SFloat xs)) /\
     i !! "n_missing_before" = Some (VInt (Z.of_nat (length xs))) /\
     i !! "n_missing_after" = Some (VInt (Z.of_nat (length xs)))) /\
  (forall c threshold categorical_strategy,
     xs <> [] -> Float.le (Fin 1) threshold = true ->
     exists rep h',
       clean.handle_missing_values repr_number 0 threshold strategy
         categorical_strategy false [OFrame [(c, SFloat xs)]]
       = (Ok (1, rep), h') /\
       h' !! 1 = Some (OFrame [(c, SFloat xs)])).
Proof.
  intros Hr Hall Hs.
  assert (Hv : impute_value repr_number (SFloat xs) strategy
               = Ok (SFloat xs,
                     <["n_missing_after" := clean.n_missing (SFloat xs)]>
                       (<["fill_value" := VFloat NaN]>
                          (base_info (SFloat xs) strategy)))).
  { simpl. rewrite (all_nan_fill xs strategy Hall Hs). now rewrite ffillna_nan. }
  split.
  - rewrite (impute_column_run repr_number h r _ strategy Hr), Hv.
    eexists _, _, _. split; [reflexivity|].
    unfold clean.n_missing. rewrite (all_nan_missing xs Hall).
    split; [|split; [|split]].
    + rewrite lookup_insert_ne by done. apply lookup_insert_eq.
    + replace (h ++ [OSeries (SFloat xs); OSeries (SFloat xs)])
        with ((h ++ [OSeries (SFloat xs)]) ++ [OSeries (SFloat xs)])
        by now rewrite <- app_assoc.
      replace (S (length h)) with (length (h ++ [OSeries (SFloat xs)]))
        by (rewrite List.length_app; simpl; lia).
      apply lookup_fresh.
    + unfold base_info, clean.n_missing. rewrite (all_nan_missing xs Hall).
      do 2 (rewrite lookup_insert_ne by done). apply lookup_insert_eq.
    + now rewrite lookup_insert_eq.
  - intros c threshold cs Hne Hle.
    assert (Hrate : missing_rate (SFloat xs) = Fin 1).
    { unfold missing_rate, Ser.bmean. rewrite isna_length.
      rewrite (all_nan_missing xs Hall). simpl. apply ratio_self.
      now destruct xs. }
    assert (Hnd : NoDup (DF.columns [(c, SFloat xs)])).
    { simpl. apply NoDup_singleton. }
    pose proof (handle_missing_values_run repr_number
                  [OFrame [(c, SFloat xs)]] 0 [(c, SFloat xs)]
                  threshold strategy cs false eq_refl Hnd) as R.
    assert (Hgt : Float.gt (Fin 1) threshold = false).
    { destruct threshold as [|t|[]]; simpl in *; try done. now rewrite Hle. }
    unfold exceeding, rates_of in R. cbn [List.map List.filter fst snd] in R.
    rewrite Hrate, Hgt in R.
    cbn [impute_loop] in R. unfold column_step in R. rewrite Hrate, Hle in R.
    change (Float.eqb (Fin 1) Float.zero) with false in R.
    cbn [Ser.is_numeric_dtype impute_value] in R.
    rewrite (all_nan_fill xs strategy Hall Hs), ffillna_nan in R.
    destruct R as [g R]. simpl in R.
    eexists _, _. split; [exact R|reflexivity].
Qed.

End Claims.

(** ** Threshold boundary and pruning *)

Lemma float_eqb_le a b : Float.eqb a b = true -> Float.le a b = true.
Proof.
  destruct a as [|x|[]], b as [|y|[]]; simpl; try done.
  intros E. apply Qeq_bool_iff in E. apply Qle_bool_iff. rewrite E. apply Qle_refl.
Qed.

Lemma float_le_gt a b : Float.le a b = true -> Float.gt a b = false.
Proof. destruct a as [|x|[]], b as [|y|[]]; simpl; try done. now intros ->. Qed.

Lemma prune_elem allow_drop_constant (imp : DataFrame) (rep : report) c s i :
  NoDup (DF.columns imp) ->
  (c, s) ∈ imp ->
  rep !! c = Some i ->
  let out := prune allow_drop_constant (imp, rep) in
  (allow_drop_constant = true /\ is_constant s = true /\
   (c ∉ DF.columns (fst out)) /\
   snd out !! c = Some (<["dropped_constant" := VBool true]> i))
  \/
  ((allow_drop_constant = false \/ is_constant s = false) /\
   (c, s) ∈ fst out /\ snd out !! c = Some i).
Proof.
  intros Hnd Hin Hrep. unfold prune. destruct allow_drop_constant; simpl.
  - destruct (is_constant s) eqn:Ec.
    + left. assert (Hcc : c ∈ constant_cols imp)
        by now apply (elem_of_constant_cols imp c s).
      split; [done|]. split; [done|]. split.
      * rewrite columns_drop_elem. tauto.
      * rewrite (mark_dropped_lookup _ _ _ (NoDup_constant_cols imp Hnd) Hcc).
        now rewrite Hrep.
    + right. assert (Hcc : c ∉ constant_cols imp).
      { rewrite (elem_of_constant_cols imp c s Hnd Hin). now rewrite Ec. }
      split; [now right|]. split.
      * now apply elem_of_drop.
      * now rewrite mark_dropped_other.
  - right. split; [now left|done].
Qed.

Section Boundary.

Variable repr_number : Q -> string.
Context {fp : Arithmetic}.

(** C2. A column whose missing rate equals the threshold is never among
    the rejected columns; when no column is above the threshold there is
    no rejection, and on success the column has gone through imputation:
    its report entry and its cells are those [impute_column] produces
    for its type's strategy (the no-op entry when the rate is 0), up to
    the pruning of constant columns.  A column whose rate is above the
    threshold makes the call raise TooManyMissingError with that column
    in the payload. *)
Theorem threshold_boundary
    (h : heap) r (df : DataFrame) threshold
    numeric_strategy categorical_strategy allow_drop_constant c s :
  h !! r = Some (OFrame df) ->
  NoDup (DF.columns df) ->
  (c, s) ∈ df ->
  (Float.eqb (missing_rate s) threshold = true ->
     (forall payload h',
        clean.handle_missing_values repr_number r threshold numeric_strategy
          categorical_strategy allow_drop_constant h
        = (Raise (TooManyMissingError payload), h') ->
        forall p, (c, p) ∉ payload) /\
     ((forall c' s', (c', s') ∈ df ->
                     Float.gt (missing_rate s') threshold = false) ->
      (forall payload h',
         clean.handle_missing_values repr_number r threshold numeric_strategy
           categorical_strategy allow_drop_constant h
         <> (Raise (TooManyMissingError payload), h')) /\
      (forall r' rep h',
         clean.handle_missing_values repr_number r threshold numeric_strategy
           categorical_strategy allow_drop_constant h
         = (Ok (r', rep), h') ->
         exists s' i out,
           (Float.eqb (missing_rate s) Float.zero = true /\
            s' = s /\ i = clean.no_missing_info
            \/
            Float.eqb (missing_rate s) Float.zero = false /\
            impute_value repr_number s
              (if Ser.is_numeric_dtype s
               then numeric_strategy else categorical_strategy)
            = Ok (s', i)) /\
           h' !! r' = Some (OFrame out) /\
           ((c, s') ∈ out /\ rep !! c = Some i
            \/
            allow_drop_constant = true /\ Ser.nunique s' <= 1 /\
            (c ∉ DF.columns out) /\
            rep !! c = Some (<["dropped_constant" := VBool true]> i))))) /\
  (Float.gt (missing_rate s) threshold = true ->
     exists payload,
       clean.handle_missing_values repr_number r threshold numeric_strategy
         categorical_strategy allow_drop_constant h
       = (Raise (TooManyMissingError payload), h ++ [OFrame df]) /\
       (c, missing_rate s) ∈ payload).
Proof.
  intros Hr Hnd Hin.
  pose proof (handle_missing_values_run repr_number h r df threshold
                numeric_strategy categorical_strategy allow_drop_constant
                Hr Hnd) as R.
  assert (Hpay : forall c p, (c, p) ∈ exceeding threshold df <->
                   (exists s, (c, s) ∈ df /\ p = missing_rate s) /\
                   Float.gt p threshold = true).
  { intros c' p. unfold exceeding, rates_of.
    rewrite list_elem_of_In, List.filter_In, in_map_iff. simpl. split.
    - intros [([c'' s'] & E & Hin') Hgt]. simpl in E. inversion E; subst.
      split; [|done]. exists s'. split; [now apply list_elem_of_In|done].
    - intros [(s' & Hin' & ->) Hgt]. split; [|done].
      exists (c', s'). split; [done|]. now apply list_elem_of_In. }
  assert (Hloop : forall e,
            impute_loop repr_number threshold numeric_strategy
              categorical_strategy df ∅ = Raise e ->
            exists msg, e = ValueError msg).
  { intros e He. apply impute_loop_raise in He as (c' & s' & st & _ & He).
    eapply impute_value_raise_kind, He. }
  split.
  - intros Heq.
    assert (Hle := float_eqb_le _ _ Heq).
    assert (Hgt := float_le_gt _ _ Hle).
    split.
    + intros payload h' Hrun p Hp.
      destruct (exceeding threshold df) as [|x xs] eqn:E.
      * destruct (impute_loop _ _ _ _ df ∅) as [q|e] eqn:El.
        -- destruct R as [g R]. rewrite R in Hrun. done.
        -- destruct R as (cur & g & R). rewrite R in Hrun.
           destruct (Hloop e eq_refl) as [msg ->]. done.
      * rewrite R in Hrun. inversion Hrun; subst.
        apply Hpay in Hp as [(s' & Hin' & ->) Hgt'].
        rewrite (NoDup_columns_functional df c s s' Hnd Hin Hin') in Hgt.
        congruence.
    + intros Hnone.
      assert (E : exceeding threshold df = []).
      { destruct (exceeding threshold df) as [|[c' p] xs] eqn:E; [done|].
        assert (Hx : (c', p) ∈ (c', p) :: xs) by now left.
        apply Hpay in Hx as [(s' & Hin' & ->) Hgt'].
        rewrite (Hnone c' s' Hin') in Hgt'. done. }
      rewrite E in R.
      destruct (impute_loop _ _ _ _ df ∅) as [[imp rep0]|e] eqn:El.
      * destruct R as [g R]. split; [intros payload h'; now rewrite R|].
        intros r' rep h' Hrun. rewrite R in Hrun. inversion Hrun; subst.
        destruct (impute_loop_elem _ _ _ _ _ _ _ _ c s El Hnd Hin)
          as (s' & i & Hstep & Hm & Hl).
        assert (Hnd' : NoDup (DF.columns imp)).
        { now rewrite (impute_loop_columns _ _ _ _ _ _ _ _ El). }
        exists s', i, (fst (prune allow_drop_constant (imp, rep0))).
        split; [|split; [apply lookup_work|]].
        -- unfold column_step in Hstep.
           destruct (Float.eqb (missing_rate s) Float.zero).
           ++ inversion Hstep; subst. now left.
           ++ rewrite Hle in Hstep. now right.
        -- destruct (prune_elem allow_drop_constant imp rep0 c s' i Hnd' Hm Hl)
             as [(Ha & Hc & Hout & Hrep)|(_ & Hout & Hrep)].
           ++ right. split; [done|]. split; [|done].
              unfold is_constant in Hc. now apply Nat.leb_le.
           ++ now left.
      * destruct R as (cur & g & R). destruct (Hloop e eq_refl) as [msg ->].
        split; [intros payload h'; now rewrite R|].
        intros r' rep h' Hrun. now rewrite R in Hrun.
  - intros Hgt.
    assert (Hx : (c, missing_rate s) ∈ exceeding threshold df).
    { apply Hpay. split; [eauto|done]. }
    exists (exceeding threshold df). split; [|done].
    destruct (exceeding threshold df) as [|x xs]; [inversion Hx|exact R].
Qed.

(** C9. With [allow_drop_constant] enabled the returned table is the
    imputed table (what the call returns with the option disabled)
    without the columns that have at most one distinct non-missing
    value, and no other column is removed; the report entry of each
    dropped column is its entry from the imputation extended with
    [dropped_constant = True] (an empty entry would be created if there
    were none); the entries of the other columns are unchanged. *)
Theorem drop_constant_columns
    (h : heap) r (df : DataFrame) threshold
    numeric_strategy categorical_strategy r1 rep1 h1 imp :
  h !! r = Some (OFrame df) ->
  NoDup (DF.columns df) ->
  clean.handle_missing_values repr_number r threshold numeric_strategy
    categorical_strategy false h = (Ok (r1, rep1), h1) ->
  h1 !! r1 = Some (OFrame imp) ->
  exists r2 rep2 h2 out,
    clean.handle_missing_values repr_number r threshold numeric_strategy
      categorical_strategy true h = (Ok (r2, rep2), h2) /\
    h2 !! r2 = Some (OFrame out) /\
    out = List.filter (fun cs => negb (Ser.nunique (snd cs) <=? 1)) imp /\
    (forall c s, (c, s) ∈ imp -> Ser.nunique s <= 1 ->
       (c ∉ DF.columns out) /\
       rep2 !! c = Some (<["dropped_constant" := VBool true]>
                           (default ∅ (rep1 !! c)))) /\
    (forall c s, (c, s) ∈ imp -> 1 < Ser.nunique s ->
       (c, s) ∈ out /\ rep2 !! c = rep1 !! c).
Proof.
  intros Hr Hnd Hrun1 Himp.
  pose proof (handle_missing_values_run repr_number h r df threshold
                numeric_strategy categorical_strategy false Hr Hnd) as R1.
  pose proof (handle_missing_values_run repr_number h r df threshold
                numeric_strategy categorical_strategy true Hr Hnd) as R2.
  destruct (exceeding threshold df) as [|x xs]; [|now rewrite R1 in Hrun1].
  destruct (impute_loop _ _ _ _ df ∅) as [[imp0 rep0]|e] eqn:El.
  2:{ destruct R1 as (cur & g & R1). now rewrite R1 in Hrun1. }
  destruct R1 as [g1 R1]. destruct R2 as [g2 R2].
  rewrite R1 in Hrun1. simpl in Hrun1. inversion Hrun1; subst.
  rewrite lookup_work in Himp. inversion Himp; subst.
  assert (Hnd' : NoDup (DF.columns imp)).
  { now rewrite (impute_loop_columns _ _ _ _ _ _ _ _ El). }
  eexists _, _, _, _. split; [exact R2|]. split; [apply lookup_work|].
  simpl. split; [|split].
  - clear -Hnd'. unfold DF.drop.
    induction imp as [|[c s] imp IH]; [done|].
    apply NoDup_cons in Hnd' as [Hc Hnd]. simpl.
    assert (Hcc : constant_cols ((c, s) :: imp)
                  = if is_constant s then c :: constant_cols imp
                    else constant_cols imp).
    { unfold constant_cols. simpl. now destruct (is_constant s). }
    assert (Hrest : List.filter
                      (fun p => negb (DF.mem (fst p) (constant_cols ((c, s) :: imp)))) imp
                    = List.filter
                        (fun p => negb (DF.mem (fst p) (constant_cols imp))) imp).
    { apply filter_ext_in. intros [c' s'] Hin'. simpl. rewrite Hcc.
      destruct (is_constant s); [|done]. simpl.
      destruct (String.eqb_spec c' c) as [->|]; [|done].
      exfalso. apply Hc, elem_of_columns. exists s'. now apply list_elem_of_In. }
    rewrite Hrest, (IH Hnd). fold (is_constant s). rewrite Hcc.
    destruct (is_constant s) eqn:Ec; simpl.
    + now rewrite String.eqb_refl.
    + assert (Hm : DF.mem c (constant_cols imp) = false).
      { apply mem_false_iff. intros Hcin. apply Hc.
        now apply constant_cols_sub. }
      now rewrite Hm.
  - intros c s Hin Hle.
    assert (Hcc : c ∈ constant_cols imp).
    { apply (elem_of_constant_cols imp c s Hnd' Hin). now apply Nat.leb_le. }
    split.
    + rewrite columns_drop_elem. tauto.
    + now apply mark_dropped_lookup; [apply NoDup_constant_cols|].
  - intros c s Hin Hlt.
    assert (Hcc : c ∉ constant_cols imp).
    { rewrite (elem_of_constant_cols imp c s Hnd' Hin).
      unfold is_constant. intros Hle. apply Nat.leb_le in Hle. lia. }
    split.
    + now apply elem_of_drop.
    + now apply mark_dropped_other.
Qed.

End Boundary.

(** ** The median *)

Lemma float_le_notnan a b :
  Float.le a b = true -> Float.isnan a = false /\ Float.isnan b = false.
Proof. destruct a as [|x|[]], b as [|y|[]]; simpl; done. Qed.

Lemma float_le_refl a : Float.isnan a = false -> Float.le a a = true.
Proof.
  destruct a as [|x|[]]; simpl; try done. intros _.
  apply Qle_bool_iff, Qle_refl.
Qed.

Lemma float_le_total a b :
  Float.isnan a = false -> Float.isnan b = false ->
  Float.le a b = false -> Float.le b a = true.
Proof.
  destruct a as [|x|[]], b as [|y|[]]; simpl; try done.
  intros _ _ E. apply Qle_bool_iff. apply Qlt_le_weak, Qnot_le_lt.
  intros H. apply Qle_bool_iff in H. congruence.
Qed.

Lemma float_le_trans a b c :
  Float.le a b = true -> Float.le b c = true -> Float.le a c = true.
Proof.
  destruct a as [|x|[]], b as [|y|[]], c as [|z|[]]; simpl; try done.
  rewrite !Qle_bool_iff. apply Qle_trans.
Qed.

Lemma fdropna_In (xs : list float) x :
  In x (Ser.fdropna xs) <-> In x xs /\ Float.isnan x = false.
Proof. unfold Ser.fdropna. rewrite List.filter_In, negb_true_iff. tauto. Qed.

Lemma fdropna_notnan (xs : list float) :
  Forall (fun x => Float.isnan x = false) (Ser.fdropna xs).
Proof. apply List.Forall_forall. intros x Hx. now apply fdropna_In in Hx. Qed.

Lemma insert_sorted_filter_length {A} (leb : A -> A -> bool) (f : A -> bool)
    x (l : list A) :
  length (List.filter f (Ser.insert_sorted leb x l))
  = length (List.filter f (x :: l)).
Proof.
  induction l as [|y l IH]; [done|]. simpl in *.
  destruct (leb x y); [done|]. simpl.
  destruct (f y), (f x); simpl in *; lia.
Qed.

Lemma sort_filter_length {A} (leb : A -> A -> bool) (f : A -> bool) (l : list A) :
  length (List.filter f (Ser.sort leb l)) = length (List.filter f l).
Proof.
  induction l as [|x l IH]; [done|]. simpl Ser.sort.
  rewrite insert_sorted_filter_length. simpl. destruct (f x); simpl; lia.
Qed.

Lemma sort_length {A} (leb : A -> A -> bool) (l : list A) :
  length (Ser.sort leb l) = length l.
Proof.
  pose proof (sort_filter_length leb (fun _ => true) l) as H.
  assert (E : forall l : list A, List.filter (fun _ => true) l = l).
  { intros l'. induction l' as [|? ? IH]; simpl; [done|now rewrite IH]. }
  now rewrite !E in H.
Qed.

Section Sorted.

Local Abbreviation fle := (fun a b : float => Float.le a b = true).
Local Abbreviation known := (fun a : float => Float.isnan a = false).

Lemma insert_sorted_sorted x (l : list float) :
  known x -> Forall known l ->
  StronglySorted fle l -> StronglySorted fle (Ser.insert_sorted Float.le x l).
Proof.
  intros Hx Hl Hs. induction Hs as [|y l Hs IH Hall]; simpl.
  - repeat constructor.
  - apply Forall_cons in Hl as [Hy Hl].
    destruct (Float.le x y) eqn:E.
    + constructor; [now constructor|]. constructor; [done|].
      eapply Forall_impl; [exact Hall|]. intros z Hz. simpl in Hz.
      eapply float_le_trans; eauto.
    + apply (float_le_total x y Hx Hy) in E. constructor; [now apply IH|].
      apply List.Forall_forall. intros z Hz.
      apply insert_sorted_In in Hz as [->|Hz]; [done|].
      rewrite List.Forall_forall in Hall. now apply Hall.
Qed.

Lemma sort_known (l : list float) :
  Forall known l -> Forall known (Ser.sort Float.le l).
Proof.
  intros Hl. apply List.Forall_forall. intros x Hx.
  apply sort_In in Hx. rewrite List.Forall_forall in Hl. now apply Hl.
Qed.

Lemma sort_sorted (l : list float) :
  Forall known l -> StronglySorted fle (Ser.sort Float.le l).
Proof.
  induction l as [|x l IH]; simpl; [constructor|].
  intros Hl. apply Forall_cons in Hl as [Hx Hl].
  apply insert_sorted_sorted; [done|now apply sort_known|now apply IH].
Qed.

Lemma sorted_count_le (v : list float) k m :
  StronglySorted fle v -> k < length v -> Float.le (nth k v NaN) m = true ->
  S k <= length (List.filter (fun x => Float.le x m) v).
Proof.
  intros Hs. revert k. induction Hs as [|a v Hs IH Hall]; intros k Hk Hm; simpl in *.
  - lia.
  - rewrite List.Forall_forall in Hall.
    assert (Ha : Float.le a m = true).
    { destruct k as [|k]; [done|].
      eapply float_le_trans; [|exact Hm]. apply Hall, nth_In. lia. }
    rewrite Ha. simpl. destruct k as [|k]; [lia|].
    specialize (IH k ltac:(lia) Hm). lia.
Qed.

Lemma sorted_count_ge (v : list float) k m :
  StronglySorted fle v -> k < length v -> Float.le m (nth k v NaN) = true ->
  length v - k <= length (List.filter (fun x => Float.le m x) v).
Proof.
  intros Hs. revert k. induction Hs as [|a v Hs IH Hall]; intros k Hk Hm; simpl in *.
  - lia.
  - destruct k as [|k].
    + assert (Hfull : forall w : list float, Forall (fle m) w ->
                length (List.filter (fun x => Float.le m x) w) = length w).
      { induction 1 as [|z w Hz _ IHw]; simpl; [done|].
        rewrite Hz. simpl. now rewrite IHw. }
      rewrite Hm. simpl. rewrite Hfull; [lia|].
      eapply Forall_impl; [exact Hall|]. intros z Hz. simpl in Hz.
      eapply float_le_trans; eauto.
    + specialize (IH k ltac:(lia) Hm).
      destruct (Float.le m a); simpl; lia.
Qed.

Lemma sorted_nth_le (v : list float) i j :
  Forall known v -> StronglySorted fle v -> i <= j -> j < length v ->
  Float.le (nth i v NaN) (nth j v NaN) = true.
Proof.
  intros Hv Hs. revert i j.
  induction Hs as [|a v Hs IH Hall]; intros i j Hij Hj; simpl in *.
  - lia.
  - apply Forall_cons in Hv as [Ha Hv].
    destruct i as [|i], j as [|j]; try lia.
    + now apply float_le_refl.
    + rewrite List.Forall_forall in Hall. apply Hall, nth_In. lia.
    + apply IH; [done|lia|lia].
Qed.

End Sorted.

Section Median.

Context {fp : Arithmetic}.

Lemma rounded_notnan (q : Q) : Float.isnan (Float.rounded q) = false.
Proof. unfold Float.rounded. now destruct (Float.round_number q). Qed.

(** The midpoint of two values [a <= b] is missing exactly when they are
    [-inf] and [+inf]. *)
Lemma midpoint_nan (a b : float) :
  Float.le a b = true ->
  Float.isnan (Float.midpoint a b) = true <-> a = Inf true /\ b = Inf false.
Proof.
  unfold Float.midpoint, Float.halve, Float.add.
  destruct a as [|x|[]], b as [|y|[]]; simpl; try done; intros _;
    (split; [|intros [? ?]; congruence]); try done.
  pose proof (rounded_notnan (x + y)) as H.
  destruct (Float.rounded (x + y)) as [|z|[]]; simpl in *; try done.
  now rewrite rounded_notnan.
Qed.

(** The two middle values [lo <= hi] of a column with a value (the same
    value twice for an odd count): every value between them is a median,
    and [fmedian] is the middle value or their float64 midpoint. *)
Lemma fmedian_spec (xs : list float) :
  Ser.fdropna xs <> [] ->
  exists lo hi,
    In lo (Ser.fdropna xs) /\ In hi (Ser.fdropna xs) /\
    Float.le lo hi = true /\
    (forall m, Float.le lo m = true -> Float.le m hi = true ->
               is_median m (Ser.fdropna xs)) /\
    (Nat.odd (length (Ser.fdropna xs)) = true ->
     Ser.fmedian xs = lo /\ lo = hi) /\
    (Nat.odd (length (Ser.fdropna xs)) = false ->
     Ser.fmedian xs = Float.midpoint lo hi).
Proof.
  intros Hne. unfold Ser.fmedian.
  set (l := Ser.fdropna xs) in *. set (v := Ser.sort Float.le l).
  assert (Hl : Forall (fun a => Float.isnan a = false) l) by apply fdropna_notnan.
  assert (Hlen : length v = length l) by apply sort_length.
  assert (Hv : Forall (fun a => Float.isnan a = false) v) by now apply sort_known.
  assert (Hs : StronglySorted (fun a b => Float.le a b = true) v)
    by now apply sort_sorted.
  assert (Hpos : 0 < length l) by (destruct l; simpl; [done|lia]).
  assert (Hin : forall k, k < length v -> In (nth k v NaN) l).
  { intros k Hk. apply (sort_In Float.le). now apply nth_In. }
  assert (Hred : forall m,
            length v <= 2 * length (List.filter (fun x => Float.le x m) v) ->
            length v <= 2 * length (List.filter (fun x => Float.le m x) v) ->
            is_median m l).
  { intros m H1 H2. unfold is_median.
    rewrite <- (sort_filter_length Float.le (fun x => Float.le x m) l).
    rewrite <- (sort_filter_length Float.le (fun x => Float.le m x) l).
    fold v. now rewrite <- Hlen. }
  rewrite <- Hlen.
  destruct (Nat.eqb_spec (length v) 0) as [E0|_]; [lia|].
  destruct (Nat.odd (length v)) eqn:Eodd.
  - apply Nat.odd_spec in Eodd as [k Ek].
    assert (Hk : length v / 2 = k)
      by (symmetry; apply (Nat.div_unique (length v) 2 k 1); lia).
    rewrite Hk. exists (nth k v NaN), (nth k v NaN).
    split; [apply Hin; lia|]. split; [apply Hin; lia|].
    split; [apply sorted_nth_le; [done|done|lia|lia]|].
    split; [|split; [done|done]].
    intros m Hlo Hhi. apply Hred.
    + pose proof (sorted_count_le v k m Hs ltac:(lia) Hlo). lia.
    + pose proof (sorted_count_ge v k m Hs ltac:(lia) Hhi). lia.
  - assert (Heven : Nat.even (length v) = true).
    { rewrite <- Nat.negb_odd. now rewrite Eodd. }
    apply Nat.even_spec in Heven as [k Ek].
    assert (Hk : length v / 2 = k)
      by (symmetry; apply (Nat.div_unique (length v) 2 k 0); lia).
    rewrite Hk. exists (nth (k - 1) v NaN), (nth k v NaN).
    split; [apply Hin; lia|]. split; [apply Hin; lia|].
    split; [apply sorted_nth_le; [done|done|lia|lia]|].
    split; [|split; [done|done]].
    intros m Hlo Hhi. apply Hred.
    + pose proof (sorted_count_le v (k - 1) m Hs ltac:(lia) Hlo). lia.
    + pose proof (sorted_count_ge v k m Hs ltac:(lia) Hhi). lia.
Qed.

(** [s.median()] is missing exactly when the column has no value or its
    two middle values are [-inf] and [+inf]. *)
Lemma fmedian_nan (xs : list float) :
  Ser.fdropna xs <> [] ->
  Forall (fun x => Float.isinf x = false) xs ->
  Float.isnan (Ser.fmedian xs) = false.
Proof.
  intros Hne Hfin.
  destruct (fmedian_spec xs Hne) as (lo & hi & Hlo & Hhi & Hle & _ & Hodd & Heven).
  destruct (Nat.odd (length (Ser.fdropna xs))).
  - destruct (Hodd eq_refl) as [-> _]. now apply fdropna_In in Hlo.
  - rewrite (Heven eq_refl).
    destruct (Float.isnan (Float.midpoint lo hi)) eqn:E; [|done].
    apply (midpoint_nan lo hi Hle) in E as [-> _].
    apply fdropna_In in Hlo as [Hlo _].
    rewrite List.Forall_forall in Hfin. now apply Hfin in Hlo.
Qed.

End Median.

Lemma ffillna_no_missing (xs : list float) (fill : float) :
  Float.isnan fill = false ->
  Ser.bsum (Ser.isna (SFloat (Ser.ffillna fill xs))) = 0.
Proof.
  intros Hfill. unfold Ser.bsum, Ser.isna, Ser.ffillna. simpl.
  induction xs as [|x xs IH]; simpl; [done|].
  destruct x as [|q|[]]; simpl; try done. now destruct fill as [|q|[]].
Qed.

(** ** Filling one column *)

Lemma lookup_second (h : heap) (a b : object) :
  (h ++ [a; b]) !! S (length h) = Some b.
Proof.
  replace (h ++ [a; b]) with ((h ++ [a]) ++ [b]) by now rewrite <- app_assoc.
  replace (S (length h)) with (length (h ++ [a]))
    by (rewrite List.length_app; simpl; lia).
  apply lookup_fresh.
Qed.

Lemma astype_str_no_missing (repr_number : Q -> string) (os : list obj) :
  Ser.bsum (Ser.isna (SObject (clean.astype_str repr_number os))) = 0.
Proof.
  unfold Ser.bsum, Ser.isna, clean.astype_str. simpl.
  induction os as [|o os IH]; simpl; done.
Qed.

Section Filling.

Variable repr_number : Q -> string.
Context {fp : Arithmetic}.



(** C7. On a categorical column, [impute_column] with "mode" fills the
    missing cells with one value: the literal "missing" when the column
    has no non-missing value, and otherwise a non-missing value of the
    column that no other value outnumbers; the returned column is the
    filled column converted to text, so each of its cells is a string and
    none is missing. *)
Theorem impute_column_mode (h : heap) r (os : list obj) :
  h !! r = Some (OSeries (SObject os)) ->
  exists r' i h' fill,
    clean.impute_column repr_number r "mode" h = (Ok (r', i), h') /\
    h' !! r' = Some (OSeries (SObject
                 (List.map (fun o => OStr (clean.str_of_obj repr_number
                                             (if Ser.obj_isna o then fill else o)))
                           os))) /\
    i !! "fill_value" = Some (VStr (clean.str_of_obj repr_number fill)) /\
    i !! "n_missing_after" = Some (VInt 0) /\
    (Ser.dropna os = [] -> fill = OStr "missing") /\
    (Ser.dropna os <> [] ->
     fill ∈ os /\ Ser.obj_isna fill = false /\
     forall v, Ser.obj_isna v = false -> Ser.count v os <= Ser.count fill os) /\
    (forall v, h' !! r' = Some (OSeries v) ->
               Ser.is_object_dtype v = true /\
               Forall (fun o => Ser.obj_is_str o = true) (Ser.cells v)).
Proof.
  intros Hr. rewrite (impute_column_run repr_number h r _ "mode" Hr).
  assert (Hfill : exists fill,
             categorical_fill "mode" os = Ok fill /\
             (Ser.dropna os = [] -> fill = OStr "missing") /\
             (Ser.dropna os <> [] ->
              fill ∈ os /\ Ser.obj_isna fill = false /\
              forall v, Ser.obj_isna v = false ->
                        Ser.count v os <= Ser.count fill os)).
  { unfold categorical_fill. simpl.
    destruct (Ser.dropna os) as [|o l] eqn:Ed; simpl.
    - exists (OStr "missing"). split; [done|]. split; done.
    - assert (Hne : Ser.mode os <> []) by (apply mode_nonempty; now rewrite Ed).
      destruct (Ser.mode os) as [|m ms] eqn:Em; [done|].
      exists m. split; [done|]. split; [done|]. intros _.
      destruct (mode_spec os m) as (Hin & Hna & Hmax).
      { rewrite Em. now left. }
      split; [now apply list_elem_of_In|]. split; done. }
  destruct Hfill as (fill & Ef & Hnone & Hsome).
  unfold impute_value. rewrite Ef.
  eexists _, _, _, fill. split; [reflexivity|].
  assert (Hcells : clean.astype_str repr_number (Ser.ofillna fill os)
                   = List.map (fun o => OStr (clean.str_of_obj repr_number
                                  (if Ser.obj_isna o then fill else o))) os).
  { unfold clean.astype_str, Ser.ofillna. now rewrite List.map_map. }
  split; [|split; [|split; [|split; [|split]]]].
  - rewrite lookup_second. now rewrite Hcells.
  - rewrite lookup_insert_ne by done. apply lookup_insert_eq.
  - rewrite lookup_insert_eq. unfold clean.n_missing.
    now rewrite astype_str_no_missing.
  - exact Hnone.
  - exact Hsome.
  - intros v Hv. rewrite lookup_second in Hv. inversion Hv; subst.
    split; [done|].
    simpl. unfold clean.astype_str. apply List.Forall_forall.
    intros o Ho. apply in_map_iff in Ho as (x & <- & _). done.
Qed.

End Filling.

(** ** Label normalization is idempotent *)

Module LabelFacts.

Import PyStr.

Lemma norm_char_space c : is_space c = false -> is_space (norm_char c) = false.
Proof. destruct c as [[] [] [] [] [] [] [] []]; vm_compute; congruence. Qed.

Lemma norm_char_idem c : norm_char (norm_char c) = norm_char c.
Proof. destruct c as [[] [] [] [] [] [] [] []]; reflexivity. Qed.

Lemma lstrip_starts_clean l : starts_clean (lstrip l).
Proof.
  induction l as [|c l IH]; simpl; [done|].
  destruct (is_space c) eqn:E; [done|]. simpl. exact E.
Qed.

Lemma lstrip_id l : starts_clean l -> lstrip l = l.
Proof. destruct l as [|c l]; simpl; [done|]. now intros ->. Qed.

Lemma lstrip_suffix l : exists pre, l = pre ++ lstrip l.
Proof.
  induction l as [|c l [pre IH]]; simpl; [now exists []|].
  destruct (is_space c); [|now exists []].
  exists (c :: pre). simpl. now f_equal.
Qed.

Lemma rstrip_id l : starts_clean (rev l) -> rstrip l = l.
Proof. intros H. unfold rstrip. rewrite lstrip_id by done. apply rev_involutive. Qed.

Lemma starts_clean_app_l (a b : list ascii) :
  starts_clean (a ++ b) -> a <> [] -> starts_clean a.
Proof. destruct a; simpl; done. Qed.

(** A stripped string starts and ends with a character that is not a
    space. *)
Lemma strip_chars_clean l :
  starts_clean (strip_chars l) /\ starts_clean (rev (strip_chars l)).
Proof.
  unfold strip_chars, rstrip. set (x := lstrip l).
  assert (Hx : starts_clean x) by apply lstrip_starts_clean.
  rewrite rev_involutive. split; [|apply lstrip_starts_clean].
  destruct (lstrip_suffix (rev x)) as [pre E].
  assert (Ex : x = rev (lstrip (rev x)) ++ rev pre).
  { rewrite <- rev_app_distr, <- E. now rewrite rev_involutive. }
  destruct (rev (lstrip (rev x))) as [|c t] eqn:Er; [done|].
  rewrite Ex in Hx. exact Hx.
Qed.

Lemma starts_clean_map l :
  starts_clean l -> starts_clean (List.map norm_char l).
Proof. destruct l as [|c l]; simpl; [done|]. apply norm_char_space. Qed.

Lemma norm_chars_idem l : norm_chars (norm_chars l) = norm_chars l.
Proof.
  unfold norm_chars. destruct (strip_chars_clean l) as [Hl Hr].
  set (x := strip_chars l) in *.
  assert (Es : strip_chars (List.map norm_char x) = List.map norm_char x).
  { unfold strip_chars. rewrite (lstrip_id _ (starts_clean_map _ Hl)).
    apply rstrip_id. rewrite <- List.map_rev. now apply starts_clean_map. }
  rewrite Es, List.map_map. apply List.map_ext. intros c. apply norm_char_idem.
Qed.

Lemma normalize_label_chars (c : string) :
  clean.normalize_label c
  = string_of_list_ascii (norm_chars (list_ascii_of_string c)).
Proof.
  unfold clean.normalize_label, replace_space_underscore, lower, strip, on_chars.
  rewrite !list_ascii_of_string_of_list_ascii. f_equal.
  unfold norm_chars, replace_char. rewrite List.map_map. reflexivity.
Qed.

Lemma normalize_label_idem (c : string) :
  clean.normalize_label (clean.normalize_label c) = clean.normalize_label c.
Proof.
  rewrite !normalize_label_chars, list_ascii_of_string_of_list_ascii.
  now rewrite norm_chars_idem.
Qed.

End LabelFacts.

(** ** Dropping duplicate rows *)

Lemma select_map {A B} (f : A -> B) (mask : list bool) (l : list A) :
  DF.select mask (List.map f l) = List.map f (DF.select mask l).
Proof.
  revert l. induction mask as [|b mask IH]; intros [|x l]; simpl; try done.
  destruct b; simpl; now rewrite IH.
Qed.

Lemma select_length {A} (mask : list bool) (l : list A) :
  length l = length mask -> length (DF.select mask l) = Ser.bsum mask.
Proof.
  unfold Ser.bsum. revert l.
  induction mask as [|b mask IH]; intros [|x l]; simpl; try done.
  intros E. destruct b; simpl; rewrite IH; lia.
Qed.

Lemma select_all {A} (l : list A) :
  DF.select (List.map negb (repeat false (length l))) l = l.
Proof. induction l as [|x l IH]; simpl; [done|]. now rewrite IH. Qed.

Lemma cells_select (mask : list bool) (s : Series) :
  Ser.cells (DF.select_series mask s) = DF.select mask (Ser.cells s).
Proof. destruct s; simpl; [|done]. now rewrite select_map. Qed.

Lemma len_cells (s : Series) : length (Ser.cells s) = Ser.len s.
Proof. destruct s; simpl; [apply length_map|done]. Qed.

Lemma rows_of_succ n (cols : list (list obj)) :
  rows_of (S n) cols
  = List.map (hd ONa) cols :: rows_of n (List.map (@tl obj) cols).
Proof.
  unfold rows_of. simpl. f_equal.
  - apply List.map_ext. now intros [|x c].
  - rewrite <- seq_shift, List.map_map. apply List.map_ext. intros i.
    rewrite List.map_map. apply List.map_ext.
    intros [|x c]; [now destruct i|done].
Qed.

Lemma rows_of_select (mask : list bool) (cols : list (list obj)) :
  Forall (fun c => length c = length mask) cols ->
  rows_of (Ser.bsum mask) (List.map (DF.select mask) cols)
  = DF.select mask (rows_of (length mask) cols).
Proof.
  revert cols. induction mask as [|b mask IH]; intros cols Hall.
  - reflexivity.
  - assert (Htl : Forall (fun c => length c = length mask) (List.map (@tl obj) cols)).
    { apply List.Forall_forall. intros c Hc.
      apply in_map_iff in Hc as (c' & <- & Hc').
      rewrite List.Forall_forall in Hall. specialize (Hall c' Hc').
      destruct c'; simpl in *; lia. }
    assert (Hcons : forall c, In c cols -> c = hd ONa c :: tl c).
    { intros c Hc. rewrite List.Forall_forall in Hall. specialize (Hall c Hc).
      destruct c; simpl in *; [lia|done]. }
    simpl length. rewrite rows_of_succ. specialize (IH _ Htl).
    destruct b.
    + change (Ser.bsum (true :: mask)) with (S (Ser.bsum mask)).
      rewrite rows_of_succ. simpl DF.select. f_equal.
      * rewrite List.map_map. apply map_ext_in. intros c Hc.
        now rewrite (Hcons c Hc).
      * rewrite <- IH. f_equal. rewrite !List.map_map. apply map_ext_in.
        intros c Hc. now rewrite (Hcons c Hc) at 1.
    + change (Ser.bsum (false :: mask)) with (Ser.bsum mask).
      simpl DF.select. rewrite <- IH. f_equal. rewrite List.map_map.
      apply map_ext_in. intros c Hc. now rewrite (Hcons c Hc) at 1.
Qed.

Lemma rows_cells (df : DataFrame) :
  DF.rows df = rows_of (DF.nrows df) (cells_of df).
Proof.
  unfold DF.rows, rows_of, DF.row, cells_of. apply List.map_ext. intros i.
  now rewrite List.map_map.
Qed.

Lemma select_dedup (seen rs : list (list obj)) :
  DF.select (List.map negb (DF.duplicated_from seen rs)) rs = dedup_from seen rs.
Proof.
  revert seen. induction rs as [|r rs IH]; intros seen; simpl; [done|].
  destruct (existsb (DF.row_eqb r) seen); simpl; now rewrite IH.
Qed.

Lemma duplicated_from_length (seen rs : list (list obj)) :
  length (DF.duplicated_from seen rs) = length rs.
Proof.
  revert seen. induction rs as [|r rs IH]; intros seen; simpl; [done|].
  now rewrite IH.
Qed.

Lemma row_eqb_sym r1 r2 : DF.row_eqb r1 r2 = DF.row_eqb r2 r1.
Proof.
  revert r2. induction r1 as [|a r1 IH]; intros [|b r2]; simpl; try done.
  now rewrite obj_eqb_sym, IH.
Qed.

Lemma row_eqb_trans r1 r2 r3 :
  DF.row_eqb r1 r2 = true -> DF.row_eqb r2 r3 = true -> DF.row_eqb r1 r3 = true.
Proof.
  revert r2 r3. induction r1 as [|a r1 IH]; intros [|b r2] [|c r3]; simpl; try done.
  rewrite !andb_true_iff. intros [E1 H1] [E2 H2]. split.
  - eapply obj_eqb_trans; eauto.
  - eapply IH; eauto.
Qed.

Lemma row_eqb_refl r : DF.row_eqb r r = true.
Proof. induction r as [|a r IH]; simpl; [done|]. now rewrite obj_eqb_refl. Qed.

(** Rows kept by [dedup_from] are not duplicates of each other nor of the
    rows already seen. *)
Lemma duplicated_dedup (seen seen' rs : list (list obj)) :
  (forall s', In s' seen' -> exists s, In s seen /\ DF.row_eqb s' s = true) ->
  DF.duplicated_from seen' (dedup_from seen rs)
  = repeat false (length (dedup_from seen rs)).
Proof.
  revert seen seen'. induction rs as [|r rs IH]; intros seen seen' Hcov; simpl; [done|].
  assert (Hcov' : forall s', In s' (seen' ++ [r]) ->
                    exists s, In s (seen ++ [r]) /\ DF.row_eqb s' s = true).
  { intros s' Hs'. apply in_app_iff in Hs' as [Hs'|[<-|[]]].
    - destruct (Hcov s' Hs') as (s0 & Hs0 & E). exists s0. split; [|done].
      apply in_app_iff. now left.
    - exists r. split; [apply in_app_iff; right; now left|apply row_eqb_refl]. }
  destruct (existsb (DF.row_eqb r) seen) eqn:E.
  - apply IH. intros s' Hs'. destruct (Hcov s' Hs') as (s0 & Hs0 & E0).
    exists s0. split; [|done]. apply in_app_iff. now left.
  - simpl. f_equal; [|now apply IH].
    destruct (existsb (DF.row_eqb r) seen') eqn:E'; [|done].
    apply existsb_exists in E' as (s' & Hs' & Ers').
    destruct (Hcov s' Hs') as (s0 & Hs0 & E0).
    assert (Hx : existsb (DF.row_eqb r) seen = true).
    { apply existsb_exists. exists s0. split; [done|].
      eapply row_eqb_trans; eauto. }
    congruence.
Qed.

(** Every row is equal to a kept row or to a row already seen. *)
Lemma dedup_covers (seen rs : list (list obj)) r :
  In r rs ->
  exists r', (In r' (dedup_from seen rs) \/ In r' seen) /\ DF.row_eqb r r' = true.
Proof.
  revert seen. induction rs as [|x rs IH]; intros seen Hin; simpl; [done|].
  destruct Hin as [->|Hin].
  - destruct (existsb (DF.row_eqb r) seen) eqn:E.
    + apply existsb_exists in E as (s0 & Hs0 & E0). exists s0. split; [now right|done].
    + exists r. split; [left; now left|apply row_eqb_refl].
  - destruct (IH (seen ++ [x]) Hin) as (r' & [Hk|Hs] & E).
    + exists r'. split; [|done]. left.
      destruct (existsb (DF.row_eqb x) seen); [done|now right].
    + apply in_app_iff in Hs as [Hs|[<-|[]]].
      * exists r'. split; [now right|done].
      * destruct (existsb (DF.row_eqb x) seen) eqn:Ex.
        -- apply existsb_exists in Ex as (s0 & Hs0 & E0).
           exists s0. split; [now right|]. eapply row_eqb_trans; eauto.
        -- exists x. split; [left; now left|done].
Qed.

(** On a frame whose columns all have [n] cells. *)
Lemma nrows_height n (df : DataFrame) :
  height n df -> df <> [] -> DF.nrows df = n.
Proof. destruct df as [|[c s] df]; [done|]. intros H _. now inversion H. Qed.

Lemma drop_duplicates_rows n (df : DataFrame) :
  height n df -> df <> [] ->
  let keep := List.map negb (DF.duplicated df) in
  length keep = n /\
  height (Ser.bsum keep) (DF.drop_duplicates df) /\
  DF.rows (DF.drop_duplicates df) = dedup_from [] (DF.rows df).
Proof.
  intros Hh Hne keep.
  assert (Hn : DF.nrows df = n) by now apply nrows_height.
  assert (Hk : length keep = n).
  { unfold keep, DF.duplicated. rewrite length_map, duplicated_from_length.
    unfold DF.rows. now rewrite length_map, length_seq. }
  assert (Hh' : height (Ser.bsum keep) (DF.drop_duplicates df)).
  { unfold height, DF.drop_duplicates. fold keep. apply List.Forall_forall.
    intros [c s] Hin. apply in_map_iff in Hin as ([c' s'] & E & Hin). simpl in *.
    inversion E; subst. rewrite <- len_cells, cells_select.
    apply select_length. rewrite len_cells, Hk.
    unfold height in Hh. rewrite List.Forall_forall in Hh. apply (Hh _ Hin). }
  split; [done|]. split; [done|].
  assert (Hne' : DF.drop_duplicates df <> []).
  { unfold DF.drop_duplicates. destruct df; [done|]. simpl. done. }
  rewrite rows_cells, (nrows_height _ _ Hh' Hne').
  assert (Ec : cells_of (DF.drop_duplicates df)
               = List.map (DF.select keep) (cells_of df)).
  { unfold cells_of, DF.drop_duplicates. fold keep. rewrite !List.map_map.
    apply List.map_ext. intros [c s]. simpl. apply cells_select. }
  rewrite Ec, rows_of_select.
  - rewrite Hk, <- Hn, <- rows_cells. unfold keep, DF.duplicated.
    apply select_dedup.
  - unfold cells_of. apply List.Forall_forall. intros c Hc.
    apply in_map_iff in Hc as (p & <- & Hp). rewrite len_cells, Hk.
    unfold height in Hh. rewrite List.Forall_forall in Hh. apply (Hh _ Hp).
Qed.

Lemma drop_duplicates_idem n (df : DataFrame) :
  height n df ->
  DF.drop_duplicates (DF.drop_duplicates df) = DF.drop_duplicates df.
Proof.
  intros Hh. destruct (decide (df = [])) as [->|Hne]; [done|].
  destruct (drop_duplicates_rows n df Hh Hne) as (Hk & Hh' & Hrows).
  set (d' := DF.drop_duplicates df) in *.
  assert (Hne' : d' <> []).
  { unfold d', DF.drop_duplicates. destruct df; [done|]. simpl. done. }
  assert (Hdup : DF.duplicated d' = repeat false (DF.nrows d')).
  { unfold DF.duplicated. rewrite Hrows, duplicated_dedup; [|intros ? []].
    f_equal. rewrite <- Hrows. unfold DF.rows. now rewrite length_map, length_seq. }
  unfold DF.drop_duplicates at 1. rewrite Hdup.
  rewrite (nrows_height _ _ Hh' Hne').
  rewrite <- (List.map_id d') at 2. apply map_ext_in. intros [c s] Hin. simpl.
  f_equal. unfold height in Hh'. rewrite List.Forall_forall in Hh'.
  specialize (Hh' _ Hin). simpl in Hh'. rewrite <- Hh'.
  destruct s as [xs|xs]; simpl; now rewrite select_all.
Qed.

Lemma map_nth_seq_cells (l : list obj) :
  List.map (fun i => nth i l ONa) (seq 0 (length l)) = l.
Proof.
  induction l as [|x l IH]; [done|]. simpl. f_equal.
  rewrite <- seq_shift, List.map_map. exact IH.
Qed.

Lemma row_eqb_pointwise {A} (f g : A -> obj) (l : list A) x :
  DF.row_eqb (List.map f l) (List.map g l) = true -> In x l ->
  Ser.obj_eqb (f x) (g x) = true.
Proof.
  induction l as [|y l IH]; simpl; [done|].
  rewrite andb_true_iff. intros [E H] [->|Hin]; [done|now apply IH].
Qed.

(** A column keeps, through [drop_duplicates], a cell of every kind of
    value it holds. *)
Lemma drop_duplicates_keeps (P : obj -> bool) n (df : DataFrame) c s :
  (forall a b, Ser.obj_eqb a b = true -> P a = P b) ->
  height n df -> In (c, s) df ->
  existsb P (Ser.cells s) = true ->
  existsb P (Ser.cells (DF.select_series (List.map negb (DF.duplicated df)) s)) = true.
Proof.
  intros HP Hh Hin Hex.
  assert (Hne : df <> []) by (intros ->; done).
  assert (Hn : DF.nrows df = n) by now apply nrows_height.
  assert (Hlen : length (Ser.cells s) = n).
  { rewrite len_cells. unfold height in Hh. rewrite List.Forall_forall in Hh.
    apply (Hh _ Hin). }
  set (keep := List.map negb (DF.duplicated df)).
  set (g := fun i => nth i (Ser.cells s) ONa).
  set (K := DF.select keep (seq 0 n)).
  assert (Ecells : Ser.cells (DF.select_series keep s) = List.map g K).
  { rewrite cells_select. unfold K. rewrite <- select_map. f_equal.
    unfold g. rewrite <- Hlen. symmetry. apply map_nth_seq_cells. }
  assert (Erows : dedup_from [] (DF.rows df) = List.map (DF.row df) K).
  { unfold K. rewrite <- select_map. unfold keep, DF.duplicated.
    rewrite <- select_dedup. unfold DF.rows. now rewrite Hn. }
  apply existsb_exists in Hex as (x & Hx & Px).
  apply In_nth with (d := ONa) in Hx as (i & Hi & Ei).
  assert (Hrow : In (DF.row df i) (DF.rows df)).
  { unfold DF.rows. apply in_map. apply in_seq. lia. }
  destruct (dedup_covers [] (DF.rows df) _ Hrow) as (r' & [Hr'|[]] & Er').
  rewrite Erows in Hr'. apply in_map_iff in Hr' as (j & <- & Hj).
  rewrite Ecells. apply existsb_exists. exists (g j). split; [now apply in_map|].
  unfold DF.row in Er'.
  pose proof (row_eqb_pointwise _ _ df (c, s) Er' Hin) as E. simpl in E.
  unfold g. rewrite <- (HP _ _ E). now rewrite Ei.
Qed.

(** ** [initial_cleaning] as a function of the frame's value *)

Lemma occurrences_cons c c' s (df : DataFrame) :
  DF.occurrences c ((c', s) :: df)
  = (if String.eqb c c' then 1 else 0) + DF.occurrences c df.
Proof. unfold DF.occurrences. simpl. now destruct (String.eqb c c'). Qed.

Lemma occurrences_pos c (df : DataFrame) :
  c ∈ DF.columns df -> 0 < DF.occurrences c df.
Proof.
  induction df as [|[c' s] df IH]; simpl; intros Hin; [inversion Hin|].
  rewrite occurrences_cons. apply elem_of_cons in Hin as [->|Hin].
  - rewrite String.eqb_refl. lia.
  - specialize (IH Hin). lia.
Qed.

Lemma unique_labels_NoDup (df : DataFrame) :
  unique_labels df = true <-> NoDup (DF.columns df).
Proof.
  unfold unique_labels. rewrite forallb_forall. split.
  - induction df as [|[c s] df IH]; simpl; intros H; [constructor|].
    assert (Hc : c ∉ DF.columns df).
    { intros Hin. specialize (H c (or_introl eq_refl)).
      rewrite occurrences_cons, String.eqb_refl in H.
      apply occurrences_pos in Hin. apply Nat.eqb_eq in H. lia. }
    apply NoDup_cons. split; [done|]. apply IH. intros c' Hc'.
    specialize (H c' (or_intror Hc')). rewrite occurrences_cons in H.
    destruct (String.eqb_spec c' c) as [Heq|Hneq]; [|done].
    exfalso. apply Hc. rewrite <- Heq. now apply list_elem_of_In.
  - intros Hnd c Hin. apply Nat.eqb_eq.
    apply list_elem_of_In, list_elem_of_split in Hin as (l1 & l2 & E).
    unfold DF.columns in E. apply map_eq_app in E as (d1 & d2' & -> & E1 & E2).
    destruct d2' as [|[c' s] d2]; [done|]. simpl in E2. inversion E2; subst.
    apply occurrences_middle; now apply NoDup_middle in Hnd.
Qed.

Lemma lookup_in c (df : DataFrame) :
  c ∈ DF.columns df -> exists s, DF.lookup c df = Some s.
Proof.
  induction df as [|[c' s] df IH]; simpl; intros Hin; [inversion Hin|].
  destruct (String.eqb_spec c c'); [eauto|].
  apply elem_of_cons in Hin as [->|Hin]; [done|]. now apply IH.
Qed.

(** With a repeated label the scan of the columns fails. *)
Lemma scan_dup (f : Series -> bool) (hp : heap) r (df : DataFrame) (todo : list string) :
  hp !! r = Some (OFrame df) ->
  (forall c, c ∈ todo -> c ∈ DF.columns df) ->
  forallb (fun c => DF.occurrences c df =? 1) todo = false ->
  filter_m (fun c => Pd.col_query r c f) todo hp
  = (Raise (ValueError "The truth value of a Series is ambiguous"), hp).
Proof.
  intros Hr. induction todo as [|c todo IH]; simpl; intros Hsub Hdup; [done|].
  destruct (lookup_in c df) as [s Hs]; [apply Hsub; now left|].
  assert (Hq : Pd.col_query r c f hp
               = if DF.occurrences c df =? 1 then (Ok (f s), hp)
                 else (Raise (ValueError "The truth value of a Series is ambiguous"), hp)).
  { unfold Pd.col_query. rewrite (bind_ok _ _ _ _ _ (frame_at _ _ _ Hr)), Hs.
    now destruct (DF.occurrences c df =? 1). }
  destruct (DF.occurrences c df =? 1); simpl in Hdup.
  - rewrite (bind_ok _ _ _ _ _ Hq).
    now rewrite (bind_raise _ _ _ _ _ (IH (fun c' H => Hsub c' (list_elem_of_further _ _ _ H)) Hdup)).
  - now rewrite (bind_raise _ _ _ _ _ Hq).
Qed.

Lemma rename_relabel (df : DataFrame) :
  DF.rename (List.map clean.normalize_label (DF.columns df)) df = relabel df.
Proof.
  unfold DF.rename, relabel, DF.columns.
  induction df as [|[c s] df IH]; simpl; [done|]. now rewrite IH.
Qed.

(** Dropping the labels selected by a test on the columns keeps the
    columns that fail the test. *)
Lemma drop_marked (f : Series -> bool) (df : DataFrame) :
  NoDup (DF.columns df) ->
  DF.drop (DF.columns (List.filter (fun cs => f (snd cs)) df)) df
  = List.filter (fun cs => negb (f (snd cs))) df.
Proof.
  intros Hnd. unfold DF.drop. apply filter_ext_in. intros [c s] Hin. simpl.
  f_equal. apply list_elem_of_In in Hin.
  destruct (f s) eqn:E.
  - apply mem_true_iff, elem_of_columns. exists s.
    apply list_elem_of_In, List.filter_In. split; [now apply list_elem_of_In|done].
  - apply mem_false_iff. rewrite elem_of_columns. intros (s' & Hin').
    apply list_elem_of_In, List.filter_In in Hin' as [Hin' E'].
    apply list_elem_of_In in Hin'. simpl in E'.
    rewrite (NoDup_columns_functional df c s s' Hnd Hin Hin') in E. congruence.
Qed.

Lemma columns_filter_sub (f : string * Series -> bool) (df : DataFrame) c :
  c ∈ DF.columns (List.filter f df) -> c ∈ DF.columns df.
Proof.
  rewrite !elem_of_columns. intros (s & Hin). exists s.
  apply list_elem_of_In, List.filter_In in Hin as [Hin _]. now apply list_elem_of_In.
Qed.

Lemma NoDup_columns_filter (f : string * Series -> bool) (df : DataFrame) :
  NoDup (DF.columns df) -> NoDup (DF.columns (List.filter f df)).
Proof.
  induction df as [|[c s] df IH]; simpl; intros Hnd; [constructor|].
  apply NoDup_cons in Hnd as [Hc Hnd].
  destruct (f (c, s)); simpl; [|now apply IH].
  apply NoDup_cons. split; [|now apply IH].
  intros Hin. apply Hc. eapply columns_filter_sub, Hin.
Qed.

Lemma drop_work h g (cs : list string) (df : DataFrame) :
  (forall c, c ∈ cs -> c ∈ DF.columns df) ->
  Pd.drop (length h) cs (h ++ OFrame df :: g)
  = (Ok tt, h ++ OFrame (DF.drop cs df) :: g).
Proof.
  intros Hsub. unfold Pd.drop.
  rewrite (bind_ok _ _ _ _ _ (frame_at _ _ _ (lookup_work h g _))).
  destruct (List.find _ cs) as [c|] eqn:E.
  - apply List.find_some in E as [Hin E]. apply negb_true_iff, mem_false_iff in E.
    exfalso. apply E, Hsub. now apply list_elem_of_In.
  - apply store_work.
Qed.

Section CleaningRun.

Variable parse_number : string -> float.

Local Abbreviation coerce_column := (coerce_column parse_number).
Local Abbreviation coerce_columns := (coerce_columns parse_number).
Local Abbreviation coerce_body := (coerce_body parse_number).
Local Abbreviation cleaned := (cleaned parse_number).

Lemma coerce_body_run h g c s (pre post : DataFrame) :
  NoDup (DF.columns (pre ++ (c, s) :: post)) ->
  match coerce_column s with
  | Ok s' =>
      exists g',
        coerce_body (length h) c tt (h ++ OFrame (pre ++ (c, s) :: post) :: g)
        = (Ok tt, h ++ OFrame (pre ++ (c, s') :: post) :: g')
  | Raise e =>
      exists g',
        coerce_body (length h) c tt (h ++ OFrame (pre ++ (c, s) :: post) :: g)
        = (Raise e, h ++ OFrame (pre ++ (c, s) :: post) :: g')
  end.
Proof.
  intros Hnd. destruct (NoDup_middle _ _ _ _ Hnd) as [Hpre Hpost].
  unfold coerce_body.
  rewrite (bind_ok _ _ _ _ _
             (col_query_work Ser.is_object_dtype h g c s pre post Hnd)).
  destruct s as [xs|os]; [now exists g|].
  change (coerce_column (SObject os))
    with (if clean.str_accessor_ok os
          then if Float.ge (numeric_ratio parse_number os) Float.half
               then Ok (SFloat (to_numeric_cells parse_number os))
               else Ok (SObject os)
          else Raise (AttributeError
                 "Can only use .str accessor with string values")).
  change (Ser.is_object_dtype (SObject os)) with true. cbv iota.
  set (F := pre ++ (c, SObject os) :: post).
  set (conv := SFloat (to_numeric_cells parse_number os)).
  set (H0 := h ++ OFrame F :: g).
  assert (Hconv : clean.convert parse_number (length h) c H0
                  = if clean.str_accessor_ok os
                    then (Ok (length H0), h ++ OFrame F :: (g ++ [OSeries conv]))
                    else (Raise (AttributeError
                            "Can only use .str accessor with string values"), H0)).
  { unfold clean.convert, H0, F.
    rewrite (bind_ok _ _ _ _ _ (col_query_work id h g c _ pre post Hnd)).
    unfold id. change (Ser.cells (SObject os)) with os.
    destruct (clean.str_accessor_ok os); [apply alloc_work|reflexivity]. }
  destruct (clean.str_accessor_ok os).
  2:{ exists g. now rewrite (bind_raise _ _ _ _ _ Hconv). }
  assert (E1 : h ++ OFrame F :: (g ++ [OSeries conv]) = H0 ++ [OSeries conv]).
  { unfold H0. now rewrite <- app_assoc. }
  assert (L1 : (h ++ OFrame F :: (g ++ [OSeries conv])) !! length H0
               = Some (OSeries conv)).
  { rewrite E1. apply lookup_fresh. }
  rewrite (bind_ok _ _ _ _ _ Hconv).
  assert (Q : Pd.query (fun s => Ser.bmean (Ser.notna s)) (length H0)
                (h ++ OFrame F :: (g ++ [OSeries conv]))
              = (Ok (numeric_ratio parse_number os),
                 h ++ OFrame F :: (g ++ [OSeries conv]))).
  { unfold Pd.query. now rewrite (bind_ok _ _ _ _ _ (series_at _ _ _ L1)). }
  rewrite (bind_ok _ _ _ _ _ Q).
  destruct (Float.ge (numeric_ratio parse_number os) Float.half).
  - exists (g ++ [OSeries conv]). unfold F in *.
    now rewrite (setitem_work h _ _ c _ conv pre post Hpre L1).
  - now exists (g ++ [OSeries conv]).
Qed.

Lemma coerce_columns_columns todo done :
  coerce_columns todo = Ok done -> DF.columns done = DF.columns todo.
Proof.
  revert done. induction todo as [|[c s] todo IH]; simpl; intros done E.
  - now inversion E.
  - destruct (coerce_column s) as [s'|]; [|done].
    destruct (coerce_columns todo) as [d|]; [|done].
    inversion E; subst. simpl. f_equal. now apply IH.
Qed.

Lemma coerce_loop_run h (todo pre : DataFrame) g :
  NoDup (DF.columns (pre ++ todo)) ->
  match coerce_columns todo with
  | Ok done =>
      exists g',
        for_each (DF.columns todo) (coerce_body (length h)) tt
          (h ++ OFrame (pre ++ todo) :: g)
        = (Ok tt, h ++ OFrame (pre ++ done) :: g')
  | Raise e =>
      exists cur g',
        for_each (DF.columns todo) (coerce_body (length h)) tt
          (h ++ OFrame (pre ++ todo) :: g)
        = (Raise e, h ++ OFrame cur :: g')
  end.
Proof.
  revert pre g. induction todo as [|[c s] todo IH]; intros pre g Hnd; simpl.
  - now exists g.
  - pose proof (coerce_body_run h g c s pre todo Hnd) as B.
    destruct (coerce_column s) as [s'|e].
    + destruct B as [g1 B]. rewrite (bind_ok _ _ _ _ _ B).
      assert (Hnd' : NoDup (DF.columns ((pre ++ [(c, s')]) ++ todo))).
      { revert Hnd. rewrite !columns_app. simpl. now rewrite <- app_assoc. }
      specialize (IH (pre ++ [(c, s')]) g1 Hnd').
      rewrite <- app_assoc in IH. simpl in IH.
      destruct (coerce_columns todo) as [done|e].
      * destruct IH as [g' IH]. exists g'. rewrite IH. now rewrite <- app_assoc.
      * exact IH.
    + destruct B as [g1 B]. rewrite (bind_raise _ _ _ _ _ B). eauto.
Qed.

(** [initial_cleaning] works on a copy: the objects of the caller's heap
    are left as they were, and the result is [cleaned]. *)
Lemma initial_cleaning_run (h : heap) r (df : DataFrame) :
  h !! r = Some (OFrame df) ->
  match cleaned df with
  | Ok t =>
      exists r1 ext,
        clean.initial_cleaning parse_number r h = (Ok r1, h ++ ext) /\
        (h ++ ext) !! r1 = Some (OFrame t)
  | Raise e =>
      exists ext, clean.initial_cleaning parse_number r h = (Raise e, h ++ ext)
  end.
Proof.
  intros Hr. unfold clean.initial_cleaning, cleaned.
  assert (Hcopy : Pd.frame_copy r h = (Ok (length h), h ++ [OFrame df])).
  { unfold Pd.frame_copy. now rewrite (bind_ok _ _ _ _ _ (frame_at _ _ _ Hr)). }
  rewrite (bind_ok _ _ _ _ _ Hcopy).
  assert (Hcols : forall d g, Pd.columns (length h) (h ++ OFrame d :: g)
                              = (Ok (DF.columns d), h ++ OFrame d :: g)).
  { intros d g. unfold Pd.columns.
    now rewrite (bind_ok _ _ _ _ _ (frame_at _ _ _ (lookup_work h g _))). }
  rewrite (bind_ok _ _ _ _ _ (Hcols df [])).
  assert (Hset : Pd.set_columns (length h)
                   (List.map clean.normalize_label (DF.columns df))
                   (h ++ [OFrame df])
                 = (Ok tt, h ++ [OFrame (relabel df)])).
  { unfold Pd.set_columns.
    rewrite (bind_ok _ _ _ _ _ (frame_at _ _ _ (lookup_work h [] _))).
    unfold DF.columns. rewrite !length_map, Nat.eqb_refl.
    rewrite store_work. now rewrite <- rename_relabel. }
  rewrite (bind_ok _ _ _ _ _ Hset).
  set (d1 := relabel df).
  rewrite (bind_ok _ _ _ _ _ (Hcols d1 [])).
  destruct (unique_labels d1) eqn:Eu.
  2:{ exists [OFrame d1].
      erewrite bind_raise; [reflexivity|].
      apply (scan_dup _ _ (length h) d1); [apply lookup_work|done|exact Eu]. }
  assert (Hnd1 : NoDup (DF.columns d1)) by now apply unique_labels_NoDup.
  pose proof (scan_run (fun s => Ser.ball (Ser.isna s)) h [] [] d1 Hnd1) as Hscan.
  simpl in Hscan. rewrite (bind_ok _ _ _ _ _ Hscan).
  set (na := DF.columns (List.filter (fun cs => Ser.ball (Ser.isna (snd cs))) d1)).
  assert (Hd2 : DF.drop na d1 = drop_all_na d1).
  { unfold na, drop_all_na. now rewrite (drop_marked (fun s => Ser.ball (Ser.isna s))). }
  assert (Hdrop : (if negb (clean.is_nil na) then Pd.drop (length h) na else ret tt)
                    (h ++ [OFrame d1])
                  = (Ok tt, h ++ [OFrame (drop_all_na d1)])).
  { destruct na as [|c0 na0] eqn:Ena; simpl.
    - rewrite <- Hd2. now rewrite drop_nil.
    - rewrite <- Hd2. apply drop_work. intros c Hc. rewrite <- Ena in Hc.
      eapply columns_filter_sub, Hc. }
  rewrite (bind_ok _ _ _ _ _ Hdrop).
  set (d2 := drop_all_na d1).
  assert (Hnd2 : NoDup (DF.columns d2)) by now apply NoDup_columns_filter.
  rewrite (bind_ok _ _ _ _ _ (Hcols d2 [])).
  pose proof (coerce_loop_run h d2 [] [] Hnd2) as L. simpl in L.
  destruct (coerce_columns d2) as [d3|e].
  - destruct L as [g L]. unfold coerce_body in L.
    rewrite (bind_ok _ _ _ _ _ L).
    unfold Pd.drop_duplicates.
    rewrite (bind_ok _ _ _ _ _
               (bind_ok _ _ _ _ _ (frame_at _ _ _ (lookup_work h g _)))).
    unfold Heap.alloc, ret.
    eexists _, (OFrame d3 :: g ++ [OFrame (DF.drop_duplicates d3)]).
    split.
    + rewrite <- app_assoc. reflexivity.
    + replace (h ++ OFrame d3 :: g ++ [OFrame (DF.drop_duplicates d3)])
        with ((h ++ OFrame d3 :: g) ++ [OFrame (DF.drop_duplicates d3)])
        by now rewrite <- app_assoc.
      apply lookup_fresh.
  - destruct L as (cur & g & L). unfold coerce_body in L.
    rewrite (bind_raise _ _ _ _ _ L). eauto.
Qed.

End CleaningRun.

(** ** Running [initial_cleaning] twice *)

Lemma ge_half_some (bs : list bool) :
  Float.ge (Ser.bmean bs) Float.half = true -> existsb id bs = true.
Proof.
  unfold Ser.bmean. intros Hge.
  destruct (existsb id bs) eqn:E; [done|]. exfalso.
  assert (Hz : Ser.bsum bs = 0).
  { unfold Ser.bsum. clear Hge. induction bs as [|b bs IH]; [done|].
    simpl in *. destruct b; simpl in *; [done|]. now apply IH. }
  rewrite Hz in Hge. destruct (length bs); simpl in Hge; done.
Qed.

Lemma all_na_false (s : Series) :
  all_na s = false <->
  existsb (fun o => negb (Ser.obj_isna o)) (Ser.cells s) = true.
Proof.
  unfold all_na, Ser.ball, Ser.isna.
  induction (Ser.cells s) as [|o os IH]; simpl; [done|].
  destruct (Ser.obj_isna o); simpl; [exact IH|done].
Qed.

Lemma forallb_id_map {A} (f : A -> bool) (l : list A) :
  forallb id (List.map f l) = forallb f l.
Proof. induction l as [|x l IH]; simpl; [done|]. now rewrite IH. Qed.

Lemma isna_congr a b : Ser.obj_eqb a b = true -> Ser.obj_isna a = Ser.obj_isna b.
Proof. destruct a, b; simpl; done. Qed.

Lemma is_str_congr a b : Ser.obj_eqb a b = true -> Ser.obj_is_str a = Ser.obj_is_str b.
Proof. destruct a, b; simpl; done. Qed.

Lemma height_filter n (f : string * Series -> bool) (df : DataFrame) :
  height n df -> height n (List.filter f df).
Proof.
  unfold height. rewrite !List.Forall_forall. intros H x Hx.
  apply List.filter_In in Hx as [Hx _]. now apply H.
Qed.

Section Idempotence.

Variable parse_number : string -> float.

Local Abbreviation coerce_column := (coerce_column parse_number).
Local Abbreviation coerce_columns := (coerce_columns parse_number).
Local Abbreviation cleaned := (cleaned parse_number).
Local Abbreviation numeric_ratio := (numeric_ratio parse_number).

Lemma coerce_columns_Forall2 (d2 d3 : DataFrame) :
  coerce_columns d2 = Ok d3 ->
  Forall2 (fun a b => fst a = fst b /\ coerce_column (snd a) = Ok (snd b)) d2 d3.
Proof.
  revert d3. induction d2 as [|[c s] d2 IH]; simpl; intros d3 E.
  - inversion E. constructor.
  - destruct (coerce_column s) as [s'|] eqn:Es; [|done].
    destruct (coerce_columns d2) as [d|]; [|done].
    inversion E; subst. constructor; [done|now apply IH].
Qed.

Lemma coerce_columns_id (t : DataFrame) :
  (forall c s, In (c, s) t -> coerce_column s = Ok s) -> coerce_columns t = Ok t.
Proof.
  induction t as [|[c s] t IH]; simpl; intros H; [done|].
  rewrite (H c s (or_introl eq_refl)).
  now rewrite IH by (intros c' s' Hin; apply (H c' s'); now right).
Qed.

Lemma coerce_column_object os :
  coerce_column (SObject os)
  = if clean.str_accessor_ok os
    then if Float.ge (numeric_ratio os) Float.half
         then Ok (SFloat (to_numeric_cells parse_number os))
         else Ok (SObject os)
    else Raise (AttributeError "Can only use .str accessor with string values").
Proof. reflexivity. Qed.

Lemma coerce_column_len s s' :
  coerce_column s = Ok s' -> Ser.len s' = Ser.len s.
Proof.
  destruct s as [xs|os]; [now intros [= <-]|]. rewrite coerce_column_object.
  destruct (clean.str_accessor_ok os); [|done].
  destruct (Float.ge (numeric_ratio os) Float.half); intros [= <-]; [|done].
  simpl. unfold to_numeric_cells. now rewrite length_map.
Qed.

(** A column that has a non-missing cell still has one after the
    coercion. *)
Lemma coerce_column_not_all_na s s' :
  coerce_column s = Ok s' -> all_na s = false -> all_na s' = false.
Proof.
  destruct s as [xs|os]; [now intros [= <-]|]. rewrite coerce_column_object.
  destruct (clean.str_accessor_ok os); [|done].
  destruct (Float.ge (numeric_ratio os) Float.half) eqn:Ege;
    intros [= <-]; [|done]. intros _.
  unfold numeric_ratio in Ege.
  apply ge_half_some in Ege. apply all_na_false.
  unfold Ser.notna, Ser.isna in Ege. rewrite List.map_map in Ege.
  apply existsb_exists in Ege as (b & Hb & Eb). unfold id in Eb. subst b.
  apply in_map_iff in Hb as (o & Eo & Ho).
  apply existsb_exists. exists o. split; [done|]. exact Eo.
Qed.

(** What [initial_cleaning] returns is a fixed point of [cleaned] as
    soon as none of its text columns is at least half numeric. *)
Lemma cleaned_fixed n (df t1 : DataFrame) :
  height n df ->
  cleaned df = Ok t1 ->
  (forall c os, In (c, SObject os) t1 ->
                Float.ge (numeric_ratio os) Float.half = false) ->
  cleaned t1 = Ok t1.
Proof.
  intros Hh Hc Hsettled. unfold cleaned in Hc.
  set (d1 := relabel df) in *.
  destruct (unique_labels d1) eqn:Eu; [|done].
  set (d2 := drop_all_na d1) in *.
  destruct (coerce_columns d2) as [d3|] eqn:Ec; [|done].
  injection Hc as <-.
  assert (Hnd1 : NoDup (DF.columns d1)) by now apply unique_labels_NoDup.
  assert (Hnd2 : NoDup (DF.columns d2)) by now apply NoDup_columns_filter.
  assert (Hcols3 : DF.columns d3 = DF.columns d2)
    by now apply (coerce_columns_columns parse_number).
  assert (Hh1 : height n d1).
  { unfold height, d1, relabel in *. rewrite List.Forall_forall in *.
    intros x Hx. apply in_map_iff in Hx as (y & <- & Hy). simpl. now apply Hh. }
  assert (Hh2 : height n d2) by now apply height_filter.
  pose proof (coerce_columns_Forall2 d2 d3 Ec) as HF.
  assert (Hfrom2 : forall c s3, In (c, s3) d3 ->
            exists s2, In (c, s2) d2 /\ coerce_column s2 = Ok s3).
  { clear -HF. induction HF as [|[c2 s2] [c3 s3] d2 d3 [E1 E2] HF IH]; [done|].
    simpl in *. subst. intros c s [[= <- <-]|Hin].
    - exists s2. split; [now left|done].
    - destruct (IH c s Hin) as (s2' & Hin2 & E). exists s2'. split; [now right|done]. }
  assert (Hh3 : height n d3).
  { unfold height in *. rewrite List.Forall_forall in *. intros [c s3] Hin.
    destruct (Hfrom2 c s3 Hin) as (s2 & Hin2 & E). simpl.
    rewrite (coerce_column_len _ _ E). apply (Hh2 _ Hin2). }
  assert (Hna3 : forall c s3, In (c, s3) d3 -> all_na s3 = false).
  { intros c s3 Hin. destruct (Hfrom2 c s3 Hin) as (s2 & Hin2 & E).
    apply (coerce_column_not_all_na _ _ E).
    apply List.filter_In in Hin2 as [_ Hn]. now apply negb_true_iff in Hn. }
  set (keep := List.map negb (DF.duplicated d3)).
  assert (Hfrom3 : forall c s, In (c, s) (DF.drop_duplicates d3) ->
            exists s3, In (c, s3) d3 /\ s = DF.select_series keep s3).
  { intros c s Hin. unfold DF.drop_duplicates in Hin.
    apply in_map_iff in Hin as ([c3 s3] & [= <- <-] & Hin). eauto. }
  assert (Hcolst : DF.columns (DF.drop_duplicates d3) = DF.columns d3).
  { unfold DF.drop_duplicates, DF.columns. rewrite List.map_map.
    now apply List.map_ext. }
  (* labels *)
  assert (Hrel : relabel (DF.drop_duplicates d3) = DF.drop_duplicates d3).
  { unfold relabel. rewrite <- (List.map_id (DF.drop_duplicates d3)) at 2.
    apply map_ext_in. intros [c s] Hin. simpl. f_equal.
    assert (Hc1 : In c (DF.columns d1)).
    { assert (Hc2 : c ∈ DF.columns d2).
      { rewrite <- Hcols3, <- Hcolst. apply elem_of_columns. exists s.
        now apply list_elem_of_In. }
      apply list_elem_of_In. exact (columns_filter_sub _ d1 c Hc2). }
    unfold d1, relabel, DF.columns in Hc1. rewrite List.map_map in Hc1.
    apply in_map_iff in Hc1 as ([c0 s0] & <- & _). simpl.
    apply LabelFacts.normalize_label_idem. }
  unfold cleaned. rewrite Hrel.
  assert (Hu : unique_labels (DF.drop_duplicates d3) = true).
  { apply unique_labels_NoDup. now rewrite Hcolst, Hcols3. }
  rewrite Hu.
  (* no empty column *)
  assert (Hnat : forall c s, In (c, s) (DF.drop_duplicates d3) -> all_na s = false).
  { intros c s Hin. destruct (Hfrom3 c s Hin) as (s3 & Hin3 & ->).
    apply all_na_false.
    apply (drop_duplicates_keeps _ n d3 c s3); [|done|done|].
    - intros a b E. now rewrite (isna_congr a b E).
    - apply all_na_false. now apply (Hna3 c). }
  assert (Hdrop : drop_all_na (DF.drop_duplicates d3) = DF.drop_duplicates d3).
  { unfold drop_all_na. apply forallb_filter_id. apply forallb_forall.
    intros [c s] Hin. simpl. now rewrite (Hnat c s Hin). }
  rewrite Hdrop.
  (* no coercion *)
  assert (Hco : coerce_columns (DF.drop_duplicates d3) = Ok (DF.drop_duplicates d3)).
  { apply coerce_columns_id. intros c s Hin.
    destruct s as [xs|os]; [done|]. rewrite coerce_column_object.
    rewrite (Hsettled c os Hin).
    destruct (Hfrom3 c _ Hin) as (s3 & Hin3 & Es).
    destruct s3 as [xs3|os3]; [done|]. simpl in Es. injection Es as ->.
    destruct (Hfrom2 c _ Hin3) as (s2 & Hin2 & E2).
    assert (Hstr3 : existsb Ser.obj_is_str os3 = true).
    { destruct s2 as [xs2|os2]; [done|]. rewrite coerce_column_object in E2.
      destruct (clean.str_accessor_ok os2) eqn:Eok; [|done].
      destruct (Float.ge (numeric_ratio os2) Float.half); [done|].
      injection E2 as ->.
      unfold clean.str_accessor_ok in Eok.
      apply orb_true_iff in Eok as [Eok|Eok]; [done|].
      exfalso. specialize (Hna3 c _ Hin3). unfold all_na, Ser.ball, Ser.isna in Hna3.
      simpl in Hna3. rewrite forallb_id_map in Hna3. congruence. }
    pose proof (drop_duplicates_keeps Ser.obj_is_str n d3 c (SObject os3)
                  is_str_congr Hh3 Hin3 Hstr3) as Hk.
    simpl in Hk. fold keep in Hk.
    unfold clean.str_accessor_ok. now rewrite Hk. }
  rewrite Hco. f_equal. now apply (drop_duplicates_idem n).
Qed.

End Idempotence.

Section Normalizer.

Variable parse_number : string -> float.

(** C5, amended.  Running [initial_cleaning] on its own result returns
    an equal table (same labels, same columns, same cells, same rows)
    whenever that result has no text column of which at least half the
    cells parse as numbers. *)
Theorem initial_cleaning_idempotent_when_settled
    (h : heap) r (df : DataFrame) n r1 h1 t1 :
  h !! r = Some (OFrame df) ->
  height n df ->
  clean.initial_cleaning parse_number r h = (Ok r1, h1) ->
  h1 !! r1 = Some (OFrame t1) ->
  (forall c os, (c, SObject os) ∈ t1 ->
                Float.ge (numeric_ratio parse_number os) Float.half = false) ->
  exists r2 h2,
    clean.initial_cleaning parse_number r1 h1 = (Ok r2, h2) /\
    h2 !! r2 = Some (OFrame t1).
Proof.
  intros Hr Hh Hrun Ht1 Hsettled.
  pose proof (initial_cleaning_run parse_number h r df Hr) as R.
  destruct (cleaned parse_number df) as [t|e] eqn:Ec.
  2:{ destruct R as [ext R]. rewrite R in Hrun. done. }
  destruct R as (r1' & ext & R & L). rewrite R in Hrun.
  injection Hrun as <- <-. rewrite L in Ht1. injection Ht1 as <-.
  assert (Hfix : cleaned parse_number t = Ok t).
  { apply (cleaned_fixed parse_number n df t Hh Ec).
    intros c os Hin. apply (Hsettled c os). now apply list_elem_of_In. }
  pose proof (initial_cleaning_run parse_number (h ++ ext) r1' t L) as R2.
  rewrite Hfix in R2. destruct R2 as (r2 & ext2 & R2 & L2). eauto.
Qed.

End Normalizer.

(** C5 as stated fails: the text column of [Examples.mostly_text] is kept
    by the first run, where one cell out of three parses as a number, and
    coerced by the second, where it is one out of two because the
    duplicate row is gone. *)
Lemma initial_cleaning_not_idempotent :
  ~ idempotent_at Syntax.parse_integer [OFrame Examples.mostly_text] 0.
Proof.
  intros Hidem.
  pose proof (initial_cleaning_run Syntax.parse_integer
                [OFrame Examples.mostly_text] 0 Examples.mostly_text eq_refl) as R.
  assert (E1 : cleaned Syntax.parse_integer Examples.mostly_text
               = Ok [("c", SObject [OStr "a"; OStr "1"])])
    by (vm_compute; reflexivity).
  rewrite E1 in R. destruct R as (r1 & ext & R & L).
  destruct (Hidem _ _ _ R L) as (r2 & h2 & R2 & L2).
  pose proof (initial_cleaning_run Syntax.parse_integer _ r1 _ L) as R'.
  assert (E2 : cleaned Syntax.parse_integer [("c", SObject [OStr "a"; OStr "1"])]
               = Ok [("c", SFloat [NaN; Fin 1])])
    by (vm_compute; reflexivity).
  rewrite E2 in R'. destruct R' as (r2' & ext2 & R2' & L2').
  rewrite R2' in R2. injection R2 as Er Eh. subst r2 h2.
  pose proof (eq_trans (eq_sym L2) L2') as X. discriminate X.
Qed.

(** ** Where the invariants of the gate do hold *)

Lemma ratio_zero_inv k n : Float.eqb (Float.ratio k n) Float.zero = true -> k = 0.
Proof.
  destruct n as [|n]; simpl; [done|]. intros E.
  apply Qeq_bool_iff in E. rewrite Qred_correct in E.
  unfold Qeq in E. simpl in E. lia.
Qed.

Section Filled.

Variable repr_number : Q -> string.
Context {fp : Arithmetic}.

(** A successful [impute_column] leaves no missing cell, unless the
    column is numeric and its fill value is NaN. *)
Lemma impute_value_fills (s s' : Series) strategy i :
  impute_value repr_number s strategy = Ok (s', i) ->
  (forall xs fill, s = SFloat xs -> numeric_fill strategy xs = Ok fill ->
                   Float.isnan fill = false) ->
  Ser.bsum (Ser.isna s') = 0.
Proof.
  destruct s as [xs|os]; simpl; intros E Hfill.
  - destruct (numeric_fill strategy xs) as [fill|] eqn:Ef; [|done].
    injection E as <- _. apply ffillna_no_missing.
    now apply (Hfill xs fill).
  - destruct (categorical_fill strategy os) as [fill|]; [|done].
    injection E as <- _. apply astype_str_no_missing.
Qed.

(** The fill value is not NaN with "constant", and with "median" on a
    column that has a value and no infinite value. *)
Lemma numeric_fill_known strategy (xs : list float) fill :
  strategy = "median" \/ strategy = "constant" ->
  Ser.fdropna xs <> [] ->
  Forall (fun x => Float.isinf x = false) xs ->
  numeric_fill strategy xs = Ok fill ->
  Float.isnan fill = false.
Proof.
  intros [-> | ->] Hne Hfin; unfold numeric_fill; simpl; intros [= <-]; [|done].
  now apply fmedian_nan.
Qed.

(** X25. When [handle_missing_values] succeeds, a column whose rate was
    at most the threshold and, if it is numeric, whose fill value (its
    median, its mean or 0) is not NaN, has no missing cell in the
    returned table (if it is still there). *)
Lemma handle_missing_values_fills
    (h : heap) r (df : DataFrame) threshold
    numeric_strategy categorical_strategy allow_drop_constant
    c s r' rep h' out s' :
  h !! r = Some (OFrame df) ->
  NoDup (DF.columns df) ->
  (c, s) ∈ df ->
  Float.le (missing_rate s) threshold = true ->
  (forall xs fill, s = SFloat xs ->
                   numeric_fill numeric_strategy xs = Ok fill ->
                   Float.isnan fill = false) ->
  clean.handle_missing_values repr_number r threshold numeric_strategy
    categorical_strategy allow_drop_constant h = (Ok (r', rep), h') ->
  h' !! r' = Some (OFrame out) ->
  (c, s') ∈ out ->
  Ser.bsum (Ser.isna s') = 0.
Proof.
  intros Hr Hnd Hin Hle Hsome Hrun Hout Hin'.
  pose proof (handle_missing_values_run repr_number h r df threshold
                numeric_strategy categorical_strategy allow_drop_constant
                Hr Hnd) as R.
  destruct (exceeding threshold df) as [|x xs]; [|now rewrite R in Hrun].
  destruct (impute_loop _ _ _ _ df ∅) as [[imp rep0]|e] eqn:El.
  2:{ destruct R as (cur & g & R). now rewrite R in Hrun. }
  destruct R as [g R]. rewrite R in Hrun. injection Hrun as <- <- <-.
  rewrite lookup_work in Hout. injection Hout as <-.
  destruct (impute_loop_elem _ _ _ _ _ _ _ _ c s El Hnd Hin)
    as (s1 & i & Hstep & Hm & _).
  assert (Hnd' : NoDup (DF.columns imp)).
  { now rewrite (impute_loop_columns _ _ _ _ _ _ _ _ El). }
  assert (Hin1 : (c, s') ∈ imp).
  { unfold prune in Hin'. destruct allow_drop_constant; simpl in Hin'; [|done].
    now apply elem_of_drop in Hin' as [Hin' _]. }
  rewrite (NoDup_columns_functional imp c s' s1 Hnd' Hin1 Hm).
  unfold column_step in Hstep.
  destruct (Float.eqb (missing_rate s) Float.zero) eqn:Ez.
  - injection Hstep as <- _. now apply ratio_zero_inv in Ez.
  - rewrite Hle in Hstep. eapply impute_value_fills; [exact Hstep|].
    intros xs fill ->. apply (Hsome xs fill eq_refl).
Qed.

(** X26. On a table with at least one row, [compute_missing_rates]
    leaves the heap as it is and returns one rate per column, in column
    order; every rate is a fraction in [0,1], and 0.0 for a column without
    missing cells. *)
Lemma compute_missing_rates_unit_interval (h : heap) r (df : DataFrame) n :
  h !! r = Some (OFrame df) ->
  NoDup (DF.columns df) ->
  height n df -> n <> 0 ->
  exists missing_rates,
    clean.compute_missing_rates r h = (Ok missing_rates, h) /\
    DF.columns df = List.map fst missing_rates /\
    forall c p, (c, p) ∈ missing_rates ->
      exists s q, (c, s) ∈ df /\ p = Fin q /\ (0 <= q)%Q /\ (q <= 1)%Q /\
                  (Ser.bsum (Ser.isna s) = 0 -> p = Fin 0).
Proof.
  intros Hr Hnd Hh Hn. exists (rates_of df).
  split; [now apply compute_missing_rates_run|]. split.
  - unfold rates_of, DF.columns. rewrite List.map_map. now apply List.map_ext.
  - intros c p Hp. unfold rates_of in Hp.
    apply list_elem_of_In, in_map_iff in Hp as ([c' s] & [= <- <-] & Hin).
    assert (Hlen : Ser.len s <> 0).
    { unfold height in Hh. rewrite List.Forall_forall in Hh.
      specialize (Hh _ Hin). simpl in Hh. now rewrite Hh. }
    destruct (missing_rate_unit_interval s Hlen) as [(q & -> & H0 & H1) Hz].
    exists s, q. split; [now apply list_elem_of_In|].
    split; [done|]. split; [done|]. split; [done|].
    intros Hzero. rewrite <- (Hz Hzero). reflexivity.
Qed.

End Filled.

(** ** The properties on the example tables *)

Section ClaimExamples.

(** The examples are run with arithmetic that does not round: their
    numbers are small integers. *)
#[local] Existing Instance Syntax.exact_arithmetic.

(** A column at rate 0.2 with threshold 0.07: the call is rejected with
    that column at 0.2, and the table at the caller's reference is
    unchanged. *)
Lemma handle_missing_values_rejects_example :
  exists payload,
    clean.handle_missing_values Syntax.repr_fraction 0 (Fin (7 # 100))
      "median" "mode" true [OFrame Examples.sparse_table]
    = (Raise (TooManyMissingError payload),
       [OFrame Examples.sparse_table; OFrame Examples.sparse_table]) /\
    (forall c p, (c, p) ∈ payload -> c = "a" /\ p = Fin (1 # 5)) /\
    ("a", Fin (1 # 5)) ∈ payload.
Proof.
  destruct (handle_missing_values_rejects Syntax.repr_fraction
              [OFrame Examples.sparse_table] 0 Examples.sparse_table
              (Fin (7 # 100)) "median" "mode" true)
    as (rs & payload & _ & Hrun & Hpay & Hrs & _).
  - reflexivity.
  - apply NoDup_singleton.
  - eexists "a", _. split; [apply list_elem_of_here|vm_compute; reflexivity].
  - exists payload. split; [exact Hrun|]. split.
    + intros c p Hp. apply Hpay in Hp as [Hp _]. apply Hrs in Hp as (s & Hin & ->).
      apply list_elem_of_singleton in Hin. injection Hin as -> ->.
      split; [reflexivity|vm_compute; reflexivity].
    + apply Hpay. split; [|vm_compute; reflexivity].
      apply Hrs. eexists. split; [apply list_elem_of_here|vm_compute; reflexivity].
Defined.


(** The column [1, NaN, 3, NaN, 5] has rate 0.4: with threshold 0.4 there
    is no rejection, with threshold 0.39 there is one. *)
Lemma threshold_boundary_example :
  (forall payload h',
     clean.handle_missing_values Syntax.repr_fraction 0 (Fin (2 # 5))
       "median" "mode" false [OFrame Examples.median_table]
     <> (Raise (TooManyMissingError payload), h')) /\
  (exists payload,
     clean.handle_missing_values Syntax.repr_fraction 0 (Fin (39 # 100))
       "median" "mode" false [OFrame Examples.median_table]
     = (Raise (TooManyMissingError payload),
        [OFrame Examples.median_table; OFrame Examples.median_table]) /\
     ("a", Fin (2 # 5)) ∈ payload).
Proof.
  assert (Hnd : NoDup (DF.columns Examples.median_table)) by apply NoDup_singleton.
  assert (Hin : ("a", SFloat Examples.median_column) ∈ Examples.median_table)
    by apply list_elem_of_here.
  split.
  - destruct (threshold_boundary Syntax.repr_fraction
                [OFrame Examples.median_table] 0 Examples.median_table
                (Fin (2 # 5)) "median" "mode" false "a" _ eq_refl Hnd Hin)
      as [Hat _].
    destruct (Hat ltac:(vm_compute; reflexivity)) as [_ Hnone].
    apply Hnone. intros c' s' Hin'.
    apply list_elem_of_singleton in Hin'. injection Hin' as -> ->.
    vm_compute; reflexivity.
  - destruct (threshold_boundary Syntax.repr_fraction
                [OFrame Examples.median_table] 0 Examples.median_table
                (Fin (39 # 100)) "median" "mode" false "a" _ eq_refl Hnd Hin)
      as [_ Habove].
    exact (Habove ltac:(vm_compute; reflexivity)).
Defined.

(** Rows [1, "a"], [1, "a"], [2, "b"]: the first run leaves two rows and a
    second run returns the same table. *)
Lemma initial_cleaning_idempotent_example :
  exists r1 h1 t1 r2 h2,
    clean.initial_cleaning Syntax.parse_integer 0 [OFrame Examples.duplicate_rows]
    = (Ok r1, h1) /\
    h1 !! r1 = Some (OFrame t1) /\
    DF.nrows t1 = 2 /\
    clean.initial_cleaning Syntax.parse_integer r1 h1 = (Ok r2, h2) /\
    h2 !! r2 = Some (OFrame t1).
Proof.
  set (t1 := [("0", SFloat [Fin 1; Fin 2]); ("1", SObject [OStr "a"; OStr "b"])]
             : DataFrame).
  set (h1 := [OFrame Examples.duplicate_rows;
              OFrame Examples.duplicate_rows;
              OSeries (SFloat [NaN; NaN; NaN]);
              OFrame t1]).
  assert (Hrun : clean.initial_cleaning Syntax.parse_integer 0
                   [OFrame Examples.duplicate_rows] = (Ok 3, h1))
    by (vm_compute; reflexivity).
  destruct (initial_cleaning_idempotent_when_settled Syntax.parse_integer
              [OFrame Examples.duplicate_rows] 0 Examples.duplicate_rows 3
              3 h1 t1) as (r2 & h2 & R2 & L2).
  - reflexivity.
  - repeat constructor.
  - exact Hrun.
  - reflexivity.
  - intros c os Hin.
    apply elem_of_cons in Hin as [Hin|Hin]; [discriminate Hin|].
    apply list_elem_of_singleton in Hin. injection Hin as -> ->.
    vm_compute; reflexivity.
  - exists 3, h1, t1, r2, h2. repeat split; done.
Defined.


(** The column ["x", "x", None]: the missing cell is filled with "x". *)
Lemma impute_column_mode_example :
  exists r' i h',
    clean.impute_column Syntax.repr_fraction 0 "mode"
      [OSeries (SObject Examples.mode_column)] = (Ok (r', i), h') /\
    h' !! r' = Some (OSeries (SObject [OStr "x"; OStr "x"; OStr "x"])) /\
    i !! "fill_value" = Some (VStr "x").
Proof.
  destruct (impute_column_mode Syntax.repr_fraction
              [OSeries (SObject Examples.mode_column)] 0
              Examples.mode_column eq_refl)
    as (r' & i & h' & fill & Hrun & Hcol & Hfill & _ & _ & Hsome & _).
  destruct (Hsome ltac:(discriminate)) as (Hin & Hna & _).
  assert (Ef : fill = OStr "x").
  { unfold Examples.mode_column in Hin.
    repeat (apply elem_of_cons in Hin as [Hin|Hin]; [try done; subst; done|]).
    inversion Hin. }
  subst fill. exists r', i, h'. split; [exact Hrun|]. split; [exact Hcol|exact Hfill].
Defined.

(** "mode" is not a strategy for a numeric column. *)
Lemma impute_column_invalid_strategy_example :
  fst (clean.impute_column Syntax.repr_fraction 0 "mode"
         [OSeries (SFloat [Fin 1; NaN])])
  = Raise (ValueError "Unknown numeric strategy: mode") /\
  snd (clean.impute_column Syntax.repr_fraction 0 "mode"
         [OSeries (SFloat [Fin 1; NaN])]) !! 0
  = Some (OSeries (SFloat [Fin 1; NaN])).
Proof.
  destruct (impute_column_invalid_strategy Syntax.repr_fraction
              [OSeries (SFloat [Fin 1; NaN])] 0 (SFloat [Fin 1; NaN]) "mode"
              eq_refl) as (Hiff & Hkind & Hsame).
  split; [|exact Hsame].
  destruct (proj2 Hiff) as [e He].
  { intros [H|[H|H]]; discriminate H. }
  destruct (Hkind e He) as [-> _]. exact He.
Defined.

(** A constant column next to an imputed one: it is absent from the
    returned table and flagged in the report. *)
Lemma drop_constant_columns_example :
  exists r2 rep2 h2 e,
    clean.handle_missing_values Syntax.repr_fraction 0 (Fin (1 # 2))
      "median" "mode" true [OFrame Examples.constant_table]
    = (Ok (r2, rep2), h2) /\
    h2 !! r2 = Some (OFrame [("a", SFloat [Fin 1; Fin 3; Fin 3; Fin 3; Fin 5])]) /\
    rep2 !! "b" = Some e /\
    e !! "dropped_constant" = Some (VBool true).
Proof.
  set (imp := [("a", SFloat [Fin 1; Fin 3; Fin 3; Fin 3; Fin 5]);
               ("b", SObject [OStr "x"; OStr "x"; OStr "x"; OStr "x"; OStr "x"])]
              : DataFrame).
  assert (Hnd : NoDup (DF.columns Examples.constant_table)).
  { apply NoDup_cons. split; [|apply NoDup_singleton].
    intros H. apply list_elem_of_singleton in H. discriminate H. }
  pose proof (handle_missing_values_run Syntax.repr_fraction
                [OFrame Examples.constant_table] 0 Examples.constant_table
                (Fin (1 # 2)) "median" "mode" false eq_refl Hnd) as R1.
  replace (exceeding (Fin (1 # 2)) Examples.constant_table)
    with (@nil (string * float)) in R1 by (vm_compute; reflexivity).
  set (rep1 := match impute_loop Syntax.repr_fraction (Fin (1 # 2)) "median" "mode"
                      Examples.constant_table ∅ with
              | Ok p => snd p
              | Raise _ => ∅
              end).
assert (El : impute_loop Syntax.repr_fraction (Fin (1 # 2)) "median" "mode"
               Examples.constant_table ∅ = Ok (imp, rep1))
  by (vm_compute; reflexivity).
rewrite El in R1. destruct R1 as [g R1]. simpl in R1.
  destruct (drop_constant_columns Syntax.repr_fraction
              [OFrame Examples.constant_table] 0 Examples.constant_table
              (Fin (1 # 2)) "median" "mode" 1 rep1 _ imp eq_refl Hnd R1 eq_refl)
    as (r2 & rep2 & h2 & out & Hrun & Hout & Eout & Hdropped & _).
  destruct (Hdropped "b" (SObject [OStr "x"; OStr "x"; OStr "x"; OStr "x"; OStr "x"]))
    as [_ Hrep].
  { apply list_elem_of_further, list_elem_of_here. }
  { vm_compute. lia. }
  eexists r2, rep2, h2, _. split; [exact Hrun|]. split; [|split; [exact Hrep|]].
  - rewrite Hout, Eout. vm_compute. reflexivity.
  - apply lookup_insert_eq.
Defined.

(** A column of two missing cells with "mean": nothing is filled. *)
Lemma impute_column_all_missing_example :
  exists r' i h',
    clean.impute_column Syntax.repr_fraction 0 "mean"
      [OSeries (SFloat [NaN; NaN])] = (Ok (r', i), h') /\
    h' !! r' = Some (OSeries (SFloat [NaN; NaN])) /\
    i !! "fill_value" = Some (VFloat NaN) /\
    i !! "n_missing_before" = Some (VInt 2) /\
    i !! "n_missing_after" = Some (VInt 2).
Proof.
  destruct (impute_column_all_missing Syntax.repr_fraction
              [OSeries (SFloat [NaN; NaN])] 0 [NaN; NaN] "mean" eq_refl)
    as [(r' & i & h' & Hrun & Hfill & Hcol & Hbefore & Hafter) _].
  - repeat constructor.
  - now right.
  - exists r', i, h'. repeat split; assumption.
Defined.

End ClaimExamples.

(** * Further properties of [handle_missing_values] *)

(** ** Columns the loop leaves alone *)

Lemma exceeding_nil threshold (df : DataFrame) :
  (forall c s, (c, s) ∈ df -> Float.gt (missing_rate s) threshold = false) ->
  exceeding threshold df = [].
Proof.
  intros H. unfold exceeding, rates_of.
  induction df as [|[c s] df IH]; simpl; [done|].
  rewrite (H c s) by apply list_elem_of_here.
  apply IH. intros c' s' Hin. apply (H c' s'). now apply list_elem_of_further.
Qed.

Lemma isna_cells_length (s : Series) : length (Ser.isna s) = length (Ser.cells s).
Proof. unfold Ser.isna. apply length_map. Qed.

Lemma missing_rate_zero_rows (s : Series) : Ser.len s = 0 -> missing_rate s = NaN.
Proof.
  intros H. unfold missing_rate, Ser.bmean. now rewrite isna_length, H.
Qed.

Lemma nunique_zero_rows (s : Series) : Ser.len s = 0 -> Ser.nunique s = 0.
Proof.
  intros H. unfold Ser.nunique. rewrite <- len_cells in H.
  now destruct (Ser.cells s).
Qed.

Section Passive.

Variable repr_number : Q -> string.
Context {fp : Arithmetic}.
Variable threshold : float.
Variables numeric_strategy categorical_strategy : string.

Local Abbreviation step :=
  (column_step repr_number threshold numeric_strategy categorical_strategy).
Local Abbreviation loop :=
  (impute_loop repr_number threshold numeric_strategy categorical_strategy).

(** When every column goes through an iteration unchanged, so does the
    table. *)
Lemma impute_loop_fixed (todo : DataFrame) (acc : report) :
  (forall c s, (c, s) ∈ todo -> exists i, step s = Ok (s, i)) ->
  exists rep, loop todo acc = Ok (todo, rep).
Proof.
  revert acc. induction todo as [|[c s] todo IH]; intros acc H; simpl; [eauto|].
  destruct (H c s) as [i Hi]; [apply list_elem_of_here|]. rewrite Hi.
  destruct (IH (<[c := i]> acc)) as [rep Hrep].
  { intros c' s' Hin. apply (H c' s'). now apply list_elem_of_further. }
  rewrite Hrep. eauto.
Qed.

End Passive.

Lemma note_info_lookup (s : Series) :
  note_info s !! "note" = Some (VStr "exceeds_threshold") /\
  note_info s !! "strategy" = None.
Proof.
  unfold note_info. split; [apply lookup_insert_eq|].
  do 2 (rewrite lookup_insert_ne by done). apply lookup_empty.
Qed.

Lemma dropped_flag_other (i : info) (k : string) :
  k <> "dropped_constant" ->
  (<["dropped_constant" := VBool true]> i) !! k = i !! k.
Proof. intros Hk. apply lookup_insert_ne. congruence. Qed.

Lemma prune_table allow_drop_constant (imp : DataFrame) (rep : report) :
  NoDup (DF.columns imp) ->
  fst (prune allow_drop_constant (imp, rep))
  = if allow_drop_constant
    then List.filter (fun cs => negb (Ser.nunique (snd cs) <=? 1)) imp
    else imp.
Proof.
  intros Hnd. unfold prune. destruct allow_drop_constant; [|done]. simpl.
  apply (drop_marked (fun s => Ser.nunique s <=? 1) imp Hnd).
Qed.

Lemma filter_none {A} (p : A -> bool) (l : list A) :
  (forall x, In x l -> p x = false) -> List.filter p l = [].
Proof.
  induction l as [|a l IH]; intros H; [done|]. simpl.
  rewrite (H a) by now left. apply IH. intros x Hx. apply H. now right.
Qed.

Section PassiveGate.

Variable repr_number : Q -> string.
Context {fp : Arithmetic}.

Lemma handle_missing_values_passive
    (h : heap) r (df : DataFrame) threshold
    numeric_strategy categorical_strategy allow_drop_constant :
  h !! r = Some (OFrame df) ->
  NoDup (DF.columns df) ->
  (forall c s, (c, s) ∈ df -> Float.gt (missing_rate s) threshold = false) ->
  (forall c s, (c, s) ∈ df ->
     exists i, column_step repr_number threshold numeric_strategy
                 categorical_strategy s = Ok (s, i)) ->
  exists rep0 g,
    impute_loop repr_number threshold numeric_strategy categorical_strategy df ∅
    = Ok (df, rep0) /\
    clean.handle_missing_values repr_number r threshold numeric_strategy
      categorical_strategy allow_drop_constant h
    = (Ok (length h, snd (prune allow_drop_constant (df, rep0))),
       h ++ OFrame (fst (prune allow_drop_constant (df, rep0))) :: g).
Proof.
  intros Hr Hnd Hgt Hstep.
  pose proof (handle_missing_values_run repr_number h r df threshold
                numeric_strategy categorical_strategy allow_drop_constant
                Hr Hnd) as R.
  rewrite (exceeding_nil threshold df Hgt) in R.
  destruct (impute_loop_fixed repr_number threshold numeric_strategy
              categorical_strategy df ∅ Hstep) as [rep0 El].
  rewrite El in R. destruct R as [g R]. eauto.
Qed.

(** X1. With a NaN threshold nothing is rejected and nothing is imputed,
    whatever the strategy names: the call succeeds, the returned table is
    the input (without its constant columns when pruning is enabled), and
    every column that is not free of missing cells is recorded with the
    note "exceeds_threshold" and no strategy. *)
Theorem handle_missing_values_nan_threshold
    (h : heap) r (df : DataFrame)
    numeric_strategy categorical_strategy allow_drop_constant :
  h !! r = Some (OFrame df) ->
  NoDup (DF.columns df) ->
  exists r' rep h' out,
    clean.handle_missing_values repr_number r NaN numeric_strategy
      categorical_strategy allow_drop_constant h = (Ok (r', rep), h') /\
    h' !! r' = Some (OFrame out) /\
    out = (if allow_drop_constant
           then List.filter (fun cs => negb (Ser.nunique (snd cs) <=? 1)) df
           else df) /\
    forall c s, (c, s) ∈ df ->
      Float.eqb (missing_rate s) Float.zero = false ->
      exists e, rep !! c = Some e /\
                e !! "note" = Some (VStr "exceeds_threshold") /\
                e !! "strategy" = None.
Proof.
  intros Hr Hnd.
  assert (Hgt : forall c s, (c, s) ∈ df -> Float.gt (missing_rate s) NaN = false).
  { intros c s _. now destruct (missing_rate s). }
  assert (Hle : forall x, Float.le x NaN = false) by (now intros [|x|[]]).
  assert (Hstep : forall s,
            column_step repr_number NaN numeric_strategy categorical_strategy s
            = if Float.eqb (missing_rate s) Float.zero
              then Ok (s, clean.no_missing_info) else Ok (s, note_info s)).
  { intros s. unfold column_step. now rewrite Hle. }
  destruct (handle_missing_values_passive h r df NaN numeric_strategy
              categorical_strategy allow_drop_constant Hr Hnd Hgt)
    as (rep0 & g & El & R).
  { intros c s _. rewrite Hstep. destruct (Float.eqb _ _); eauto. }
  eexists _, _, _, _. split; [exact R|]. split; [apply lookup_work|].
  split; [now apply prune_table|].
  intros c s Hin Hnz.
  destruct (impute_loop_elem _ _ _ _ _ _ _ _ c s El Hnd Hin)
    as (s' & i & Hs & Hm & Hl).
  rewrite Hstep, Hnz in Hs. injection Hs as <- <-.
  destruct (note_info_lookup s) as [Hnote Hstrat].
  destruct (prune_elem allow_drop_constant df rep0 c s _ Hnd Hm Hl)
    as [(_ & _ & _ & Hrep)|(_ & _ & Hrep)]; eexists; (split; [exact Hrep|]).
  - now rewrite !dropped_flag_other by done.
  - done.
Qed.

(** X2. On a table without rows every rate is NaN: whatever the
    threshold and the strategy names, the call succeeds without rejecting
    or imputing, every column is recorded with the note
    "exceeds_threshold", and with pruning enabled the returned table has
    no column left. *)
Theorem handle_missing_values_zero_rows
    (h : heap) r (df : DataFrame) threshold
    numeric_strategy categorical_strategy allow_drop_constant :
  h !! r = Some (OFrame df) ->
  NoDup (DF.columns df) ->
  height 0 df ->
  exists r' rep h' out,
    clean.handle_missing_values repr_number r threshold numeric_strategy
      categorical_strategy allow_drop_constant h = (Ok (r', rep), h') /\
    h' !! r' = Some (OFrame out) /\
    out = (if allow_drop_constant then [] else df) /\
    forall c, c ∈ DF.columns df ->
      exists e, rep !! c = Some e /\
                e !! "note" = Some (VStr "exceeds_threshold") /\
                e !! "strategy" = None.
Proof.
  intros Hr Hnd Hh.
  assert (Hrate : forall c s, (c, s) ∈ df -> missing_rate s = NaN).
  { intros c s Hin. apply missing_rate_zero_rows.
    unfold height in Hh. rewrite List.Forall_forall in Hh.
    apply (Hh (c, s)). now apply list_elem_of_In. }
  assert (Hstep : forall c s, (c, s) ∈ df ->
            column_step repr_number threshold numeric_strategy
              categorical_strategy s = Ok (s, note_info s)).
  { intros c s Hin. unfold column_step. now rewrite (Hrate c s Hin). }
  destruct (handle_missing_values_passive h r df threshold numeric_strategy
              categorical_strategy allow_drop_constant Hr Hnd)
    as (rep0 & g & El & R).
  { intros c s Hin. now rewrite (Hrate c s Hin). }
  { intros c s Hin. rewrite (Hstep c s Hin). eauto. }
  eexists _, _, _, _. split; [exact R|]. split; [apply lookup_work|]. split.
  - rewrite prune_table by done. destruct allow_drop_constant; [|done].
    apply filter_none. intros [c s] Hin. simpl.
    rewrite nunique_zero_rows; [done|].
    unfold height in Hh. rewrite List.Forall_forall in Hh. apply (Hh _ Hin).
  - intros c Hc. apply elem_of_columns in Hc as [s Hin].
    destruct (impute_loop_elem _ _ _ _ _ _ _ _ c s El Hnd Hin)
      as (s' & i & Hs & Hm & Hl).
    rewrite (Hstep c s Hin) in Hs. injection Hs as <- <-.
    destruct (note_info_lookup s) as [Hnote Hstrat].
    destruct (prune_elem allow_drop_constant df rep0 c s _ Hnd Hm Hl)
      as [(_ & _ & _ & Hrep)|(_ & _ & Hrep)]; eexists; (split; [exact Hrep|]).
    + now rewrite !dropped_flag_other by done.
    + done.
Qed.

End PassiveGate.

(** ** Outcomes of [handle_missing_values] *)

Lemma exceeding_nil_inv threshold (df : DataFrame) c s :
  exceeding threshold df = [] -> (c, s) ∈ df ->
  Float.gt (missing_rate s) threshold = false.
Proof.
  unfold exceeding, rates_of. intros E Hin.
  apply list_elem_of_In in Hin.
  destruct (Float.gt (missing_rate s) threshold) eqn:G; [|done].
  assert (Hm : In (c, missing_rate s)
                  (List.filter (fun cp => Float.gt (snd cp) threshold)
                     (List.map (fun cs => (fst cs, missing_rate (snd cs))) df))).
  { apply List.filter_In. split; [|exact G].
    apply in_map_iff. now exists (c, s). }
  rewrite E in Hm. destruct Hm.
Qed.

Lemma observed_kept_refl repr_number (s : Series) : observed_kept repr_number s s.
Proof.
  destruct s as [xs|os]; simpl.
  - induction xs; constructor; auto.
  - induction os as [|o os IH]; constructor; auto. destruct o; simpl; auto.
Qed.

Lemma observed_kept_len repr_number (s s' : Series) :
  observed_kept repr_number s s' -> Ser.len s' = Ser.len s.
Proof.
  destruct s, s'; simpl; try done; intros H; symmetry;
    eapply Forall2_length; exact H.
Qed.

Lemma observed_kept_dtype repr_number (s s' : Series) :
  observed_kept repr_number s s' -> Ser.dtype_name s' = Ser.dtype_name s.
Proof. now destruct s, s'. Qed.

Section GateFacts.

Variable repr_number : Q -> string.
Context {fp : Arithmetic}.

Lemma impute_value_observed (s s' : Series) strategy i :
  impute_value repr_number s strategy = Ok (s', i) ->
  observed_kept repr_number s s'.
Proof.
  destruct s as [xs|os]; simpl.
  - destruct (numeric_fill strategy xs) as [fill|]; [|done].
    intros [= <- _]. simpl. unfold Ser.ffillna.
    induction xs as [|x xs IH]; simpl; constructor; [|exact IH].
    now intros ->.
  - destruct (categorical_fill strategy os) as [fill|]; [|done].
    intros [= <- _]. simpl. unfold clean.astype_str, Ser.ofillna.
    induction os as [|o os IH]; simpl; constructor; [|exact IH].
    destruct o; simpl; auto.
Qed.

Section Steps.

Variable threshold : float.
Variables numeric_strategy categorical_strategy : string.

Local Abbreviation step :=
  (column_step repr_number threshold numeric_strategy categorical_strategy).
Local Abbreviation loop :=
  (impute_loop repr_number threshold numeric_strategy categorical_strategy).

Lemma column_step_observed (s s' : Series) i :
  step s = Ok (s', i) -> observed_kept repr_number s s'.
Proof.
  unfold column_step.
  destruct (Float.eqb _ _); [intros [= <- _]; apply observed_kept_refl|].
  destruct (Float.le _ _); [apply impute_value_observed|].
  intros [= <- _]. apply observed_kept_refl.
Qed.

(** A column that went through the loop goes through it again without
    change. *)
Lemma column_step_settled (s s' : Series) i :
  step s = Ok (s', i) ->
  Float.gt (missing_rate s) threshold = false ->
  (exists i', step s' = Ok (s', i')) /\
  Float.gt (missing_rate s') threshold = false.
Proof.
  intros Hs Hgt. pose proof (column_step_observed s s' i Hs) as Hobs.
  unfold column_step in Hs.
  destruct (Float.eqb (missing_rate s) Float.zero) eqn:Ez.
  { injection Hs as <- <-. split; [|done]. unfold column_step. rewrite Ez. eauto. }
  destruct (Float.le (missing_rate s) threshold) eqn:El.
  2:{ injection Hs as <- <-. split; [|done]. unfold column_step.
      rewrite Ez, El. eauto. }
  assert (Hlen : Ser.len s <> 0).
  { intros H0. rewrite (missing_rate_zero_rows s H0) in El. discriminate El. }
  assert (Hzero : Ser.bsum (Ser.isna s') = 0 ->
                  (exists i', step s' = Ok (s', i')) /\
                  Float.gt (missing_rate s') threshold = false).
  { intros Hb.
    assert (Hlen' : Ser.len s' <> 0)
      by now rewrite (observed_kept_len _ _ _ Hobs).
    destruct (missing_rate_unit_interval s' Hlen') as [_ Hz].
    rewrite (Hz Hb). split.
    - unfold column_step. rewrite (Hz Hb). simpl. eauto.
    - destruct (missing_rate_unit_interval s Hlen) as [(q & Eq & Hq & _) _].
      rewrite Eq in El. destruct threshold as [|t|[]]; simpl in *; try done.
      apply Qle_bool_iff in El.
      assert (Ht : Qle_bool 0 t = true) by (apply Qle_bool_iff; lra).
      now rewrite Ht. }
  destruct s as [xs|os]; simpl in Hs.
  - destruct (numeric_fill numeric_strategy xs) as [[|m|sg]|] eqn:Ef;
      [| | |done].
    + injection Hs as <- <-. rewrite ffillna_nan. split; [|done].
      unfold column_step. rewrite Ez, El. simpl. rewrite Ef.
      rewrite ffillna_nan. eauto.
    + injection Hs as <- _. now apply Hzero, ffillna_no_missing.
    + injection Hs as <- _. now apply Hzero, ffillna_no_missing.
  - destruct (categorical_fill categorical_strategy os) as [fill|]; [|done].
    injection Hs as <- _. apply Hzero, astype_str_no_missing.
Qed.

Lemma impute_loop_raise_step todo acc e :
  loop todo acc = Raise e ->
  exists c s, (c, s) ∈ todo /\ step s = Raise e.
Proof.
  revert acc. induction todo as [|[c t] todo IH]; simpl; intros acc E; [done|].
  destruct (step t) as [[t' i]|e'] eqn:Et.
  - destruct (loop todo _) as [[d r]|e'] eqn:E'; [done|].
    injection E as <-. destruct (IH _ E') as (c' & s & Hin & Hs).
    exists c', s. split; [now right|done].
  - injection E as <-. exists c, t. split; [now left|exact Et].
Qed.

End Steps.

(** What a successful call has computed. *)
Lemma handle_missing_values_success
    (h : heap) r (df : DataFrame) threshold
    numeric_strategy categorical_strategy allow_drop_constant r' rep h' :
  h !! r = Some (OFrame df) ->
  NoDup (DF.columns df) ->
  clean.handle_missing_values repr_number r threshold numeric_strategy
    categorical_strategy allow_drop_constant h = (Ok (r', rep), h') ->
  exists imp rep0 g,
    exceeding threshold df = [] /\
    impute_loop repr_number threshold numeric_strategy categorical_strategy df ∅
    = Ok (imp, rep0) /\
    rep = snd (prune allow_drop_constant (imp, rep0)) /\
    r' = length h /\
    h' = h ++ OFrame (fst (prune allow_drop_constant (imp, rep0))) :: g.
Proof.
  intros Hr Hnd Hrun.
  pose proof (handle_missing_values_run repr_number h r df threshold
                numeric_strategy categorical_strategy allow_drop_constant
                Hr Hnd) as R.
  destruct (exceeding threshold df) as [|x xs]; [|now rewrite R in Hrun].
  destruct (impute_loop _ _ _ _ df ∅) as [[imp rep0]|e] eqn:El.
  2:{ destruct R as (cur & g & R). now rewrite R in Hrun. }
  destruct R as [g R]. rewrite R in Hrun. injection Hrun as <- <- <-.
  now exists imp, rep0, g.
Qed.

End GateFacts.

Lemma sublist_columns_filter (f : string * Series -> bool) (df : DataFrame) :
  sublist (DF.columns (List.filter f df)) (DF.columns df).
Proof.
  induction df as [|cs df IH]; simpl; [constructor|].
  destruct (f cs); simpl; now constructor.
Qed.

Section GateOutcomes.

Variable repr_number : Q -> string.
Context {fp : Arithmetic}.

(** X3. The only failures of [handle_missing_values] on a table with
    distinct labels are the rejection, carrying exactly the columns whose
    rate exceeds the threshold, and a ValueError, raised only when no
    column exceeds and a column with missing cells has a strategy its type
    does not know. *)
Theorem handle_missing_values_error_kinds
    (h : heap) r (df : DataFrame) threshold
    numeric_strategy categorical_strategy allow_drop_constant e h' :
  h !! r = Some (OFrame df) ->
  NoDup (DF.columns df) ->
  clean.handle_missing_values repr_number r threshold numeric_strategy
    categorical_strategy allow_drop_constant h = (Raise e, h') ->
  (exceeding threshold df <> [] /\
   e = TooManyMissingError (exceeding threshold df))
  \/
  (exceeding threshold df = [] /\
   exists c s msg,
     (c, s) ∈ df /\ e = ValueError msg /\
     Float.eqb (missing_rate s) Float.zero = false /\
     Float.le (missing_rate s) threshold = true /\
     ~ recognized s (if Ser.is_numeric_dtype s
                     then numeric_strategy else categorical_strategy)).
Proof.
  intros Hr Hnd Hrun.
  pose proof (handle_missing_values_run repr_number h r df threshold
                numeric_strategy categorical_strategy allow_drop_constant
                Hr Hnd) as R.
  destruct (exceeding threshold df) as [|x xs] eqn:Ex.
  - right. split; [done|].
    destruct (impute_loop _ _ _ _ df ∅) as [[imp rep0]|e0] eqn:El.
    { destruct R as [g R]. now rewrite R in Hrun. }
    destruct R as (cur & g & R). rewrite R in Hrun. injection Hrun as <- _.
    destruct (impute_loop_raise_step _ _ _ _ _ _ _ El) as (c & s & Hin & Hs).
    unfold column_step in Hs.
    destruct (Float.eqb (missing_rate s) Float.zero) eqn:Ez; [done|].
    destruct (Float.le (missing_rate s) threshold) eqn:Ele; [|done].
    destruct (impute_value_raise_kind _ _ _ _ Hs) as [msg ->].
    exists c, s, msg. repeat split; try done.
    apply (impute_value_raise repr_number). eauto.
  - left. rewrite R in Hrun. injection Hrun as <- _. split; [done|reflexivity].
Qed.

(** X4. With strategy names that [impute_column] knows, the call
    succeeds exactly when no column has a rate above the threshold. *)
Theorem handle_missing_values_succeeds
    (h : heap) r (df : DataFrame) threshold
    numeric_strategy categorical_strategy allow_drop_constant :
  h !! r = Some (OFrame df) ->
  NoDup (DF.columns df) ->
  numeric_strategy = "median" \/ numeric_strategy = "mean" \/
    numeric_strategy = "constant" ->
  categorical_strategy = "mode" \/ categorical_strategy = "constant" ->
  (exists r' rep h',
     clean.handle_missing_values repr_number r threshold numeric_strategy
       categorical_strategy allow_drop_constant h = (Ok (r', rep), h'))
  <->
  (forall c s, (c, s) ∈ df -> Float.gt (missing_rate s) threshold = false).
Proof.
  intros Hr Hnd Hns Hcs. split.
  - intros (r' & rep & h' & Hrun) c s Hin.
    destruct (handle_missing_values_success repr_number _ _ _ _ _ _ _ _ _ _
                Hr Hnd Hrun) as (imp & rep0 & g & Ex & _).
    exact (exceeding_nil_inv _ _ _ _ Ex Hin).
  - intros Hgt.
    pose proof (handle_missing_values_run repr_number h r df threshold
                  numeric_strategy categorical_strategy allow_drop_constant
                  Hr Hnd) as R.
    rewrite (exceeding_nil threshold df Hgt) in R.
    destruct (impute_loop _ _ _ _ df ∅) as [[imp rep0]|e0] eqn:El.
    { destruct R as [g R]. eauto. }
    exfalso.
    destruct (impute_loop_raise_step _ _ _ _ _ _ _ El) as (c & s & Hin & Hs).
    unfold column_step in Hs.
    destruct (Float.eqb (missing_rate s) Float.zero); [done|].
    destruct (Float.le (missing_rate s) threshold); [|done].
    assert (Hrec : ~ recognized s (if Ser.is_numeric_dtype s
                                   then numeric_strategy else categorical_strategy)).
    { apply (impute_value_raise repr_number). eauto. }
    apply Hrec. now destruct s.
Qed.

(** X5. On success the report has one entry for every column of the
    input, dropped or not, and no other entry. *)
Theorem handle_missing_values_report_keys
    (h : heap) r (df : DataFrame) threshold
    numeric_strategy categorical_strategy allow_drop_constant r' rep h' :
  h !! r = Some (OFrame df) ->
  NoDup (DF.columns df) ->
  clean.handle_missing_values repr_number r threshold numeric_strategy
    categorical_strategy allow_drop_constant h = (Ok (r', rep), h') ->
  forall c, is_Some (rep !! c) <-> c ∈ DF.columns df.
Proof.
  intros Hr Hnd Hrun c.
  destruct (handle_missing_values_success repr_number _ _ _ _ _ _ _ _ _ _
              Hr Hnd Hrun) as (imp & rep0 & g & _ & El & -> & _).
  pose proof (impute_loop_columns _ _ _ _ _ _ _ _ El) as Hcols.
  assert (Hnd' : NoDup (DF.columns imp)) by now rewrite Hcols.
  split.
  - intros Hsome. destruct (decide (c ∈ DF.columns df)) as [|Hn]; [done|].
    exfalso. unfold prune in Hsome.
    assert (H0 : rep0 !! c = None).
    { rewrite (impute_loop_outside _ _ _ _ _ _ _ _ c El Hn). apply lookup_empty. }
    destruct allow_drop_constant; simpl in Hsome.
    + rewrite mark_dropped_other, H0 in Hsome; [now destruct Hsome|].
      intros Hc. apply constant_cols_sub in Hc. now rewrite Hcols in Hc.
    + rewrite H0 in Hsome. now destruct Hsome.
  - intros Hc. apply elem_of_columns in Hc as [s Hin].
    destruct (impute_loop_elem _ _ _ _ _ _ _ _ c s El Hnd Hin)
      as (s' & i & _ & Hm & Hl).
    destruct (prune_elem allow_drop_constant imp rep0 c s' i Hnd' Hm Hl)
      as [(_ & _ & _ & ->)|(_ & _ & ->)]; eauto.
Qed.

(** X6. On success the returned table has the input's columns in the
    input's order, without the constant ones when pruning is enabled, and
    every returned column has the type, the length and all the values of
    the input column of the same label: only missing cells have been
    written. *)
Theorem handle_missing_values_keeps_observed
    (h : heap) r (df : DataFrame) threshold
    numeric_strategy categorical_strategy allow_drop_constant r' rep h' out :
  h !! r = Some (OFrame df) ->
  NoDup (DF.columns df) ->
  clean.handle_missing_values repr_number r threshold numeric_strategy
    categorical_strategy allow_drop_constant h = (Ok (r', rep), h') ->
  h' !! r' = Some (OFrame out) ->
  sublist (DF.columns out) (DF.columns df) /\
  (allow_drop_constant = false -> DF.columns out = DF.columns df) /\
  forall c s', (c, s') ∈ out ->
    exists s, (c, s) ∈ df /\ observed_kept repr_number s s'.
Proof.
  intros Hr Hnd Hrun Hout.
  destruct (handle_missing_values_success repr_number _ _ _ _ _ _ _ _ _ _
              Hr Hnd Hrun) as (imp & rep0 & g & _ & El & _ & -> & ->).
  rewrite lookup_work in Hout. injection Hout as <-.
  pose proof (impute_loop_columns _ _ _ _ _ _ _ _ El) as Hcols.
  assert (Hnd' : NoDup (DF.columns imp)) by now rewrite Hcols.
  rewrite (prune_table _ _ _ Hnd'). split; [|split].
  - rewrite <- Hcols. destruct allow_drop_constant; [|done].
    apply sublist_columns_filter.
  - now intros ->.
  - intros c s' Hin.
    assert (Hin' : (c, s') ∈ imp).
    { destruct allow_drop_constant; [|done].
      apply list_elem_of_In in Hin. apply List.filter_In in Hin as [Hin _].
      now apply list_elem_of_In. }
    destruct (impute_loop_elem_inv _ _ _ _ _ _ _ _ c s' El Hin')
      as (s & i & Hs & Hstep).
    exists s. split; [done|]. eapply column_step_observed; eauto.
Qed.

(** X7. A column without any missing cell, in a table with rows, is
    never rewritten: whatever the strategy names, on success its entry
    says strategy "none", and it is returned as it was unless it is
    constant and pruning is enabled. *)
Theorem handle_missing_values_complete_column
    (h : heap) r (df : DataFrame) threshold
    numeric_strategy categorical_strategy allow_drop_constant
    r' rep h' out c s :
  h !! r = Some (OFrame df) ->
  NoDup (DF.columns df) ->
  (c, s) ∈ df ->
  Ser.len s <> 0 ->
  Ser.bsum (Ser.isna s) = 0 ->
  clean.handle_missing_values repr_number r threshold numeric_strategy
    categorical_strategy allow_drop_constant h = (Ok (r', rep), h') ->
  h' !! r' = Some (OFrame out) ->
  exists e,
    rep !! c = Some e /\
    e !! "strategy" = Some (VStr "none") /\
    ((c, s) ∈ out \/
     allow_drop_constant = true /\ Ser.nunique s <= 1 /\
     (c ∉ DF.columns out) /\ e !! "dropped_constant" = Some (VBool true)).
Proof.
  intros Hr Hnd Hin Hlen Hb Hrun Hout.
  destruct (handle_missing_values_success repr_number _ _ _ _ _ _ _ _ _ _
              Hr Hnd Hrun) as (imp & rep0 & g & _ & El & -> & -> & ->).
  rewrite lookup_work in Hout. injection Hout as <-.
  pose proof (impute_loop_columns _ _ _ _ _ _ _ _ El) as Hcols.
  assert (Hnd' : NoDup (DF.columns imp)) by now rewrite Hcols.
  destruct (impute_loop_elem _ _ _ _ _ _ _ _ c s El Hnd Hin)
    as (s' & i & Hs & Hm & Hl).
  unfold column_step in Hs.
  destruct (missing_rate_unit_interval s Hlen) as [_ Hz].
  rewrite (Hz Hb) in Hs. simpl in Hs. injection Hs as <- <-.
  assert (Hnone : clean.no_missing_info !! "strategy" = Some (VStr "none"))
    by apply lookup_insert_eq.
  destruct (prune_elem allow_drop_constant imp rep0 c s _ Hnd' Hm Hl)
    as [(Ha & Hc & Hno & Hrep)|(_ & Hk & Hrep)]; eexists; (split; [exact Hrep|]).
  - split; [now rewrite dropped_flag_other by done|].
    right. split; [done|]. split; [now apply Nat.leb_le|]. split; [done|].
    apply lookup_insert_eq.
  - split; [done|now left].
Qed.

(** X8. The function is idempotent on what it returns: called again
    with the same arguments on the table of a successful call, it succeeds
    and returns an equal table. *)
Theorem handle_missing_values_idempotent
    (h : heap) r (df : DataFrame) threshold
    numeric_strategy categorical_strategy allow_drop_constant
    r1 rep1 h1 out :
  h !! r = Some (OFrame df) ->
  NoDup (DF.columns df) ->
  clean.handle_missing_values repr_number r threshold numeric_strategy
    categorical_strategy allow_drop_constant h = (Ok (r1, rep1), h1) ->
  h1 !! r1 = Some (OFrame out) ->
  exists r2 rep2 h2,
    clean.handle_missing_values repr_number r1 threshold numeric_strategy
      categorical_strategy allow_drop_constant h1 = (Ok (r2, rep2), h2) /\
    h2 !! r2 = Some (OFrame out).
Proof.
  intros Hr Hnd Hrun Hout.
  destruct (handle_missing_values_success repr_number _ _ _ _ _ _ _ _ _ _
              Hr Hnd Hrun) as (imp & rep0 & g & Ex & El & _ & Er & Eh).
  pose proof Hout as Hout'. rewrite Er, Eh, lookup_work in Hout'.
  injection Hout' as Eout.
  pose proof (impute_loop_columns _ _ _ _ _ _ _ _ El) as Hcols.
  assert (Hnd' : NoDup (DF.columns imp)) by now rewrite Hcols.
  rewrite (prune_table _ _ _ Hnd') in Eout.
  assert (Hsub : forall c s', (c, s') ∈ out -> (c, s') ∈ imp).
  { intros c s' Hin. rewrite <- Eout in Hin.
    destruct allow_drop_constant; [|done].
    apply list_elem_of_In in Hin. apply List.filter_In in Hin as [Hin _].
    now apply list_elem_of_In. }
  assert (Hndo : NoDup (DF.columns out)).
  { rewrite <- Eout. destruct allow_drop_constant; [|done].
    now apply NoDup_columns_filter. }
  assert (Hsettled : forall c s', (c, s') ∈ out ->
            (exists i', column_step repr_number threshold numeric_strategy
                          categorical_strategy s' = Ok (s', i')) /\
            Float.gt (missing_rate s') threshold = false).
  { intros c s' Hin.
    destruct (impute_loop_elem_inv _ _ _ _ _ _ _ _ c s' El (Hsub _ _ Hin))
      as (s & i & Hs & Hstep).
    eapply column_step_settled; [exact Hstep|].
    exact (exceeding_nil_inv _ _ _ _ Ex Hs). }
  destruct (handle_missing_values_passive repr_number h1 r1 out threshold
              numeric_strategy categorical_strategy allow_drop_constant
              Hout Hndo)
    as (rep2 & g2 & _ & R).
  { intros c s' Hin. apply (Hsettled c s' Hin). }
  { intros c s' Hin. apply (Hsettled c s' Hin). }
  eexists _, _, _. split; [exact R|].
  rewrite lookup_work, (prune_table _ _ _ Hndo). f_equal. f_equal.
  destruct allow_drop_constant; [|done].
  rewrite <- Eout. clear. induction imp as [|[c s] imp IH]; [done|].
  simpl. destruct (negb (Ser.nunique s <=? 1)) eqn:E; simpl.
  - rewrite E. now f_equal.
  - exact IH.
Qed.

(** X9. The function works on a copy: whatever the outcome, every object
    that existed before the call, the input table included, is the same
    after it. *)
Theorem handle_missing_values_preserves_heap
    (h : heap) r (df : DataFrame) threshold
    numeric_strategy categorical_strategy allow_drop_constant :
  h !! r = Some (OFrame df) ->
  NoDup (DF.columns df) ->
  forall r0 o, h !! r0 = Some o ->
    snd (clean.handle_missing_values repr_number r threshold numeric_strategy
           categorical_strategy allow_drop_constant h) !! r0 = Some o.
Proof.
  intros Hr Hnd r0 o H0.
  pose proof (handle_missing_values_run repr_number h r df threshold
                numeric_strategy categorical_strategy allow_drop_constant
                Hr Hnd) as R.
  destruct (exceeding threshold df) as [|x xs].
  - destruct (impute_loop _ _ _ _ df ∅) as [[imp rep0]|e0].
    + destruct R as [g ->]. simpl. now apply lookup_app_l_Some.
    + destruct R as (cur & g & ->). simpl. now apply lookup_app_l_Some.
  - rewrite R. simpl. now apply lookup_app_l_Some.
Qed.

End GateOutcomes.

(** ** [handle_missing_values] on the example tables *)

Lemma handle_missing_values_returns {fp : Arithmetic} (repr_number : Q -> string)
    (h : heap) r (df : DataFrame) threshold
    numeric_strategy categorical_strategy allow_drop_constant :
  h !! r = Some (OFrame df) ->
  NoDup (DF.columns df) ->
  exceeding threshold df = [] ->
  numeric_strategy = "median" \/ numeric_strategy = "mean" \/
    numeric_strategy = "constant" ->
  categorical_strategy = "mode" \/ categorical_strategy = "constant" ->
  exists r' rep h' out,
    clean.handle_missing_values repr_number r threshold numeric_strategy
      categorical_strategy allow_drop_constant h = (Ok (r', rep), h') /\
    h' !! r' = Some (OFrame out).
Proof.
  intros Hr Hnd Ex Hns Hcs.
  pose proof (handle_missing_values_run repr_number h r df threshold
                numeric_strategy categorical_strategy allow_drop_constant
                Hr Hnd) as R.
  rewrite Ex in R.
  destruct (impute_loop _ _ _ _ df ∅) as [[imp rep0]|e0] eqn:El.
  { destruct R as [g R]. eexists _, _, _, _. split; [exact R|apply lookup_work]. }
  exfalso.
  destruct (impute_loop_raise _ _ _ _ _ _ _ El) as (c & s & st & Hin & Hs).
  destruct (impute_loop_raise_step _ _ _ _ _ _ _ El) as (c' & s' & Hin' & Hs').
  unfold column_step in Hs'.
  destruct (Float.eqb (missing_rate s') Float.zero); [done|].
  destruct (Float.le (missing_rate s') threshold); [|done].
  assert (Hrec : ~ recognized s' (if Ser.is_numeric_dtype s'
                                  then numeric_strategy else categorical_strategy)).
  { apply (impute_value_raise repr_number). eauto. }
  apply Hrec. now destruct s'.
Qed.

Section GateExamples.

#[local] Existing Instance Syntax.exact_arithmetic.

Lemma constant_table_returns :
  exists r' rep h' out,
    clean.handle_missing_values Syntax.repr_fraction 0 (Fin (1 # 2))
      "median" "mode" true [OFrame Examples.constant_table]
    = (Ok (r', rep), h') /\
    h' !! r' = Some (OFrame out).
Proof.
  apply handle_missing_values_returns with (df := Examples.constant_table).
  - reflexivity.
  - distinct_labels.
  - vm_compute. reflexivity.
  - now left.
  - now left.
Qed.

(** With a NaN threshold and strategy names that do not exist, the table
    [1, NaN, 3, NaN, 5] comes back as it is, with a note. *)
Lemma handle_missing_values_nan_threshold_example :
  exists r' rep h' out,
    clean.handle_missing_values Syntax.repr_fraction 0 NaN
      "no_such" "no_such" false [OFrame Examples.median_table]
    = (Ok (r', rep), h') /\
    h' !! r' = Some (OFrame out) /\
    out = Examples.median_table /\
    exists e, rep !! "a" = Some e /\
              e !! "note" = Some (VStr "exceeds_threshold") /\
              e !! "strategy" = None.
Proof.
  destruct (handle_missing_values_nan_threshold Syntax.repr_fraction
              [OFrame Examples.median_table] 0 Examples.median_table
              "no_such" "no_such" false eq_refl)
    as (r' & rep & h' & out & Hrun & Hout & Eout & Hnote).
  - distinct_labels.
  - exists r', rep, h', out. repeat split; try done.
    apply (Hnote "a" (SFloat Examples.median_column)).
    + apply list_elem_of_here.
    + vm_compute. reflexivity.
Defined.

(** A table with two columns and no row loses both columns. *)
Lemma handle_missing_values_zero_rows_example :
  exists r' rep h' out,
    clean.handle_missing_values Syntax.repr_fraction 0 (Fin (7 # 100))
      "median" "mode" true [OFrame Examples.no_rows]
    = (Ok (r', rep), h') /\
    h' !! r' = Some (OFrame out) /\
    out = [] /\
    forall c, c ∈ DF.columns Examples.no_rows ->
      exists e, rep !! c = Some e /\
                e !! "note" = Some (VStr "exceeds_threshold") /\
                e !! "strategy" = None.
Proof.
  apply (handle_missing_values_zero_rows Syntax.repr_fraction
           [OFrame Examples.no_rows] 0 Examples.no_rows (Fin (7 # 100))
           "median" "mode" true eq_refl).
  - distinct_labels.
  - repeat constructor.
Defined.

(** The table with rate 0.2 is rejected at threshold 0.07, and that is
    the first of the two kinds of failure. *)
Lemma handle_missing_values_error_kinds_example :
  exists e h',
    clean.handle_missing_values Syntax.repr_fraction 0 (Fin (7 # 100))
      "median" "mode" true [OFrame Examples.sparse_table] = (Raise e, h') /\
    e = TooManyMissingError [("a", Fin (1 # 5))].
Proof.
  assert (Hnd : NoDup (DF.columns Examples.sparse_table)) by distinct_labels.
  pose proof (handle_missing_values_run Syntax.repr_fraction
                [OFrame Examples.sparse_table] 0 Examples.sparse_table
                (Fin (7 # 100)) "median" "mode" true eq_refl Hnd) as R.
  assert (Ex : exceeding (Fin (7 # 100)) Examples.sparse_table
               = [("a", Fin (1 # 5))]) by (vm_compute; reflexivity).
  rewrite Ex in R.
  eexists _, _. split; [exact R|].
  destruct (handle_missing_values_error_kinds Syntax.repr_fraction
              [OFrame Examples.sparse_table] 0 Examples.sparse_table
              (Fin (7 # 100)) "median" "mode" true _ _ eq_refl Hnd R)
    as [[_ He]|[Hn _]].
  - now rewrite He, Ex.
  - rewrite Ex in Hn. discriminate Hn.
Defined.

(** The table with rate 0.4 passes at threshold 0.5 with the strategies
    of the driver. *)
Lemma handle_missing_values_succeeds_example :
  exists r' rep h',
    clean.handle_missing_values Syntax.repr_fraction 0 (Fin (1 # 2))
      "median" "mode" true [OFrame Examples.median_table] = (Ok (r', rep), h').
Proof.
  apply (handle_missing_values_succeeds Syntax.repr_fraction
           [OFrame Examples.median_table] 0 Examples.median_table (Fin (1 # 2))
           "median" "mode" true eq_refl).
  - distinct_labels.
  - now left.
  - now left.
  - intros c s Hin. apply list_elem_of_singleton in Hin. injection Hin as -> ->.
    vm_compute. reflexivity.
Defined.

(** The report on the table with a constant column has the keys "a" and
    "b", although "b" is dropped. *)
Lemma handle_missing_values_report_keys_example :
  exists r' rep h',
    clean.handle_missing_values Syntax.repr_fraction 0 (Fin (1 # 2))
      "median" "mode" true [OFrame Examples.constant_table]
    = (Ok (r', rep), h') /\
    forall c, is_Some (rep !! c) <-> c ∈ ["a"; "b"].
Proof.
  destruct constant_table_returns as (r' & rep & h' & out & Hrun & Hout).
  exists r', rep, h'. split; [exact Hrun|].
  apply (handle_missing_values_report_keys Syntax.repr_fraction
           [OFrame Examples.constant_table] 0 Examples.constant_table
           (Fin (1 # 2)) "median" "mode" true r' rep h' eq_refl); [|exact Hrun].
  distinct_labels.
Defined.

Lemma handle_missing_values_keeps_observed_example :
  exists r' rep h' out,
    clean.handle_missing_values Syntax.repr_fraction 0 (Fin (1 # 2))
      "median" "mode" true [OFrame Examples.constant_table]
    = (Ok (r', rep), h') /\
    h' !! r' = Some (OFrame out) /\
    sublist (DF.columns out) ["a"; "b"] /\
    forall c s', (c, s') ∈ out ->
      exists s, (c, s) ∈ Examples.constant_table /\
                observed_kept Syntax.repr_fraction s s'.
Proof.
  destruct constant_table_returns as (r' & rep & h' & out & Hrun & Hout).
  exists r', rep, h', out. split; [exact Hrun|]. split; [exact Hout|].
  destruct (handle_missing_values_keeps_observed Syntax.repr_fraction
              [OFrame Examples.constant_table] 0 Examples.constant_table
              (Fin (1 # 2)) "median" "mode" true r' rep h' out eq_refl)
    as (Hsub & _ & Hobs); try done.
  distinct_labels.
Defined.

(** The constant column "b" has no missing cell. *)
Lemma handle_missing_values_complete_column_example :
  exists r' rep h' e,
    clean.handle_missing_values Syntax.repr_fraction 0 (Fin (1 # 2))
      "median" "mode" true [OFrame Examples.constant_table]
    = (Ok (r', rep), h') /\
    rep !! "b" = Some e /\
    e !! "strategy" = Some (VStr "none").
Proof.
  destruct constant_table_returns as (r' & rep & h' & out & Hrun & Hout).
  destruct (handle_missing_values_complete_column Syntax.repr_fraction
              [OFrame Examples.constant_table] 0 Examples.constant_table
              (Fin (1 # 2)) "median" "mode" true r' rep h' out "b"
              (SObject [OStr "x"; OStr "x"; OStr "x"; OStr "x"; OStr "x"])
              eq_refl)
    as (e & Hrep & Hnone & _); try done.
  - distinct_labels.
  - apply list_elem_of_further, list_elem_of_here.
  - exists r', rep, h', e. now repeat split.
Defined.

Lemma handle_missing_values_idempotent_example :
  exists r1 rep1 h1 out r2 rep2 h2,
    clean.handle_missing_values Syntax.repr_fraction 0 (Fin (1 # 2))
      "median" "mode" true [OFrame Examples.constant_table]
    = (Ok (r1, rep1), h1) /\
    h1 !! r1 = Some (OFrame out) /\
    clean.handle_missing_values Syntax.repr_fraction r1 (Fin (1 # 2))
      "median" "mode" true h1 = (Ok (r2, rep2), h2) /\
    h2 !! r2 = Some (OFrame out).
Proof.
  destruct constant_table_returns as (r1 & rep1 & h1 & out & Hrun & Hout).
  destruct (handle_missing_values_idempotent Syntax.repr_fraction
              [OFrame Examples.constant_table] 0 Examples.constant_table
              (Fin (1 # 2)) "median" "mode" true r1 rep1 h1 out eq_refl)
    as (r2 & rep2 & h2 & Hrun2 & Hout2); try done.
  - distinct_labels.
  - exists r1, rep1, h1, out, r2, rep2, h2. now repeat split.
Defined.

(** The input table is still at its place after a rejection. *)
Lemma handle_missing_values_preserves_heap_example :
  snd (clean.handle_missing_values Syntax.repr_fraction 0 (Fin (7 # 100))
         "median" "mode" true [OFrame Examples.sparse_table]) !! 0
  = Some (OFrame Examples.sparse_table).
Proof.
  apply (handle_missing_values_preserves_heap Syntax.repr_fraction
           [OFrame Examples.sparse_table] 0 Examples.sparse_table
           (Fin (7 # 100)) "median" "mode" true eq_refl); [|reflexivity].
  distinct_labels.
Defined.

End GateExamples.

(** * Further properties of the cleaning *)

(** X10. A normalized label holds no space and no ASCII capital, and
    neither starts nor ends with a whitespace character. *)
Theorem normalize_label_normal_form (c : string) :
  let l := list_ascii_of_string (clean.normalize_label c) in
  Forall (fun ch => ch <> " "%char /\ PyStr.lower_char ch = ch) l /\
  PyStr.starts_clean l /\ PyStr.starts_clean (rev l).
Proof.
  simpl. rewrite LabelFacts.normalize_label_chars.
  rewrite list_ascii_of_string_of_list_ascii. unfold PyStr.norm_chars.
  destruct (LabelFacts.strip_chars_clean (list_ascii_of_string c)) as [Hl Hr].
  set (x := PyStr.strip_chars (list_ascii_of_string c)) in *.
  split; [|split].
  - apply List.Forall_forall. intros ch Hin.
    apply in_map_iff in Hin as (c0 & <- & _).
    destruct c0 as [[] [] [] [] [] [] [] []];
      (split; [vm_compute; congruence|reflexivity]).
  - now apply LabelFacts.starts_clean_map.
  - rewrite <- List.map_rev. now apply LabelFacts.starts_clean_map.
Qed.

Lemma columns_relabel (df : DataFrame) :
  DF.columns (relabel df) = List.map clean.normalize_label (DF.columns df).
Proof.
  unfold relabel, DF.columns. rewrite !List.map_map. now apply List.map_ext.
Qed.

Lemma columns_drop_duplicates (df : DataFrame) :
  DF.columns (DF.drop_duplicates df) = DF.columns df.
Proof.
  unfold DF.drop_duplicates, DF.columns. rewrite List.map_map.
  now apply List.map_ext.
Qed.

Lemma height_relabel n (df : DataFrame) : height n df -> height n (relabel df).
Proof.
  unfold height, relabel. rewrite !List.Forall_forall.
  intros Hh x Hx. apply in_map_iff in Hx as (y & <- & Hy). simpl. now apply Hh.
Qed.

Lemma rows_length (df : DataFrame) : length (DF.rows df) = DF.nrows df.
Proof. unfold DF.rows. now rewrite List.length_map, List.length_seq. Qed.

Lemma select_series_dtype mask (s : Series) :
  Ser.is_numeric_dtype (DF.select_series mask s) = Ser.is_numeric_dtype s.
Proof. now destruct s. Qed.

Section CleaningFacts.

Variable parse_number : string -> float.

Local Abbreviation coerce_column := (coerce_column parse_number).
Local Abbreviation coerce_columns := (coerce_columns parse_number).
Local Abbreviation cleaned := (cleaned parse_number).
Local Abbreviation numeric_ratio := (numeric_ratio parse_number).

Lemma initial_cleaning_success (h : heap) r (df : DataFrame) r1 h1 t :
  h !! r = Some (OFrame df) ->
  clean.initial_cleaning parse_number r h = (Ok r1, h1) ->
  h1 !! r1 = Some (OFrame t) ->
  cleaned df = Ok t.
Proof.
  intros Hr Hrun Ht.
  pose proof (initial_cleaning_run parse_number h r df Hr) as R.
  destruct (cleaned df) as [t'|e].
  - destruct R as (r1' & ext & R & L). rewrite R in Hrun.
    injection Hrun as <- <-. rewrite L in Ht. now injection Ht as <-.
  - destruct R as [ext R]. now rewrite R in Hrun.
Qed.

Lemma initial_cleaning_failure (h : heap) r (df : DataFrame) e h1 :
  h !! r = Some (OFrame df) ->
  clean.initial_cleaning parse_number r h = (Raise e, h1) ->
  cleaned df = Raise e.
Proof.
  intros Hr Hrun.
  pose proof (initial_cleaning_run parse_number h r df Hr) as R.
  destruct (cleaned df) as [t'|e'].
  - destruct R as (r1' & ext & R & L). now rewrite R in Hrun.
  - destruct R as [ext R]. rewrite R in Hrun. now injection Hrun as <- _.
Qed.

Lemma cleaned_stages (df t : DataFrame) :
  cleaned df = Ok t ->
  exists d3,
    NoDup (DF.columns (relabel df)) /\
    coerce_columns (drop_all_na (relabel df)) = Ok d3 /\
    t = DF.drop_duplicates d3.
Proof.
  unfold cleaned. intros Hc.
  destruct (unique_labels (relabel df)) eqn:Eu; [|done].
  destruct (coerce_columns (drop_all_na (relabel df))) as [d3|] eqn:Ec; [|done].
  injection Hc as <-. exists d3. split; [now apply unique_labels_NoDup|done].
Qed.

Lemma coerced_from (d2 d3 : DataFrame) c s3 :
  coerce_columns d2 = Ok d3 -> In (c, s3) d3 ->
  exists s2, In (c, s2) d2 /\ coerce_column s2 = Ok s3.
Proof.
  intros Ec. pose proof (coerce_columns_Forall2 parse_number d2 d3 Ec) as HF.
  clear Ec. revert c s3.
  induction HF as [|[c2 s2] [c3' s3'] d2 d3 [E1 E2] HF IH]; [done|].
  simpl in *. subst. intros c s [[= <- <-]|Hin].
  - exists s2. split; [now left|done].
  - destruct (IH c s Hin) as (s2' & Hin2 & E). exists s2'. split; [now right|done].
Qed.

Lemma height_coerced n (d2 d3 : DataFrame) :
  coerce_columns d2 = Ok d3 -> height n d2 -> height n d3.
Proof.
  intros Ec Hh. unfold height in *. rewrite List.Forall_forall in *.
  intros [c s3] Hin. destruct (coerced_from d2 d3 c s3 Ec Hin) as (s2 & Hin2 & E).
  simpl. rewrite (coerce_column_len parse_number _ _ E). apply (Hh _ Hin2).
Qed.

Lemma coerce_columns_raise (d : DataFrame) e :
  coerce_columns d = Raise e ->
  e = AttributeError "Can only use .str accessor with string values" /\
  exists c os, In (c, SObject os) d /\ clean.str_accessor_ok os = false.
Proof.
  induction d as [|[c s] d IH]; simpl; [done|].
  destruct (coerce_column s) as [s'|e'] eqn:E.
  - destruct (coerce_columns d) as [d'|e'']; [done|].
    intros [= <-]. destruct (IH eq_refl) as (-> & c' & os & Hin & Hbad).
    split; [done|]. exists c', os. split; [now right|done].
  - intros [= <-]. destruct s as [xs|os]; [done|].
    rewrite coerce_column_object in E.
    destruct (clean.str_accessor_ok os) eqn:Ea.
    { now destruct (Float.ge _ _). }
    injection E as <-. split; [done|]. exists c, os. split; [now left|done].
Qed.

Lemma coerce_columns_ok (d : DataFrame) :
  (forall c os, In (c, SObject os) d -> clean.str_accessor_ok os = true) ->
  exists d', coerce_columns d = Ok d'.
Proof.
  intros Hok. destruct (coerce_columns d) as [d'|e] eqn:E; [eauto|].
  destruct (coerce_columns_raise d e E) as (_ & c & os & Hin & Hbad).
  rewrite (Hok c os Hin) in Hbad. discriminate Hbad.
Qed.

Lemma all_na_accessor os :
  all_na (SObject os) = true -> clean.str_accessor_ok os = true.
Proof.
  unfold all_na, Ser.ball, Ser.isna, clean.str_accessor_ok. simpl.
  rewrite forallb_id_map. intros ->. apply orb_true_r.
Qed.

Lemma in_drop_all_na_relabel (df : DataFrame) c s :
  In (c, s) (drop_all_na (relabel df)) <->
  exists c0, In (c0, s) df /\ c = clean.normalize_label c0 /\ all_na s = false.
Proof.
  unfold drop_all_na, relabel. rewrite List.filter_In, in_map_iff. simpl. split.
  - intros [([c0 s0] & [= <- <-] & Hin) Hn]. exists c0.
    repeat split; try done. now apply negb_true_iff.
  - intros (c0 & Hin & -> & Hn). split; [now exists (c0, s)|].
    now apply negb_true_iff.
Qed.

(** X11. [initial_cleaning] succeeds exactly when the normalized labels
    are distinct and every object column holds a text cell or only
    missing cells. *)
Theorem initial_cleaning_succeeds (h : heap) r (df : DataFrame) :
  h !! r = Some (OFrame df) ->
  (exists r1 h1, clean.initial_cleaning parse_number r h = (Ok r1, h1))
  <->
  NoDup (List.map clean.normalize_label (DF.columns df)) /\
  (forall c os, (c, SObject os) ∈ df -> clean.str_accessor_ok os = true).
Proof.
  intros Hr. pose proof (initial_cleaning_run parse_number h r df Hr) as R.
  rewrite <- columns_relabel. split.
  - intros (r1 & h1 & Hrun).
    destruct (cleaned df) as [t|e] eqn:Ec.
    2:{ destruct R as [ext R]. now rewrite R in Hrun. }
    destruct (cleaned_stages df t Ec) as (d3 & Hnd & Eco & _).
    split; [done|]. intros c os Hin.
    destruct (all_na (SObject os)) eqn:Ena; [now apply all_na_accessor|].
    destruct (clean.str_accessor_ok os) eqn:Ea; [done|]. exfalso.
    assert (Hin2 : In (clean.normalize_label c, SObject os)
                      (drop_all_na (relabel df))).
    { apply in_drop_all_na_relabel. exists c.
      split; [now apply list_elem_of_In|done]. }
    clear -Eco Hin2 Ea. revert d3 Eco.
    induction (drop_all_na (relabel df)) as [|[c' s'] d IH]; [done|].
    simpl. intros d3 Eco. destruct Hin2 as [[= -> ->]|Hin2].
    + rewrite coerce_column_object, Ea in Eco. discriminate Eco.
    + destruct (coerce_column s'); [|done].
      destruct (coerce_columns d) as [d'|] eqn:E'; [|done].
      exact (IH Hin2 d' eq_refl).
  - intros [Hnd Hok].
    destruct (coerce_columns_ok (drop_all_na (relabel df))) as [d3 Eco].
    { intros c os Hin. apply in_drop_all_na_relabel in Hin as (c0 & Hin & _).
      apply (Hok c0). now apply list_elem_of_In. }
    assert (Ec : cleaned df = Ok (DF.drop_duplicates d3)).
    { unfold cleaned. apply unique_labels_NoDup in Hnd. now rewrite Hnd, Eco. }
    rewrite Ec in R. destruct R as (r1 & ext & R & _). eauto.
Qed.

(** X12. The only failures of [initial_cleaning] are a ValueError, when
    two labels are equal after normalization, and otherwise an
    AttributeError, when an object column with a value holds no text. *)
Theorem initial_cleaning_error_kinds (h : heap) r (df : DataFrame) e h1 :
  h !! r = Some (OFrame df) ->
  clean.initial_cleaning parse_number r h = (Raise e, h1) ->
  (e = ValueError "The truth value of a Series is ambiguous" /\
   ~ NoDup (List.map clean.normalize_label (DF.columns df)))
  \/
  (e = AttributeError "Can only use .str accessor with string values" /\
   NoDup (List.map clean.normalize_label (DF.columns df)) /\
   exists c os, (c, SObject os) ∈ df /\
                all_na (SObject os) = false /\
                existsb Ser.obj_is_str os = false).
Proof.
  intros Hr Hrun. pose proof (initial_cleaning_failure h r df e h1 Hr Hrun) as Ec.
  rewrite <- columns_relabel. unfold cleaned in Ec.
  destruct (unique_labels (relabel df)) eqn:Eu.
  - right. apply unique_labels_NoDup in Eu.
    destruct (coerce_columns (drop_all_na (relabel df))) as [d3|e'] eqn:Eco; [done|].
    injection Ec as ->.
    destruct (coerce_columns_raise _ _ Eco) as (-> & c & os & Hin & Hbad).
    split; [done|]. split; [done|].
    apply in_drop_all_na_relabel in Hin as (c0 & Hin & _ & Hna).
    exists c0, os. split; [now apply list_elem_of_In|]. split; [done|].
    unfold clean.str_accessor_ok in Hbad. now apply orb_false_iff in Hbad as [? _].
  - left. injection Ec as <-. split; [done|].
    intros Hnd. apply unique_labels_NoDup in Hnd. congruence.
Qed.

(** X13. [initial_cleaning] works on a copy: whatever the outcome, every
    object that existed before the call, the input table included, is the
    same after it. *)
Theorem initial_cleaning_preserves_heap (h : heap) r (df : DataFrame) :
  h !! r = Some (OFrame df) ->
  forall r0 o, h !! r0 = Some o ->
    snd (clean.initial_cleaning parse_number r h) !! r0 = Some o.
Proof.
  intros Hr r0 o H0.
  pose proof (initial_cleaning_run parse_number h r df Hr) as R.
  destruct (cleaned df) as [t|e].
  - destruct R as (r1 & ext & -> & _). simpl. now apply lookup_app_l_Some.
  - destruct R as (ext & ->). simpl. now apply lookup_app_l_Some.
Qed.

(** X14. The labels of the cleaned table are distinct, each is its own
    normal form, and they are the normalized labels of the input in the
    input's order, some possibly left out. *)
Theorem initial_cleaning_labels (h : heap) r (df : DataFrame) r1 h1 t :
  h !! r = Some (OFrame df) ->
  clean.initial_cleaning parse_number r h = (Ok r1, h1) ->
  h1 !! r1 = Some (OFrame t) ->
  NoDup (DF.columns t) /\
  sublist (DF.columns t) (List.map clean.normalize_label (DF.columns df)) /\
  (forall c, c ∈ DF.columns t -> clean.normalize_label c = c).
Proof.
  intros Hr Hrun Ht.
  pose proof (initial_cleaning_success h r df r1 h1 t Hr Hrun Ht) as Ec.
  destruct (cleaned_stages df t Ec) as (d3 & Hnd & Eco & ->).
  rewrite columns_drop_duplicates.
  rewrite (coerce_columns_columns parse_number _ _ Eco).
  rewrite <- columns_relabel. unfold drop_all_na.
  assert (Hsub : sublist (DF.columns (List.filter
                            (fun cs => negb (all_na (snd cs))) (relabel df)))
                         (DF.columns (relabel df)))
    by apply sublist_columns_filter.
  split; [now apply NoDup_columns_filter|]. split; [done|].
  intros c Hc. apply columns_filter_sub in Hc. rewrite columns_relabel in Hc.
  apply list_elem_of_In, in_map_iff in Hc as (c0 & <- & _).
  apply LabelFacts.normalize_label_idem.
Qed.

(** X15. In the cleaned table of a table with [n] rows, all columns have
    the same number of rows, at most [n], and every column holds at least
    one value. *)
Theorem initial_cleaning_no_empty_column
    (h : heap) r (df : DataFrame) n r1 h1 t :
  h !! r = Some (OFrame df) ->
  height n df ->
  clean.initial_cleaning parse_number r h = (Ok r1, h1) ->
  h1 !! r1 = Some (OFrame t) ->
  (exists m, m <= n /\ height m t) /\
  (forall c s, (c, s) ∈ t -> all_na s = false).
Proof.
  intros Hr Hh Hrun Ht.
  pose proof (initial_cleaning_success h r df r1 h1 t Hr Hrun Ht) as Ec.
  destruct (cleaned_stages df t Ec) as (d3 & Hnd & Eco & ->).
  assert (Hh3 : height n d3).
  { apply (height_coerced n _ _ Eco). apply height_filter. now apply height_relabel. }
  split.
  - destruct d3 as [|cs d3'] eqn:Ed; [exists 0; split; [lia|constructor]|].
    rewrite <- Ed in *.
    assert (Hne : d3 <> []) by now rewrite Ed.
    destruct (drop_duplicates_rows n d3 Hh3 Hne) as (Hlen & Hk & _).
    eexists. split; [|exact Hk].
    rewrite <- Hlen. apply bsum_le_length.
  - intros c s Hin. apply list_elem_of_In in Hin.
    unfold DF.drop_duplicates in Hin.
    apply in_map_iff in Hin as ([c3 s3] & [= <- <-] & Hin).
    destruct (coerced_from _ _ _ _ Eco Hin) as (s2 & Hin2 & E).
    apply in_drop_all_na_relabel in Hin2 as (c0 & _ & _ & Hna).
    apply all_na_false.
    apply (drop_duplicates_keeps _ n d3 c3 s3); [|done|done|].
    + intros a b Eab. now rewrite (isna_congr a b Eab).
    + apply all_na_false. exact (coerce_column_not_all_na parse_number _ _ E Hna).
Qed.

(** X16. The cleaned table has no two equal rows: [duplicated()] marks
    none of them. *)
Theorem initial_cleaning_no_duplicate_rows
    (h : heap) r (df : DataFrame) n r1 h1 t :
  h !! r = Some (OFrame df) ->
  height n df ->
  clean.initial_cleaning parse_number r h = (Ok r1, h1) ->
  h1 !! r1 = Some (OFrame t) ->
  DF.duplicated t = repeat false (DF.nrows t).
Proof.
  intros Hr Hh Hrun Ht.
  pose proof (initial_cleaning_success h r df r1 h1 t Hr Hrun Ht) as Ec.
  destruct (cleaned_stages df t Ec) as (d3 & Hnd & Eco & ->).
  assert (Hh3 : height n d3).
  { apply (height_coerced n _ _ Eco). apply height_filter. now apply height_relabel. }
  destruct d3 as [|cs d3'] eqn:Ed; [reflexivity|]. rewrite <- Ed in *.
  assert (Hne : d3 <> []) by now rewrite Ed.
  destruct (drop_duplicates_rows n d3 Hh3 Hne) as (_ & _ & Hrows).
  rewrite <- rows_length. unfold DF.duplicated. rewrite Hrows.
  now apply duplicated_dedup.
Qed.

(** X17. A table without rows is cleaned into a table without columns:
    every column counts as entirely missing. *)
Theorem initial_cleaning_zero_rows (h : heap) r (df : DataFrame) :
  h !! r = Some (OFrame df) ->
  NoDup (List.map clean.normalize_label (DF.columns df)) ->
  height 0 df ->
  exists r1 h1,
    clean.initial_cleaning parse_number r h = (Ok r1, h1) /\
    h1 !! r1 = Some (OFrame []).
Proof.
  intros Hr Hnd Hh.
  pose proof (initial_cleaning_run parse_number h r df Hr) as R.
  assert (Hd : drop_all_na (relabel df) = []).
  { apply filter_none. intros [c s] Hin. simpl. apply negb_false_iff.
    apply height_relabel in Hh. unfold height in Hh.
    rewrite List.Forall_forall in Hh. specialize (Hh _ Hin). simpl in Hh.
    unfold all_na, Ser.ball, Ser.isna.
    rewrite <- len_cells in Hh. now destruct (Ser.cells s). }
  assert (Ec : cleaned df = Ok []).
  { unfold cleaned. rewrite <- columns_relabel in Hnd.
    apply unique_labels_NoDup in Hnd. now rewrite Hnd, Hd. }
  rewrite Ec in R. destruct R as (r1 & ext & R & L). eauto.
Qed.

(** X18. A column of the cleaned table is numeric exactly when the input
    column it comes from was numeric, or was an object column of which at
    least half the cells read as numbers. *)
Theorem initial_cleaning_column_types
    (h : heap) r (df : DataFrame) r1 h1 t c s' :
  h !! r = Some (OFrame df) ->
  clean.initial_cleaning parse_number r h = (Ok r1, h1) ->
  h1 !! r1 = Some (OFrame t) ->
  (c, s') ∈ t ->
  exists c0 s,
    (c0, s) ∈ df /\ clean.normalize_label c0 = c /\
    Ser.is_numeric_dtype s'
    = match s with
      | SFloat _ => true
      | SObject os => Float.ge (numeric_ratio os) Float.half
      end.
Proof.
  intros Hr Hrun Ht Hin.
  pose proof (initial_cleaning_success h r df r1 h1 t Hr Hrun Ht) as Ec.
  destruct (cleaned_stages df t Ec) as (d3 & Hnd & Eco & ->).
  apply list_elem_of_In in Hin. unfold DF.drop_duplicates in Hin.
  apply in_map_iff in Hin as ([c3 s3] & [= <- <-] & Hin).
  destruct (coerced_from _ _ _ _ Eco Hin) as (s2 & Hin2 & E).
  apply in_drop_all_na_relabel in Hin2 as (c0 & Hin0 & -> & _).
  exists c0, s2. split; [now apply list_elem_of_In|]. split; [done|].
  rewrite select_series_dtype. destruct s2 as [xs|os].
  - now injection E as <-.
  - rewrite coerce_column_object in E.
    destruct (clean.str_accessor_ok os); [|done].
    destruct (Float.ge (numeric_ratio os) Float.half); now injection E as <-.
Qed.

End CleaningFacts.

(** * Further properties of [impute_column] *)

Section ImputeFacts.

Variable repr_number : Q -> string.
Context {fp : Arithmetic}.

(** X19. [impute_column] returns a new column and leaves its argument
    as it was; the new column has the type and the length of the
    argument and holds the argument's values wherever it had one. *)
Theorem impute_column_keeps_observed
    (h : heap) r (v : Series) strategy r' i h' :
  h !! r = Some (OSeries v) ->
  clean.impute_column repr_number r strategy h = (Ok (r', i), h') ->
  exists v',
    h' !! r' = Some (OSeries v') /\
    observed_kept repr_number v v' /\
    h' !! r = Some (OSeries v) /\
    h !! r' = None.
Proof.
  intros Hr Hrun. rewrite (impute_column_run repr_number h r v strategy Hr) in Hrun.
  destruct (impute_value repr_number v strategy) as [[v' i']|e] eqn:E; [|done].
  injection Hrun as <- <- <-. exists v'. split; [|split; [|split]].
  - rewrite lookup_app_r by lia.
    now replace (S (length h) - length h) with 1 by lia.
  - exact (impute_value_observed repr_number v v' strategy i' E).
  - now apply lookup_app_l_Some.
  - apply lookup_ge_None. lia.
Qed.

(** X20. The report of [impute_column] counts the missing cells of the
    argument and of the result, and the second count is either 0 or the
    first one: a column is filled entirely or not at all. *)
Theorem impute_column_report_counts
    (h : heap) r (v : Series) strategy r' i h' v' :
  h !! r = Some (OSeries v) ->
  clean.impute_column repr_number r strategy h = (Ok (r', i), h') ->
  h' !! r' = Some (OSeries v') ->
  i !! "n_missing_before" = Some (VInt (Z.of_nat (Ser.bsum (Ser.isna v)))) /\
  i !! "n_missing_after" = Some (VInt (Z.of_nat (Ser.bsum (Ser.isna v')))) /\
  i !! "strategy" = Some (VStr strategy) /\
  (Ser.bsum (Ser.isna v') = 0 \/ v' = v).
Proof.
  intros Hr Hrun Hv'.
  rewrite (impute_column_run repr_number h r v strategy Hr) in Hrun.
  destruct (impute_value repr_number v strategy) as [[v1 i']|e] eqn:E; [|done].
  injection Hrun as <- <- <-.
  rewrite lookup_app_r in Hv' by lia.
  replace (S (length h) - length h) with 1 in Hv' by lia.
  injection Hv' as <-.
  destruct v as [xs|os]; simpl in E.
  - destruct (numeric_fill strategy xs) as [fill|]; [|done].
    injection E as <- <-. unfold base_info.
    split; [|split; [|split]].
    + do 2 (rewrite lookup_insert_ne by done). apply lookup_insert_eq.
    + apply lookup_insert_eq.
    + do 3 (rewrite lookup_insert_ne by done). apply lookup_insert_eq.
    + destruct fill as [|m|sg].
      * right. now rewrite ffillna_nan.
      * left. now apply ffillna_no_missing.
      * left. now apply ffillna_no_missing.
  - destruct (categorical_fill strategy os) as [fill|]; [|done].
    injection E as <- <-. unfold base_info.
    split; [|split; [|split]].
    + do 2 (rewrite lookup_insert_ne by done). apply lookup_insert_eq.
    + apply lookup_insert_eq.
    + do 3 (rewrite lookup_insert_ne by done). apply lookup_insert_eq.
    + left. apply astype_str_no_missing.
Qed.

(** X21. On a numeric column, [impute_column] with "mean" puts
    [s.mean()] in every missing cell, leaves the other cells alone and
    records that value as the fill value.  [s.mean()] is NaN when the
    column has no value and when it holds both [-inf] and [+inf]; when
    it is not NaN no missing cell remains, and when it is NaN the column
    comes back as it was, with as many missing cells as before. *)
Theorem impute_column_mean (h : heap) r (xs : list float) :
  h !! r = Some (OSeries (SFloat xs)) ->
  exists r' i h',
    clean.impute_column repr_number r "mean" h = (Ok (r', i), h') /\
    h' !! r' = Some (OSeries (SFloat
                 (List.map (fun x => match x with
                                     | NaN => Ser.fmean xs
                                     | _ => x
                                     end) xs))) /\
    i !! "fill_value" = Some (VFloat (Ser.fmean xs)) /\
    (Ser.fdropna xs = [] -> Ser.fmean xs = NaN) /\
    (Ser.has_inf true xs = true -> Ser.has_inf false xs = true ->
     Ser.fmean xs = NaN) /\
    (Float.isnan (Ser.fmean xs) = false ->
     i !! "n_missing_after" = Some (VInt 0)) /\
    (Float.isnan (Ser.fmean xs) = true ->
     h' !! r' = Some (OSeries (SFloat xs)) /\
     i !! "n_missing_after" = i !! "n_missing_before").
Proof.
  intros Hr.
  pose proof (impute_column_run repr_number h r (SFloat xs) "mean" Hr) as R.
  simpl in R. unfold numeric_fill in R. simpl in R.
  eexists _, _, _. split; [exact R|].
  assert (Hcol : (h ++ [OSeries (SFloat xs);
                        OSeries (SFloat (Ser.ffillna (Ser.fmean xs) xs))])
                 !! S (length h)
                 = Some (OSeries (SFloat (Ser.ffillna (Ser.fmean xs) xs)))).
  { rewrite lookup_app_r by lia.
    now replace (S (length h) - length h) with 1 by lia. }
  split; [|split; [|split; [|split; [|split]]]].
  - rewrite Hcol. do 3 f_equal. unfold Ser.ffillna.
    apply List.map_ext. now intros [|q|[]].
  - rewrite lookup_insert_ne by done. apply lookup_insert_eq.
  - intros E. unfold Ser.fmean. now rewrite E.
  - intros Hneg Hpos. unfold Ser.fmean. rewrite Hneg, Hpos.
    now destruct (Ser.fdropna xs).
  - intros Hfill. rewrite lookup_insert_eq. unfold clean.n_missing.
    now rewrite ffillna_no_missing.
  - intros Hfill. destruct (Ser.fmean xs) as [|q|sg]; try done.
    rewrite ffillna_nan in *. split; [exact Hcol|].
    rewrite lookup_insert_eq. unfold base_info.
    do 2 (rewrite lookup_insert_ne by done). now rewrite lookup_insert_eq.
Qed.

(** X22. With "constant" nothing depends on the data: a numeric column
    gets 0 and an object column the text "missing" in every missing cell,
    and no missing cell remains. *)
Theorem impute_column_constant (h : heap) r (v : Series) :
  h !! r = Some (OSeries v) ->
  exists r' i h' v',
    clean.impute_column repr_number r "constant" h = (Ok (r', i), h') /\
    h' !! r' = Some (OSeries v') /\
    v' = match v with
         | SFloat xs => SFloat (Ser.ffillna (Fin 0) xs)
         | SObject os =>
             SObject (clean.astype_str repr_number (Ser.ofillna (OStr "missing") os))
         end /\
    i !! "fill_value" = Some (match v with
                              | SFloat _ => VFloat (Fin 0)
                              | SObject _ => VStr "missing"
                              end) /\
    Ser.bsum (Ser.isna v') = 0.
Proof.
  intros Hr.
  pose proof (impute_column_run repr_number h r v "constant" Hr) as R.
  destruct v as [xs|os]; simpl in R.
  - unfold numeric_fill in R. simpl in R.
    eexists _, _, _, _. split; [exact R|]. split; [|split; [done|split]].
    + rewrite lookup_app_r by lia.
      now replace (S (length h) - length h) with 1 by lia.
    + rewrite lookup_insert_ne by done. apply lookup_insert_eq.
    + now apply ffillna_no_missing.
  - unfold categorical_fill in R. simpl in R.
    eexists _, _, _, _. split; [exact R|]. split; [|split; [done|split]].
    + rewrite lookup_app_r by lia.
      now replace (S (length h) - length h) with 1 by lia.
    + rewrite lookup_insert_ne by done. apply lookup_insert_eq.
    + apply astype_str_no_missing.
Qed.

End ImputeFacts.

(** * Cleaning followed by imputation *)

Lemma not_all_na_observed (xs : list float) :
  all_na (SFloat xs) = false -> Ser.fdropna xs <> [].
Proof.
  unfold all_na, Ser.ball, Ser.isna, Ser.fdropna. simpl.
  induction xs as [|[|q|sg] xs IH]; simpl; [done| |done|done].
  exact IH.
Qed.

Lemma not_all_na_len (s : Series) : all_na s = false -> Ser.len s <> 0.
Proof.
  intros Hna H0. rewrite <- len_cells in H0.
  unfold all_na, Ser.ball, Ser.isna in Hna.
  now destruct (Ser.cells s).
Qed.

Section Pipeline.

Variable parse_number : string -> float.
Variable repr_number : Q -> string.
Context {fp : Arithmetic}.

Lemma cleaned_wellformed n (df t : DataFrame) :
  height n df ->
  cleaned parse_number df = Ok t ->
  NoDup (DF.columns t) /\
  forall c s, (c, s) ∈ t -> all_na s = false.
Proof.
  intros Hh Ec.
  destruct (cleaned_stages parse_number df t Ec) as (d3 & Hnd & Eco & ->).
  assert (Hh3 : height n d3).
  { apply (height_coerced parse_number n _ _ Eco).
    apply height_filter. now apply height_relabel. }
  split.
  - rewrite columns_drop_duplicates.
    rewrite (coerce_columns_columns parse_number _ _ Eco).
    now apply NoDup_columns_filter.
  - intros c s Hin. apply list_elem_of_In in Hin.
    unfold DF.drop_duplicates in Hin.
    apply in_map_iff in Hin as ([c3 s3] & [= <- <-] & Hin).
    destruct (coerced_from parse_number _ _ _ _ Eco Hin) as (s2 & Hin2 & E).
    apply in_drop_all_na_relabel in Hin2 as (c0 & _ & _ & Hna).
    apply all_na_false.
    apply (drop_duplicates_keeps _ n d3 c3 s3); [|done|done|].
    + intros a b Eab. now rewrite (isna_congr a b Eab).
    + apply all_na_false. exact (coerce_column_not_all_na parse_number _ _ E Hna).
Qed.

(** X23. The two steps of the driver in sequence: when
    [initial_cleaning] and then [handle_missing_values], with a threshold
    that is a number and the numeric strategy "median" (the driver's) or
    "constant", both succeed, and the cleaned table holds no infinite
    value, the final table has no missing cell at all, and with pruning
    enabled every column of it holds at least two distinct values. *)
Theorem cleaning_then_gate_leaves_no_missing
    (h : heap) r (df : DataFrame) n r1 h1 t q
    numeric_strategy categorical_strategy allow_drop_constant
    r2 rep h2 out :
  h !! r = Some (OFrame df) ->
  height n df ->
  clean.initial_cleaning parse_number r h = (Ok r1, h1) ->
  h1 !! r1 = Some (OFrame t) ->
  numeric_strategy = "median" \/ numeric_strategy = "constant" ->
  (forall c xs, (c, SFloat xs) ∈ t ->
                Forall (fun x => Float.isinf x = false) xs) ->
  clean.handle_missing_values repr_number r1 (Fin q) numeric_strategy
    categorical_strategy allow_drop_constant h1 = (Ok (r2, rep), h2) ->
  h2 !! r2 = Some (OFrame out) ->
  forall c s, (c, s) ∈ out ->
    Ser.bsum (Ser.isna s) = 0 /\
    (allow_drop_constant = true -> 1 < Ser.nunique s).
Proof.
  intros Hr Hh Hclean Ht Hns Hfinite Hgate Hout c s Hin.
  pose proof (initial_cleaning_run parse_number h r df Hr) as R.
  destruct (cleaned parse_number df) as [t'|e] eqn:Ec.
  2:{ destruct R as [ext R]. now rewrite R in Hclean. }
  destruct R as (r1' & ext & R & L). rewrite R in Hclean.
  injection Hclean as <- <-.
  rewrite L in Ht. injection Ht as ->.
  destruct (cleaned_wellformed n df t Hh Ec) as [Hnd Hna].
  destruct (handle_missing_values_success repr_number _ _ _ _ _ _ _ _ _ _
              L Hnd Hgate) as (imp & rep0 & g & Ex & El & _ & -> & ->).
  rewrite lookup_work in Hout. injection Hout as <-.
  pose proof (impute_loop_columns _ _ _ _ _ _ _ _ El) as Hcols.
  assert (Hnd' : NoDup (DF.columns imp)) by now rewrite Hcols.
  rewrite (prune_table _ _ _ Hnd') in Hin.
  assert (Hin' : (c, s) ∈ imp /\ (allow_drop_constant = true -> 1 < Ser.nunique s)).
  { destruct allow_drop_constant; [|done].
    apply list_elem_of_In in Hin. apply List.filter_In in Hin as [Hin Hc].
    split; [now apply list_elem_of_In|]. intros _. simpl in Hc.
    apply negb_true_iff, Nat.leb_gt in Hc. exact Hc. }
  destruct Hin' as [Hin' Hvar]. split; [|exact Hvar].
  destruct (impute_loop_elem_inv _ _ _ _ _ _ _ _ c s El Hin')
    as (s0 & i & Hs0 & Hstep).
  pose proof (Hna c s0 Hs0) as Hna0.
  pose proof (exceeding_nil_inv _ _ _ _ Ex Hs0) as Hgt.
  unfold column_step in Hstep.
  destruct (Float.eqb (missing_rate s0) Float.zero) eqn:Ez.
  { injection Hstep as <- _. now apply ratio_zero_inv in Ez. }
  destruct (Float.le (missing_rate s0) (Fin q)) eqn:Ele.
  { eapply impute_value_fills; [exact Hstep|].
    intros xs fill ->. apply (numeric_fill_known numeric_strategy xs fill Hns).
    - now apply not_all_na_observed.
    - now apply (Hfinite c). }
  exfalso.
  destruct (missing_rate_unit_interval s0 (not_all_na_len s0 Hna0))
    as [(p & Ep & _) _].
  rewrite Ep in Ele, Hgt. simpl in *. rewrite Ele in Hgt. discriminate Hgt.
Qed.

End Pipeline.

(** * The further properties on the example tables *)

Lemma duplicate_rows_cleaned :
  exists r1 h1,
    clean.initial_cleaning Syntax.parse_integer 0 [OFrame Examples.duplicate_rows]
    = (Ok r1, h1) /\
    h1 !! r1 = Some (OFrame [("0", SFloat [Fin 1; Fin 2]);
                             ("1", SObject [OStr "a"; OStr "b"])]).
Proof.
  pose proof (initial_cleaning_run Syntax.parse_integer
                [OFrame Examples.duplicate_rows] 0 Examples.duplicate_rows
                eq_refl) as R.
  assert (E : cleaned Syntax.parse_integer Examples.duplicate_rows
              = Ok [("0", SFloat [Fin 1; Fin 2]);
                    ("1", SObject [OStr "a"; OStr "b"])])
    by (vm_compute; reflexivity).
  rewrite E in R. destruct R as (r1 & ext & R & L). eauto.
Qed.

Lemma impute_column_returns {fp : Arithmetic} (repr_number : Q -> string)
    (h : heap) r (v : Series) strategy :
  h !! r = Some (OSeries v) ->
  recognized v strategy ->
  exists r' i h' v',
    clean.impute_column repr_number r strategy h = (Ok (r', i), h') /\
    h' !! r' = Some (OSeries v').
Proof.
  intros Hr Hrec.
  pose proof (impute_column_run repr_number h r v strategy Hr) as R.
  destruct (impute_value repr_number v strategy) as [[v' i]|e] eqn:E.
  - eexists _, _, _, v'. split; [exact R|].
    rewrite lookup_app_r by lia.
    now replace (S (length h) - length h) with 1 by lia.
  - exfalso. apply (impute_value_raise repr_number v strategy); eauto.
Qed.

Section FurtherExamples.

#[local] Existing Instance Syntax.exact_arithmetic.

Lemma median_table_returns :
  exists rep h',
    clean.handle_missing_values Syntax.repr_fraction 0 (Fin (1 # 2))
      "median" "mode" false [OFrame Examples.median_table]
    = (Ok (1, rep), h') /\
    h' !! 1 = Some (OFrame [("a", SFloat [Fin 1; Fin 3; Fin 3; Fin 3; Fin 5])]).
Proof.
  assert (Hnd : NoDup (DF.columns Examples.median_table)) by distinct_labels.
  pose proof (handle_missing_values_run Syntax.repr_fraction
                [OFrame Examples.median_table] 0 Examples.median_table
                (Fin (1 # 2)) "median" "mode" false eq_refl Hnd) as R.
  replace (exceeding (Fin (1 # 2)) Examples.median_table)
    with (@nil (string * float)) in R by (vm_compute; reflexivity).
  set (rep1 := match impute_loop Syntax.repr_fraction (Fin (1 # 2)) "median" "mode"
                       Examples.median_table ∅ with
               | Ok p => snd p
               | Raise _ => ∅
               end).
  assert (El : impute_loop Syntax.repr_fraction (Fin (1 # 2)) "median" "mode"
                 Examples.median_table ∅
               = Ok ([("a", SFloat [Fin 1; Fin 3; Fin 3; Fin 3; Fin 5])], rep1))
    by (vm_compute; reflexivity).
  rewrite El in R. destruct R as [g R]. simpl in R.
  eexists _, _. split; [exact R|reflexivity].
Qed.

Lemma initial_cleaning_succeeds_example :
  (exists r1 h1,
     clean.initial_cleaning Syntax.parse_integer 0
       [OFrame Examples.duplicate_rows] = (Ok r1, h1))
  <->
  NoDup (List.map clean.normalize_label (DF.columns Examples.duplicate_rows)) /\
  (forall c os, (c, SObject os) ∈ Examples.duplicate_rows ->
                clean.str_accessor_ok os = true).
Proof.
  apply (initial_cleaning_succeeds Syntax.parse_integer
           [OFrame Examples.duplicate_rows] 0 Examples.duplicate_rows eq_refl).
Defined.

(** The labels "Price" and " price " collide. *)
Lemma initial_cleaning_error_kinds_example :
  exists e h1,
    clean.initial_cleaning Syntax.parse_integer 0
      [OFrame Examples.colliding_labels] = (Raise e, h1) /\
    e = ValueError "The truth value of a Series is ambiguous".
Proof.
  pose proof (initial_cleaning_run Syntax.parse_integer
                [OFrame Examples.colliding_labels] 0 Examples.colliding_labels
                eq_refl) as R.
  assert (E : cleaned Syntax.parse_integer Examples.colliding_labels
              = Raise (ValueError "The truth value of a Series is ambiguous"))
    by (vm_compute; reflexivity).
  rewrite E in R. destruct R as [ext R].
  eexists _, _. split; [exact R|].
  destruct (initial_cleaning_error_kinds Syntax.parse_integer
              [OFrame Examples.colliding_labels] 0 Examples.colliding_labels
              _ _ eq_refl R) as [[He _]|[He _]]; [exact He|discriminate He].
Defined.

Lemma initial_cleaning_preserves_heap_example :
  snd (clean.initial_cleaning Syntax.parse_integer 0
         [OFrame Examples.duplicate_rows]) !! 0
  = Some (OFrame Examples.duplicate_rows).
Proof.
  apply (initial_cleaning_preserves_heap Syntax.parse_integer
           [OFrame Examples.duplicate_rows] 0 Examples.duplicate_rows eq_refl).
  reflexivity.
Defined.

Lemma initial_cleaning_labels_example :
  exists r1 h1 t,
    clean.initial_cleaning Syntax.parse_integer 0
      [OFrame Examples.duplicate_rows] = (Ok r1, h1) /\
    h1 !! r1 = Some (OFrame t) /\
    NoDup (DF.columns t) /\
    (forall c, c ∈ DF.columns t -> clean.normalize_label c = c).
Proof.
  destruct duplicate_rows_cleaned as (r1 & h1 & Hrun & Ht).
  destruct (initial_cleaning_labels Syntax.parse_integer
              [OFrame Examples.duplicate_rows] 0 Examples.duplicate_rows
              r1 h1 _ eq_refl Hrun Ht) as (Hnd & _ & Hnorm).
  eexists r1, h1, _. split; [exact Hrun|]. split; [exact Ht|]. now split.
Defined.

Lemma initial_cleaning_no_empty_column_example :
  exists r1 h1 t,
    clean.initial_cleaning Syntax.parse_integer 0
      [OFrame Examples.duplicate_rows] = (Ok r1, h1) /\
    h1 !! r1 = Some (OFrame t) /\
    (exists m, m <= 3 /\ height m t) /\
    (forall c s, (c, s) ∈ t -> all_na s = false).
Proof.
  destruct duplicate_rows_cleaned as (r1 & h1 & Hrun & Ht).
  eexists r1, h1, _. split; [exact Hrun|]. split; [exact Ht|].
  apply (initial_cleaning_no_empty_column Syntax.parse_integer
           [OFrame Examples.duplicate_rows] 0 Examples.duplicate_rows 3
           r1 h1 _ eq_refl); [|exact Hrun|exact Ht].
  repeat constructor.
Defined.

Lemma initial_cleaning_no_duplicate_rows_example :
  exists r1 h1 t,
    clean.initial_cleaning Syntax.parse_integer 0
      [OFrame Examples.duplicate_rows] = (Ok r1, h1) /\
    h1 !! r1 = Some (OFrame t) /\
    DF.duplicated t = repeat false (DF.nrows t).
Proof.
  destruct duplicate_rows_cleaned as (r1 & h1 & Hrun & Ht).
  eexists r1, h1, _. split; [exact Hrun|]. split; [exact Ht|].
  apply (initial_cleaning_no_duplicate_rows Syntax.parse_integer
           [OFrame Examples.duplicate_rows] 0 Examples.duplicate_rows 3
           r1 h1 _ eq_refl); [|exact Hrun|exact Ht].
  repeat constructor.
Defined.

Lemma initial_cleaning_zero_rows_example :
  exists r1 h1,
    clean.initial_cleaning Syntax.parse_integer 0 [OFrame Examples.no_rows]
    = (Ok r1, h1) /\
    h1 !! r1 = Some (OFrame []).
Proof.
  apply (initial_cleaning_zero_rows Syntax.parse_integer
           [OFrame Examples.no_rows] 0 Examples.no_rows eq_refl).
  - distinct_labels.
  - repeat constructor.
Defined.

Lemma initial_cleaning_column_types_example :
  exists r1 h1 t c0 s,
    clean.initial_cleaning Syntax.parse_integer 0
      [OFrame Examples.duplicate_rows] = (Ok r1, h1) /\
    h1 !! r1 = Some (OFrame t) /\
    (c0, s) ∈ Examples.duplicate_rows /\ clean.normalize_label c0 = "1" /\
    Ser.is_numeric_dtype (SObject [OStr "a"; OStr "b"])
    = match s with
      | SFloat _ => true
      | SObject os => Float.ge (numeric_ratio Syntax.parse_integer os) Float.half
      end.
Proof.
  destruct duplicate_rows_cleaned as (r1 & h1 & Hrun & Ht).
  destruct (initial_cleaning_column_types Syntax.parse_integer
              [OFrame Examples.duplicate_rows] 0 Examples.duplicate_rows
              r1 h1 _ "1" (SObject [OStr "a"; OStr "b"]) eq_refl Hrun Ht)
    as (c0 & s & Hin & Hc & Hty).
  - apply list_elem_of_further, list_elem_of_here.
  - eexists r1, h1, _, c0, s. split; [exact Hrun|]. split; [exact Ht|].
    now repeat split.
Defined.

Lemma impute_column_keeps_observed_example :
  exists r' i h' v',
    clean.impute_column Syntax.repr_fraction 0 "median"
      [OSeries (SFloat Examples.median_column)] = (Ok (r', i), h') /\
    h' !! r' = Some (OSeries v') /\
    observed_kept Syntax.repr_fraction (SFloat Examples.median_column) v' /\
    h' !! 0 = Some (OSeries (SFloat Examples.median_column)).
Proof.
  destruct (impute_column_returns Syntax.repr_fraction
              [OSeries (SFloat Examples.median_column)] 0
              (SFloat Examples.median_column) "median" eq_refl)
    as (r' & i & h' & v0 & Hrun & _); [now left|].
  destruct (impute_column_keeps_observed Syntax.repr_fraction
              [OSeries (SFloat Examples.median_column)] 0
              (SFloat Examples.median_column) "median" r' i h' eq_refl Hrun)
    as (v' & Hv' & Hobs & Hsame & _).
  exists r', i, h', v'. now repeat split.
Defined.

Lemma impute_column_report_counts_example :
  exists r' i h' v',
    clean.impute_column Syntax.repr_fraction 0 "median"
      [OSeries (SFloat Examples.median_column)] = (Ok (r', i), h') /\
    h' !! r' = Some (OSeries v') /\
    i !! "n_missing_before" = Some (VInt 2) /\
    i !! "strategy" = Some (VStr "median").
Proof.
  destruct (impute_column_returns Syntax.repr_fraction
              [OSeries (SFloat Examples.median_column)] 0
              (SFloat Examples.median_column) "median" eq_refl)
    as (r' & i & h' & v' & Hrun & Hv'); [now left|].
  destruct (impute_column_report_counts Syntax.repr_fraction
              [OSeries (SFloat Examples.median_column)] 0
              (SFloat Examples.median_column) "median" r' i h' v'
              eq_refl Hrun Hv')
    as (Hbefore & _ & Hstrategy & _).
  exists r', i, h', v'. now repeat split.
Defined.

(** The column [1, NaN, 3, NaN, 5] has mean 3. *)
Lemma impute_column_mean_example :
  exists r' i h',
    clean.impute_column Syntax.repr_fraction 0 "mean"
      [OSeries (SFloat Examples.median_column)] = (Ok (r', i), h') /\
    h' !! r' = Some (OSeries (SFloat [Fin 1; Fin 3; Fin 3; Fin 3; Fin 5])) /\
    i !! "fill_value" = Some (VFloat (Fin 3)) /\
    i !! "n_missing_after" = Some (VInt 0).
Proof.
  destruct (impute_column_mean Syntax.repr_fraction
              [OSeries (SFloat Examples.median_column)] 0
              Examples.median_column eq_refl)
    as (r' & i & h' & Hrun & Hcol & Hfill & _ & _ & Hafter & _).
  assert (E : Ser.fmean Examples.median_column = Fin 3)
    by (vm_compute; reflexivity).
  rewrite E in Hcol, Hfill, Hafter.
  exists r', i, h'. split; [exact Hrun|]. split; [exact Hcol|].
  split; [exact Hfill|now apply Hafter].
Defined.

Lemma impute_column_constant_example :
  exists r' i h' v',
    clean.impute_column Syntax.repr_fraction 0 "constant"
      [OSeries (SObject Examples.mode_column)] = (Ok (r', i), h') /\
    h' !! r' = Some (OSeries v') /\
    i !! "fill_value" = Some (VStr "missing") /\
    Ser.bsum (Ser.isna v') = 0.
Proof.
  destruct (impute_column_constant Syntax.repr_fraction
              [OSeries (SObject Examples.mode_column)] 0
              (SObject Examples.mode_column) eq_refl)
    as (r' & i & h' & v' & Hrun & Hv' & _ & Hfill & Hnone).
  exists r', i, h', v'. now repeat split.
Defined.

Lemma fifteen_rows_imputed :
  exists r1 h1 rep g,
    clean.initial_cleaning Syntax.parse_integer 0 [OFrame Examples.fifteen_rows]
    = (Ok r1, h1) /\
    h1 !! r1 = Some (OFrame Examples.fifteen_rows) /\
    clean.handle_missing_values Syntax.repr_fraction r1 (Fin (7 # 100))
      "median" "mode" true h1
    = (Ok (length h1, rep), h1 ++ OFrame Examples.fifteen_filled :: g).
Proof.
  pose proof (initial_cleaning_run Syntax.parse_integer
                [OFrame Examples.fifteen_rows] 0 Examples.fifteen_rows
                eq_refl) as R.
  assert (E : cleaned Syntax.parse_integer Examples.fifteen_rows
              = Ok Examples.fifteen_rows) by (vm_compute; reflexivity).
  rewrite E in R. destruct R as (r1 & ext & R & L).
  assert (Hnd : NoDup (DF.columns Examples.fifteen_rows)) by distinct_labels.
  pose proof (handle_missing_values_run Syntax.repr_fraction
                ([OFrame Examples.fifteen_rows] ++ ext) r1 Examples.fifteen_rows
                (Fin (7 # 100)) "median" "mode" true L Hnd) as G.
  replace (exceeding (Fin (7 # 100)) Examples.fifteen_rows)
    with (@nil (string * float)) in G by (vm_compute; reflexivity).
  set (rep1 := match impute_loop Syntax.repr_fraction (Fin (7 # 100))
                       "median" "mode" Examples.fifteen_rows ∅ with
               | Ok p => snd p
               | Raise _ => ∅
               end).
  assert (El : impute_loop Syntax.repr_fraction (Fin (7 # 100)) "median" "mode"
                 Examples.fifteen_rows ∅ = Ok (Examples.fifteen_filled, rep1))
    by (vm_compute; reflexivity).
  rewrite El in G. destruct G as [g G].
  assert (Ep : fst (prune true (Examples.fifteen_filled, rep1))
               = Examples.fifteen_filled) by (vm_compute; reflexivity).
  rewrite Ep in G. eauto 10.
Qed.

(** The driver's call on a table of fifteen rows with one missing
    number: cleaning, then imputation with threshold 0.07, "median",
    "mode" and pruning.  The missing number becomes 8, the midpoint of 7
    and 9. *)
Lemma cleaning_then_gate_example :
  exists r1 h1 r2 rep h2 out,
    clean.initial_cleaning Syntax.parse_integer 0
      [OFrame Examples.fifteen_rows] = (Ok r1, h1) /\
    clean.handle_missing_values Syntax.repr_fraction r1 (Fin (7 # 100))
      "median" "mode" true h1 = (Ok (r2, rep), h2) /\
    h2 !! r2 = Some (OFrame out) /\
    out = Examples.fifteen_filled /\
    forall c s, (c, s) ∈ out ->
      Ser.bsum (Ser.isna s) = 0 /\ (true = true -> 1 < Ser.nunique s).
Proof.
  destruct fifteen_rows_imputed as (r1 & h1 & rep & g & Hclean & Ht & Hgate).
  exists r1, h1, (length h1), rep,
    (h1 ++ OFrame Examples.fifteen_filled :: g), Examples.fifteen_filled.
  split; [exact Hclean|]. split; [exact Hgate|].
  split; [apply lookup_work|]. split; [reflexivity|].
  apply (cleaning_then_gate_leaves_no_missing Syntax.parse_integer
           Syntax.repr_fraction [OFrame Examples.fifteen_rows] 0
           Examples.fifteen_rows 15 r1 h1 Examples.fifteen_rows (7 # 100)
           "median" "mode" true (length h1) rep
           (h1 ++ OFrame Examples.fifteen_filled :: g)
           Examples.fifteen_filled eq_refl).
  - repeat constructor.
  - exact Hclean.
  - exact Ht.
  - now left.
  - intros c xs Hin.
    apply elem_of_cons in Hin as [Hin|Hin].
    + injection Hin as _ ->. repeat constructor.
    + apply list_elem_of_singleton in Hin. discriminate Hin.
  - exact Hgate.
  - apply lookup_work.
Defined.

(** The imputed column of the table [1, NaN, 3, NaN, 5] has no missing
    cell. *)
Lemma handle_missing_values_fills_example :
  exists rep h',
    clean.handle_missing_values Syntax.repr_fraction 0 (Fin (1 # 2))
      "median" "mode" false [OFrame Examples.median_table]
    = (Ok (1, rep), h') /\
    Ser.bsum (Ser.isna (SFloat [Fin 1; Fin 3; Fin 3; Fin 3; Fin 5])) = 0.
Proof.
  destruct median_table_returns as (rep & h' & Hrun & Hout).
  exists rep, h'. split; [exact Hrun|].
  apply (handle_missing_values_fills Syntax.repr_fraction
           [OFrame Examples.median_table] 0 Examples.median_table (Fin (1 # 2))
           "median" "mode" false "a" (SFloat Examples.median_column)
           1 rep h' [("a", SFloat [Fin 1; Fin 3; Fin 3; Fin 3; Fin 5])]
           (SFloat [Fin 1; Fin 3; Fin 3; Fin 3; Fin 5]) eq_refl).
  - distinct_labels.
  - apply list_elem_of_here.
  - vm_compute. reflexivity.
  - intros xs fill [= <-]. vm_compute. now intros [= <-].
  - exact Hrun.
  - exact Hout.
  - apply list_elem_of_here.
Defined.

Lemma compute_missing_rates_unit_interval_example :
  exists missing_rates,
    clean.compute_missing_rates 0 [OFrame Examples.median_table]
    = (Ok missing_rates, [OFrame Examples.median_table]) /\
    DF.columns Examples.median_table = List.map fst missing_rates /\
    forall c p, (c, p) ∈ missing_rates ->
      exists s q, (c, s) ∈ Examples.median_table /\ p = Fin q /\
                  (0 <= q)%Q /\ (q <= 1)%Q /\
                  (Ser.bsum (Ser.isna s) = 0 -> p = Fin 0).
Proof.
  apply (compute_missing_rates_unit_interval
           [OFrame Examples.median_table] 0 Examples.median_table 5 eq_refl).
  - distinct_labels.
  - repeat constructor.
  - lia.
Defined.

End FurtherExamples.

(** * Ties between most frequent values *)

Lemma string_leb_trans (s1 s2 s3 : string) :
  String.leb s1 s2 = true -> String.leb s2 s3 = true -> String.leb s1 s3 = true.
Proof.
  unfold String.leb. revert s2 s3.
  induction s1 as [|a s1 IH]; intros [|b s2] [|c s3]; simpl; try done.
  unfold Ascii.compare.
  destruct (N.compare_spec (N_of_ascii a) (N_of_ascii b)) as [Eab|Lab|Gab];
    [| |done];
    destruct (N.compare_spec (N_of_ascii b) (N_of_ascii c)) as [Ebc|Lbc|Gbc];
    try done; intros H1 H2.
  - rewrite Eab, Ebc, N.compare_refl. now apply (IH s2 s3).
  - rewrite Eab. now apply N.compare_lt_iff in Lbc as ->.
  - rewrite <- Ebc. now apply N.compare_lt_iff in Lab as ->.
  - assert (L : (N_of_ascii a < N_of_ascii c)%N) by lia.
    now apply N.compare_lt_iff in L as ->.
Qed.

Lemma text_leb_total (a b : obj) :
  Ser.obj_is_str a = true -> Ser.obj_is_str b = true ->
  Ser.obj_leb a b = true \/ Ser.obj_leb b a = true.
Proof. destruct a, b; simpl; try done. intros _ _. apply String.leb_total. Qed.

Lemma text_leb_trans (a b c : obj) :
  Ser.obj_is_str a = true -> Ser.obj_is_str b = true -> Ser.obj_is_str c = true ->
  Ser.obj_leb a b = true -> Ser.obj_leb b c = true -> Ser.obj_leb a c = true.
Proof. destruct a, b, c; simpl; try done. intros _ _ _. apply string_leb_trans. Qed.

(** The first element of a sorted list of texts is at most every element. *)
Lemma sort_text_head (l : list obj) :
  Forall (fun o => Ser.obj_is_str o = true) l ->
  match Ser.sort Ser.obj_leb l with
  | [] => l = []
  | m :: _ => In m l /\ forall x, In x l -> Ser.obj_leb m x = true
  end.
Proof.
  induction l as [|a l IH]; intros Hall; [done|].
  apply Forall_cons in Hall as [Ha Hall]. specialize (IH Hall).
  rewrite Forall_forall in Hall.
  assert (Hl : forall x, In x l -> Ser.obj_is_str x = true).
  { intros x Hx. apply Hall. now apply list_elem_of_In. }
  assert (Haa : Ser.obj_leb a a = true).
  { now destruct (text_leb_total a a Ha Ha). }
  change (Ser.sort Ser.obj_leb (a :: l))
    with (Ser.insert_sorted Ser.obj_leb a (Ser.sort Ser.obj_leb l)).
  destruct (Ser.sort Ser.obj_leb l) as [|m rest].
  - subst l. simpl. split; [now left|]. now intros x [<-|[]].
  - destruct IH as [Hm Hleast]. simpl.
    destruct (Ser.obj_leb a m) eqn:Eam.
    + split; [now left|]. intros x [<-|Hx]; [done|].
      apply (text_leb_trans a m x); auto.
    + split; [now right|]. intros x [<-|Hx]; [|now apply Hleast].
      destruct (text_leb_total a m Ha (Hl m Hm)) as [E|E]; [congruence|done].
Qed.

Section Ties.

Variable repr_number : Q -> string.
Context {fp : Arithmetic}.

(** X24. On a column of texts and missing cells with at least one text,
    [impute_column] with "mode" breaks ties by order: the fill is a text of
    the column that is at most, in the order of strings, every text that
    no other value outnumbers. *)
Theorem impute_column_mode_tie_break (h : heap) r (os : list obj) :
  h !! r = Some (OSeries (SObject os)) ->
  Forall (fun o => Ser.obj_isna o = true \/ Ser.obj_is_str o = true) os ->
  Ser.dropna os <> [] ->
  exists r' i h' t,
    clean.impute_column repr_number r "mode" h = (Ok (r', i), h') /\
    i !! "fill_value" = Some (VStr t) /\
    In (OStr t) os /\
    forall t', In (OStr t') os ->
      (forall v, Ser.obj_isna v = false ->
                 Ser.count v os <= Ser.count (OStr t') os) ->
      String.leb t t' = true.
Proof.
  intros Hr Htext Hne.
  set (vals := Ser.dropna os).
  set (ms := List.filter (fun v => Ser.count v vals =? Ser.max_count vals)
               (Ser.unique vals)).
  assert (Hvals : forall v, In v vals -> Ser.obj_is_str v = true).
  { intros v Hv. apply dropna_In in Hv as [Hv Hna].
    rewrite Forall_forall in Htext.
    destruct (Htext v) as [E|E]; [now apply list_elem_of_In|congruence|done]. }
  assert (Hms : Forall (fun o => Ser.obj_is_str o = true) ms).
  { apply Forall_forall. intros v Hv. apply list_elem_of_In in Hv.
    apply List.filter_In in Hv as [Hv _]. now apply Hvals, unique_sub. }
  assert (Emode : Ser.mode os = Ser.sort Ser.obj_leb ms).
  { unfold Ser.mode. fold vals. fold ms.
    assert (E : forallb Ser.obj_is_str ms = true).
    { apply forallb_forall. intros v Hv. rewrite Forall_forall in Hms.
      apply Hms. now apply list_elem_of_In. }
    now rewrite E. }
  pose proof (sort_text_head ms Hms) as Hhead. rewrite <- Emode in Hhead.
  pose proof (mode_nonempty os Hne) as Hmode.
  destruct (Ser.mode os) as [|m rest] eqn:Em; [done|].
  destruct Hhead as [Hm Hleast].
  assert (Hmstr : Ser.obj_is_str m = true).
  { rewrite Forall_forall in Hms. apply Hms. now apply list_elem_of_In. }
  destruct m as [|t|q|sg]; try done.
  pose proof (impute_column_run repr_number h r (SObject os) "mode" Hr) as R.
  simpl in R. unfold categorical_fill in R. simpl in R.
  assert (Hnil : clean.is_nil (Ser.dropna os) = false)
    by now destruct (Ser.dropna os).
  rewrite Hnil, Em in R.
  eexists _, _, _, t. split; [exact R|]. split; [|split].
  - rewrite lookup_insert_ne by done. apply lookup_insert_eq.
  - apply List.filter_In in Hm as [Hm _].
    now apply unique_sub, dropna_In in Hm as [Hm _].
  - intros t' Hin Hmost.
    assert (Hv' : In (OStr t') vals) by now apply dropna_In.
    destruct (unique_covers vals (OStr t') Hv') as (u & Hu & Eu).
    assert (u = OStr t') as ->.
    { destruct u; try done. simpl in Eu. apply String.eqb_eq in Eu. now subst. }
    assert (Hmax : Ser.count (OStr t') vals = Ser.max_count vals).
    { apply Nat.le_antisymm.
      - unfold Ser.max_count. now apply count_le_max_count.
      - destruct (max_count_attained vals vals) as (v & Hv & Ev).
        { exact Hne. }
        assert (Hna : Ser.obj_isna v = false).
        { apply Hvals in Hv. now destruct v. }
        unfold Ser.max_count. rewrite <- Ev.
        unfold vals. rewrite !count_dropna by done. now apply Hmost. }
    assert (Hin' : In (OStr t') ms).
    { apply List.filter_In. split; [done|]. now apply Nat.eqb_eq. }
    exact (Hleast (OStr t') Hin').
Qed.

End Ties.

Section TieExample.

#[local] Existing Instance Syntax.exact_arithmetic.

(** In ["b"; "a"; None; "b"; "a"] both texts occur twice: the fill is
    "a". *)
Lemma impute_column_mode_tie_break_example :
  exists r' i h',
    clean.impute_column Syntax.repr_fraction 0 "mode"
      [OSeries (SObject [OStr "b"; OStr "a"; ONa; OStr "b"; OStr "a"])]
    = (Ok (r', i), h') /\
    i !! "fill_value" = Some (VStr "a").
Proof.
  destruct (impute_column_mode_tie_break Syntax.repr_fraction
              [OSeries (SObject [OStr "b"; OStr "a"; ONa; OStr "b"; OStr "a"])]
              0 [OStr "b"; OStr "a"; ONa; OStr "b"; OStr "a"] eq_refl)
    as (r' & i & h' & t & Hrun & Hfill & Hin & Hleast).
  - repeat (apply List.Forall_cons; [simpl; auto|]). apply List.Forall_nil.
  - discriminate.
  - exists r', i, h'. split; [exact Hrun|]. rewrite Hfill. do 2 f_equal.
    assert (Ha : String.leb t "a" = true).
    { apply Hleast; [simpl; auto|].
      intros [|s|q|sg] Hv; try done; unfold Ser.count; simpl.
      - destruct (String.eqb_spec s "b") as [->|_]; simpl; [lia|].
        destruct (String.eqb s "a"); simpl; lia.
      - lia.
      - lia. }
    simpl in Hin.
    destruct Hin as [E|[E|[E|[E|[E|[]]]]]]; try discriminate E;
      injection E as <-; [discriminate Ha|done|discriminate Ha|done].
Defined.

End TieExample.
